(** * modernjs-send: a shallow embedding of the static-file responder

    The development follows the TypeScript sources:
    - [lib/send.ts]: the [SendStream] responder ([pipe], [sendFile],
      [sendIndex], [send], [error], [redirect], [notModified], and the private
      helpers at the end of the file);
    - [modules/range-parser]: [rangeParser] and [combineRanges];
    - [modules/parseurl]: [parseUrl], [getOriginalUrl] and [fastparse];
    - [lib/serve-static]: [serveStatic], the middleware it returns and the
      listeners of the middleware.

    Conventions.
    - A JavaScript string is a [string]: a sequence of 8-bit code units.  A
      header value is the latin1 string that Node's HTTP parser delivers; a
      path is taken by its UTF-8 bytes.  Every test the code makes on a path
      looks at the ASCII characters [.], [/], [\] and NUL only, and those never
      occur inside a multi-byte UTF-8 sequence.
    - A JavaScript number that the code uses as an integer is a [Z]; a number
      that may be [NaN] is an [option Z] with [None] for [NaN].  Magnitudes
      beyond 2^53 are not rounded.
    - The platform is POSIX: [path.sep] is [/].
    - The response object is threaded explicitly; asynchronous [fs.stat]
      callbacks are run in place against a filesystem given as a function.
      A call of [pipe] is followed up to the point where the head is written
      and the body is ended or the file stream is piped.
    - Of the checks Node makes in [setHeader] and [removeHeader] the one on a
      head already sent is kept; names and values are taken as valid. *)

From Stdlib Require Import ZArith Ascii String List Lia Permutation Sorted DecimalString.
From stdpp Require Import base option list gmap strings fin_maps sorting.

Local Open Scope Z_scope.

(** ** JavaScript strings and numbers *)

Module Js.

(** [str.slice(n)] for [0 <= n]. *)
Fixpoint slice_from (n : nat) (s : string) : string :=
  match n, s with
  | O, _ => s
  | S n', String _ s' => slice_from n' s'
  | S _, EmptyString => EmptyString
  end.

(** [str.slice(0, n)], also [str.substr(0, n)]. *)
Fixpoint slice_to (n : nat) (s : string) : string :=
  match n, s with
  | O, _ => EmptyString
  | S n', String c s' => String c (slice_to n' s')
  | S _, EmptyString => EmptyString
  end.

(** [str.indexOf(c)] for a one-character needle; [None] stands for [-1]. *)
Fixpoint indexOf_char (c : ascii) (s : string) : option nat :=
  match s with
  | EmptyString => None
  | String d s' =>
      if Ascii.eqb c d then Some O else S <$> indexOf_char c s'
  end.

(** [str.split(c)] for a one-character separator: never empty. *)
Fixpoint split (c : ascii) (s : string) : list string :=
  match s with
  | EmptyString => [EmptyString]
  | String d s' =>
      if Ascii.eqb c d then EmptyString :: split c s'
      else match split c s' with
           | [] => [String d EmptyString]
           | w :: ws => String d w :: ws
           end
  end.

(** [haystack.indexOf(needle) !== -1]. *)
Fixpoint includes (needle hay : string) : bool :=
  String.prefix needle hay ||
  match hay with
  | EmptyString => false
  | String _ hay' => includes needle hay'
  end.

(** A value used as a condition: [undefined] and the empty string are
    falsy, every other string is truthy. *)
Definition truthy (v : option string) : bool :=
  match v with
  | Some s => negb (String.eqb s EmptyString)
  | None => false
  end.

(** [String(v)] for a string or [undefined]. *)
Definition String_ (v : option string) : string :=
  match v with
  | Some s => s
  | None => "undefined"
  end.

(** White space that [parseInt] skips, among the code units below 256. *)
Definition is_white (c : ascii) : bool :=
  let n := nat_of_ascii c in
  ((9 <=? n) && (n <=? 13) || (n =? 32) || (n =? 160))%nat.

Definition digit (c : ascii) : option Z :=
  let n := Z.of_nat (nat_of_ascii c) in
  if (48 <=? n) && (n <=? 57) then Some (n - 48) else None.

Fixpoint skip_white (s : string) : string :=
  match s with
  | String c s' => if is_white c then skip_white s' else s
  | EmptyString => s
  end.

(** The digits of the longest decimal prefix, most significant first. *)
Fixpoint digits (acc : Z) (s : string) : Z :=
  match s with
  | String c s' =>
      match digit c with
      | Some d => digits (10 * acc + d) s'
      | None => acc
      end
  | EmptyString => acc
  end.

Definition starts_with_digit (s : string) : bool :=
  match s with
  | String c _ => bool_decide (is_Some (digit c))
  | EmptyString => false
  end.

(** [parseInt(s, 10)] for a string, [None] for [NaN]. *)
Definition parseInt (s : string) : option Z :=
  let s1 := skip_white s in
  let '(sign, s2) :=
    match s1 with
    | String "-" r => (-1, r)
    | String "+" r => (1, r)
    | _ => (1, s1)
    end in
  if starts_with_digit s2 then Some (sign * digits 0 s2) else None.

(** [parseInt(v, 10)] where [v] may be [undefined] (an array read out of
    range): ["undefined"] has no digits. *)
Definition parseInt_opt (v : option string) : option Z :=
  parseInt (String_ v).

(** The decimal form of an integer, as [String(n)] or [x + n] prints it. *)
Definition of_Z (n : Z) : string :=
  NilEmpty.string_of_int (Z.to_int n).

End Js.

(** ** modules/range-parser *)

Module RangeParser.

Record IRangeItem := mkRange { start : Z; end_ : Z }.

(** A range that carries the [index] field [mapWithIndex] adds. *)
Record IndexedItem := mkIndexed { istart : Z; iend : Z; index : nat }.

(** What [rangeParser] returns: [-2], [-1], or the array with its [type]. *)
Inductive result :=
| Malformed
| Unsatisfiable
| Ranges (type : string) (ranges : list IRangeItem).

Definition mapWithIndex (range : IRangeItem) (i : nat) : IndexedItem :=
  mkIndexed (start range) (end_ range) i.

Definition mapWithoutIndex (range : IndexedItem) : IRangeItem :=
  mkRange (istart range) (iend range).

(** [Array.prototype.sort] with the comparator [key a - key b], as the stable
    sort ECMAScript 2019 requires: an element goes before the equal ones that
    came after it. *)
Fixpoint insert_by {A} (key : A -> Z) (x : A) (l : list A) : list A :=
  match l with
  | [] => [x]
  | y :: l' => if key y <? key x then y :: insert_by key x l' else x :: l
  end.

Fixpoint sort_by {A} (key : A -> Z) (l : list A) : list A :=
  match l with
  | [] => []
  | x :: l' => insert_by key x (sort_by key l')
  end.

Definition sortByRangeStart : list IndexedItem -> list IndexedItem :=
  sort_by istart.

Definition sortByRangeIndex : list IndexedItem -> list IndexedItem :=
  sort_by (fun r => Z.of_nat (index r)).

(** The loop of [combineRanges].  [done] holds [ordered[0 .. j-1]] in reverse,
    [current] is [ordered[j]], [rest] is [ordered[i ..]]. *)
Fixpoint combine_loop (done : list IndexedItem) (current : IndexedItem)
    (rest : list IndexedItem) : list IndexedItem :=
  match rest with
  | [] => rev (current :: done)
  | range :: rest' =>
      if istart range >? iend current + 1 then
        (* next range *)
        combine_loop (current :: done) range rest'
      else if iend range >? iend current then
        (* extend range *)
        combine_loop done
          (mkIndexed (istart current) (iend range)
             (Nat.min (index current) (index range))) rest'
      else combine_loop done current rest'
  end.

(** [combineRanges]; [rangeParser] calls it on a non-empty array only (on an
    empty one the source fails on [ordered[0]], which is [undefined]). *)
Definition combineRanges (ranges : list IRangeItem) : list IRangeItem :=
  let ordered := sortByRangeStart (imap (fun i r => mapWithIndex r i) ranges) in
  match ordered with
  | [] => []
  | current :: rest =>
      mapWithoutIndex <$> sortByRangeIndex (combine_loop [] current rest)
  end.

(** The body of the parsing loop once [parseInt] has run: [Some] is a range
    that is pushed, [None] is [continue]. *)
Definition parse_bounds (size : Z) (start0 end0 : option Z) : option IRangeItem :=
  let '(start1, end1) :=
    match start0, end0 with
    | None, _ =>
        (* -nnn *)
        ((fun e => size - e) <$> end0, Some (size - 1))
    | Some _, None =>
        (* nnn- *)
        (start0, Some (size - 1))
    | Some _, Some _ => (start0, end0)
    end in
  (* limit last-byte-pos to current length *)
  let end2 :=
    match end1 with
    | Some e => if e >? size - 1 then Some (size - 1) else Some e
    | None => None
    end in
  (* invalid or unsatisifiable *)
  match start1, end2 with
  | Some s, Some e => if (s >? e) || (s <? 0) then None else Some (mkRange s e)
  | _, _ => None
  end.

Definition parse_item (size : Z) (item : string) : option IRangeItem :=
  let range := Js.split "-" item in
  parse_bounds size (Js.parseInt_opt (range !! 0%nat))
                    (Js.parseInt_opt (range !! 1%nat)).

Definition rangeParser (size : Z) (str : string) (combine : bool) : result :=
  match Js.indexOf_char "=" str with
  | None => Malformed
  | Some index =>
      let arr := Js.split "," (Js.slice_from (S index) str) in
      let ranges := omap (parse_item size) arr in
      match ranges with
      | [] => Unsatisfiable
      | _ :: _ =>
          Ranges (Js.slice_to index str)
                 (if combine then combineRanges ranges else ranges)
      end
  end.

End RangeParser.

(** ** Platform functions on paths and URIs

    [decodeURIComponent] and the POSIX side of Node's [path] module, which
    [send.ts] imports.  They are written after ECMAScript's [Decode] and Node's
    [normalizeString]. *)

Module Path.

Definition sep : ascii := "/".

Definition hex (c : ascii) : option Z :=
  let n := Z.of_nat (nat_of_ascii c) in
  if (48 <=? n) && (n <=? 57) then Some (n - 48)
  else if (65 <=? n) && (n <=? 70) then Some (n - 55)
  else if (97 <=? n) && (n <=? 102) then Some (n - 87)
  else None.

Definition byte (b : Z) : ascii := ascii_of_nat (Z.to_nat b).

(** What the decoder expects of the next escaped octet: any first octet, or a
    continuation octet within [lo .. hi] followed by [more] plain ones. *)
Inductive expect :=
| First
| Cont (lo hi : Z) (more : nat).

(** After the first octet [b] of a character: [Some None] when [b] is the
    whole character, [Some (Some _)] for what must follow in a well-formed
    UTF-8 sequence, [None] for an octet that cannot start one. *)
Definition after_first (b : Z) : option (option (Z * Z * nat)) :=
  if b <? 128 then Some None
  else if (194 <=? b) && (b <=? 223) then Some (Some (128, 191, 0%nat))
  else if b =? 224 then Some (Some (160, 191, 1%nat))
  else if (225 <=? b) && (b <=? 236) then Some (Some (128, 191, 1%nat))
  else if b =? 237 then Some (Some (128, 159, 1%nat))
  else if (238 <=? b) && (b <=? 239) then Some (Some (128, 191, 1%nat))
  else if b =? 240 then Some (Some (144, 191, 2%nat))
  else if (241 <=? b) && (b <=? 243) then Some (Some (128, 191, 2%nat))
  else if b =? 244 then Some (Some (128, 143, 2%nat))
  else None.

(** Where the decoder stands between two code units. *)
Inductive dstate :=
| Lit                              (* between characters *)
| Need (lo hi : Z) (more : nat)    (* inside a character: [%] must follow *)
| Pct (e : expect)                 (* after [%] *)
| Hex1 (e : expect) (x : Z).       (* after [%] and one hex digit *)

Definition escaped (e : expect) (b : Z) : option dstate :=
  match e with
  | First =>
      match after_first b with
      | Some None => Some Lit
      | Some (Some (lo, hi, more)) => Some (Need lo hi more)
      | None => None
      end
  | Cont lo hi more =>
      if (lo <=? b) && (b <=? hi) then
        match more with
        | O => Some Lit
        | S more' => Some (Need 128 191 more')
        end
      else None
  end.

(** [None] is the [URIError]. *)
Fixpoint decode_from (st : dstate) (s : string) : option string :=
  match s with
  | EmptyString => match st with Lit => Some EmptyString | _ => None end
  | String c r =>
      match st with
      | Lit =>
          if Ascii.eqb c "%" then decode_from (Pct First) r
          else String c <$> decode_from Lit r
      | Need lo hi more =>
          if Ascii.eqb c "%" then decode_from (Pct (Cont lo hi more)) r
          else None
      | Pct e =>
          match hex c with
          | Some x => decode_from (Hex1 e x) r
          | None => None
          end
      | Hex1 e x =>
          match hex c with
          | Some y =>
              match escaped e (16 * x + y) with
              | Some st' => String (byte (16 * x + y)) <$> decode_from st' r
              | None => None
              end
          | None => None
          end
      end
  end.

Definition decodeURIComponent (s : string) : option string :=
  decode_from Lit s.

Fixpoint join_with (c : ascii) (l : list string) : string :=
  match l with
  | [] => EmptyString
  | [x] => x
  | x :: l' => x +:+ String c (join_with c l')
  end.

(** One segment of [normalizeString]; [res] is the result so far as a stack
    of segments, last one first. *)
Definition normalize_step (allowAboveRoot : bool) (res : list string)
    (seg : string) : list string :=
  if String.eqb seg "" || String.eqb seg "." then res
  else if String.eqb seg ".." then
    match res with
    | top :: res' =>
        if String.eqb top ".." then
          (if allowAboveRoot then seg :: res else res)
        else res'
    | [] => if allowAboveRoot then [seg] else []
    end
  else seg :: res.

Definition normalizeString (path : string) (allowAboveRoot : bool) : string :=
  join_with sep
    (rev (fold_left (normalize_step allowAboveRoot) (Js.split sep path) [])).

Definition isAbsolute (path : string) : bool :=
  match path with
  | String c _ => Ascii.eqb c sep
  | EmptyString => false
  end.

Fixpoint ends_with (c : ascii) (s : string) : bool :=
  match s with
  | EmptyString => false
  | String d EmptyString => Ascii.eqb d c
  | String _ r => ends_with c r
  end.

Definition normalize (path : string) : string :=
  if String.eqb path "" then "."
  else
    let abs := isAbsolute path in
    let trailingSeparator := ends_with sep path in
    let p := normalizeString path (negb abs) in
    let p := if String.eqb p "" && negb abs then "." else p in
    let p := if negb (String.eqb p "") && trailingSeparator
             then p +:+ String sep "" else p in
    if abs then String sep p else p.

(** [path.join(a, b)]: the non-empty arguments joined by [/], normalized. *)
Definition join (a b : string) : string :=
  let joined :=
    if String.eqb a "" then b
    else if String.eqb b "" then a
    else a +:+ String sep b in
  if String.eqb joined "" then "." else normalize joined.

(** [path.resolve(p)] with the process working directory [cwd], itself
    absolute. *)
Definition resolve (cwd p : string) : string :=
  let full :=
    if isAbsolute p then p
    else if String.eqb p "" then cwd
    else cwd +:+ String sep p in
  String sep (normalizeString full false).

(** The last component of [path] with the trailing separators dropped. *)
Definition basename (path : string) : string :=
  List.last (filter (fun s => s <> EmptyString) (Js.split sep path)) EmptyString.

Fixpoint lastIndexOf_char (c : ascii) (s : string) : option nat :=
  match s with
  | EmptyString => None
  | String d r =>
      match lastIndexOf_char c r with
      | Some i => Some (S i)
      | None => if Ascii.eqb c d then Some O else None
      end
  end.

(** [extname(path) !== ""]: the last component has a dot that is not its first
    character, and is not [..]. *)
Definition has_extname (path : string) : bool :=
  let base := basename path in
  match lastIndexOf_char "." base with
  | None | Some O => false
  | Some (S _) => negb (String.eqb base "..")
  end.

End Path.

(** ** lib/send.ts: data *)

Module Send.

(** [fs.Stats], with [mtime] in milliseconds. *)
Record Stats := mkStats { size : Z; mtime : Z; isDirectory : bool }.

(** What [fs.stat] hands to its callback: an error with its [code], or the
    stats. *)
Inductive stat_result :=
| StatError (code : string)
| StatOk (stat : Stats).

(** [IHttpError] of lib/utils. *)
Record IHttpError := mkError {
  message : option string;
  name : option string;
  e_headers : option (list (string * string));
  code : option string;
  status : option Z
}.

(** The functions [send.ts] imports whose code is not among the sources at
    hand, and the constants of the platform: the modules [fresh], [etag],
    [encodeurl] and [escape-html], the [mime] package, [Date] and Node's
    [http] and [process].  [ms_parse] is the duration grammar of modules/ms,
    which computes in floating point: it gives the floor of the milliseconds,
    or [None] where the module returns [undefined]; [_maxage] is used through
    [Math.floor(_maxage / 1000)] only, which the floor does not change. *)
Record Externals := mkExternals {
  cwd : string;                            (* process.cwd() *)
  STATUS_CODES : Z -> option string;       (* http.STATUS_CODES *)
  escapeHtml : string -> string;
  encodeUrl : string -> string;
  etag : Stats -> string;
  fresh : gmap string string -> option string -> option string -> bool;
  mime_getType : string -> option string;
  ms_parse : string -> option Z;
  Date_parse : string -> option Z;         (* None is NaN *)
  toUTCString : Z -> string                (* stat.mtime.toUTCString() *)
}.

(** [string[] | string | boolean], the type of [extensions] and [index]. *)
Inductive list_option :=
| LBool (b : bool)
| LStr (s : string)
| LArr (l : list string).

(** [string | number], the type of [maxAge]; a number is a whole number of
    milliseconds. *)
Inductive maxage_option :=
| MStr (s : string)
| MNum (n : Z).

(** [ISendOptions]; [None] is a property left [undefined].  [opt_dotfiles]
    holds whatever string the caller passed, valid or not. *)
Record ISendOptions := mkOptions {
  opt_acceptRanges : option bool;
  opt_cacheControl : option bool;
  opt_dotfiles : option string;
  opt_end : option Z;
  opt_etag : option bool;
  opt_extensions : option list_option;
  opt_index : option list_option;
  opt_lastModified : option bool;
  opt_maxAge : option maxage_option;
  opt_root : option string;
  opt_start : option Z
}.

Definition no_options : ISendOptions :=
  mkOptions None None None None None None None None None None None.

(** The part of [IncomingMessage] the responder reads; header names are in
    lower case, as Node stores them. *)
Record IncomingMessage := mkRequest {
  method : string;
  req_headers : gmap string string
}.

(** The part of [ServerResponse] the responder touches.  Header names are
    kept in lower case, as [res_setHeader] stores them; a numeric header
    value is kept in its decimal form. *)
Record ServerResponse := mkResponse {
  statusCode : Z;
  headers : gmap string string;
  headersSent : bool
}.

(** A listener of the [headers] event: it may set headers on the response. *)
Definition headers_listener : Type :=
  ServerResponse -> string -> Stats -> ServerResponse.

(** [SendStream]: the fields the constructor sets, and the listeners
    attached afterwards with [on]. *)
Record SendStream := mkStream {
  req : IncomingMessage;
  path : string;
  options : ISendOptions;
  _acceptRanges : bool;
  _cacheControl : bool;
  _etag : bool;
  _dotfiles : option string;
  _extensions : list string;
  _index : list string;
  _lastModified : bool;
  _maxage : Z;
  _root : option string;
  on_error : bool;                         (* hasListeners(this, "error") *)
  on_directory : bool;                     (* hasListeners(this, "directory") *)
  on_headers : list headers_listener
}.

Inductive thrown :=
| TypeError (msg : string)
| Error (msg : string).

(** How a call of [pipe] ends. *)
Inductive outcome :=
| Ended (res : ServerResponse) (body : string)
    (* the head is written and [res.end(body)] is called *)
| Piped (res : ServerResponse) (file : string) (opts_start opts_end : Z)
    (* [this.stream(file, opts)]: the head is written and the file is piped *)
| EmitError (err : IHttpError)
| EmitDirectory (res : ServerResponse) (dir : string)
| Throws (what : thrown).

(** What is observable on the way: [fs.stat] calls and [file] events. *)
Inductive event :=
| EvStat (p : string)
| EvFile (p : string).

Definition MAX_MAXAGE : Z := 60 * 60 * 24 * 365 * 1000.

Definition dq : ascii := "034".
Definition nl : string := String "010" EmptyString.

(** *** Private helpers of send.ts *)

Fixpoint toLowerCase (s : string) : string :=
  match s with
  | EmptyString => EmptyString
  | String c r =>
      let n := nat_of_ascii c in
      String (if (65 <=? n)%nat && (n <=? 90)%nat
              then ascii_of_nat (n + 32) else c) (toLowerCase r)
  end.

Definition res_getHeader (res : ServerResponse) (h : string) : option string :=
  headers res !! toLowerCase h.

Definition res_setHeader (res : ServerResponse) (h v : string) : ServerResponse :=
  mkResponse (statusCode res) (<[toLowerCase h := v]> (headers res))
             (headersSent res).

Definition res_removeHeader (res : ServerResponse) (h : string) : ServerResponse :=
  mkResponse (statusCode res) (delete (toLowerCase h) (headers res))
             (headersSent res).

Definition set_statusCode (res : ServerResponse) (s : Z) : ServerResponse :=
  mkResponse s (headers res) (headersSent res).

Definition getHeaderNames (res : ServerResponse) : list string :=
  (map_to_list (headers res)).*1.

Definition clearHeaders (res : ServerResponse) : ServerResponse :=
  fold_left res_removeHeader (getHeaderNames res) res.

Definition setHeaders (res : ServerResponse) (hs : list (string * string))
    : ServerResponse :=
  fold_left (fun r kv => res_setHeader r kv.1 kv.2) hs res.

Fixpoint count_leading (c : ascii) (s : string) : nat :=
  match s with
  | String d r => if Ascii.eqb c d then S (count_leading c r) else O
  | EmptyString => O
  end.

Definition collapseLeadingSlashes (str : string) : string :=
  let i := count_leading "/" str in
  if (1 <? i)%nat then String "/" (Js.slice_from i str) else str.

Definition containsDotFile (parts : list string) : bool :=
  existsb (fun part =>
             (1 <? String.length part)%nat &&
             match part with
             | String c _ => Ascii.eqb c "."
             | EmptyString => false
             end) parts.

Definition contentRange (type : string) (size : Z)
    (range : option RangeParser.IRangeItem) : string :=
  type +:+ " " +:+
  match range with
  | Some r =>
      Js.of_Z (RangeParser.start r) +:+ "-" +:+ Js.of_Z (RangeParser.end_ r)
  | None => "*"
  end +:+ "/" +:+ Js.of_Z size.

Definition createHtmlDocument (title body : string) : string :=
  "<!DOCTYPE html>" +:+ nl +:+
  "<html lang=" +:+ String dq "en" +:+ String dq ">" +:+ nl +:+
  "<head>" +:+ nl +:+
  "<meta charset=" +:+ String dq "utf-8" +:+ String dq ">" +:+ nl +:+
  "<title>" +:+ title +:+ "</title>" +:+ nl +:+
  "</head>" +:+ nl +:+
  "<body>" +:+ nl +:+
  "<pre>" +:+ body +:+ "</pre>" +:+ nl +:+
  "</body>" +:+ nl +:+
  "</html>" +:+ nl.

(** [decode]: [None] is the [-1] returned on a [URIError]. *)
Definition decode (path : string) : option string :=
  Path.decodeURIComponent path.

Definition normalizeList (val : list_option) (name : string)
    : thrown + list string :=
  match val with
  | LBool false => inr []
  | LBool true => inl (TypeError (name +:+ " must be array of strings or false"))
  | LStr s => inr (if String.eqb s "" then [] else [s])
  | LArr l => inr l
  end.

(** The loop of [parseTokenList] at index [i], with [rest] the part of [str]
    from [i] on. *)
Fixpoint parseTokenList_loop (str rest : string) (i start end_ : nat)
    : list string :=
  match rest with
  | EmptyString =>
      (* final token *)
      [String.substring start (end_ - start) str]
  | String c rest' =>
      if Ascii.eqb c " " then
        if (start =? end_)%nat
        then parseTokenList_loop str rest' (S i) (S i) (S i)
        else parseTokenList_loop str rest' (S i) start end_
      else if Ascii.eqb c "," then
        String.substring start (end_ - start) str
          :: parseTokenList_loop str rest' (S i) (S i) (S i)
      else parseTokenList_loop str rest' (S i) start (S i)
  end.

Definition parseTokenList (str : string) : list string :=
  parseTokenList_loop str str 0 0 0.

(** [UP_PATH_REGEXP.test]: the pattern is [..] with the start of the string
    or a [/] or [\] before it, and the end of the string or a [/] or [\]
    after it.  [boundary] tells whether such a position precedes [s]. *)
Definition is_slash (c : ascii) : bool :=
  Ascii.eqb c "/" || Ascii.eqb c "\".

Fixpoint up_path_from (boundary : bool) (s : string) : bool :=
  match s with
  | EmptyString => false
  | String c r =>
      (boundary && Ascii.eqb c "." &&
       match r with
       | String "." EmptyString => true
       | String "." (String d _) => is_slash d
       | _ => false
       end)
      || up_path_from (is_slash c) r
  end.

Definition UP_PATH_REGEXP_test (s : string) : bool := up_path_from true s.

(** [BYTES_RANGE_REGEXP.test] on the [Range] header, which may be
    [undefined]. *)
Definition BYTES_RANGE_REGEXP_test (v : option string) : bool :=
  let s := Js.String_ v in
  String.prefix "bytes=" (Js.slice_from (count_leading " " s) s).

(** *** The constructor *)

(** The message of the [TypeError] on a bad [dotfiles] option. *)
Definition dotfiles_message : string :=
  "dotfiles option must be " +:+ String dq "allow" +:+ String dq ", " +:+
  String dq "deny" +:+ String dq ", or " +:+ String dq "ignore" +:+
  String dq "".

Definition constructor (E : Externals) (req : IncomingMessage) (path : string)
    (options : ISendOptions) : thrown + SendStream :=
  let acceptRanges := default true (opt_acceptRanges options) in
  let cacheControl := default true (opt_cacheControl options) in
  let etag := default true (opt_etag options) in
  let dotfiles := default "ignore" (opt_dotfiles options) in
  if negb (String.eqb dotfiles "ignore") && negb (String.eqb dotfiles "allow")
     && negb (String.eqb dotfiles "deny")
  then inl (TypeError dotfiles_message)
  else
    (* legacy support *)
    let dotfiles := opt_dotfiles options in
    match match opt_extensions options with
          | Some v => normalizeList v "extensions option"
          | None => inr []
          end with
    | inl e => inl e
    | inr extensions =>
        match match opt_index options with
              | Some v => normalizeList v "index option"
              | None => inr ["index.html"]
              end with
        | inl e => inl e
        | inr index =>
            let lastModified := default true (opt_lastModified options) in
            match match opt_maxAge options with
                  | Some (MStr s) =>
                      (* ms(val) throws on the empty string *)
                      if String.eqb s ""
                      then inl (Error ("val is not a non-empty string or a valid number. val="
                                  +:+ String dq (String dq "")))
                      else inr (ms_parse E s)
                  | Some (MNum n) => inr (Some n)
                  | None => inr None
                  end with
            | inl e => inl e
            | inr maxage =>
                let maxage :=
                  match maxage with
                  | Some m => Z.min (Z.max 0 m) MAX_MAXAGE
                  | None => 0
                  end in
                let root :=
                  match opt_root options with
                  | Some r =>
                      if String.eqb r "" then None
                      else Some (Path.resolve (cwd E) r)
                  | None => None
                  end in
                inr (mkStream req path options acceptRanges cacheControl etag
                       dotfiles extensions index lastModified maxage root
                       false false [])
            end
        end
    end.

(** [stream.on("error", _)], [stream.on("directory", _)] and
    [stream.on("headers", f)]. *)
Definition on_error_add (st : SendStream) : SendStream :=
  mkStream (req st) (path st) (options st) (_acceptRanges st)
    (_cacheControl st) (_etag st) (_dotfiles st) (_extensions st) (_index st)
    (_lastModified st) (_maxage st) (_root st)
    true (on_directory st) (on_headers st).

Definition on_directory_add (st : SendStream) : SendStream :=
  mkStream (req st) (path st) (options st) (_acceptRanges st)
    (_cacheControl st) (_etag st) (_dotfiles st) (_extensions st) (_index st)
    (_lastModified st) (_maxage st) (_root st)
    (on_error st) true (on_headers st).

Definition on_headers_add (f : headers_listener) (st : SendStream) : SendStream :=
  mkStream (req st) (path st) (options st) (_acceptRanges st)
    (_cacheControl st) (_etag st) (_dotfiles st) (_extensions st) (_index st)
    (_lastModified st) (_maxage st) (_root st)
    (on_error st) (on_directory st) (on_headers st ++ [f]).

(** *** The methods of [SendStream] *)

Section Methods.

Context (E : Externals).
(** The filesystem, as [fs.stat] sees it. *)
Context (fs : string -> stat_result).

Definition getStatusCodeMessage (status : Z) : thrown + string :=
  match STATUS_CODES E status with
  | Some m => if String.eqb m "" then inl (Error "invalid status code") else inr m
  | None => inl (Error "invalid status code")
  end.

(** [str.replace(/\s+/, "")]: the first run of white space goes. *)
Fixpoint remove_first_space (s : string) : string :=
  match s with
  | EmptyString => EmptyString
  | String c r =>
      if Js.is_white c then Js.skip_white r
      else String c (remove_first_space r)
  end.

Definition createHttpError (status : Z) (err : option IHttpError)
    : thrown + IHttpError :=
  match err with
  | Some e =>
      inr (mkError (message e) (name e) (e_headers e) (code e) (Some status))
  | None =>
      match getStatusCodeMessage status with
      | inl t => inl t
      | inr m =>
          inr (mkError (Some m) (Some (remove_first_space m +:+ "Error"))
                       None None (Some status))
      end
  end.

(** [error].  Without an [error] listener the response is written; on a
    response whose head is already sent Node's [removeHeader] and
    [setHeader] throw. *)
Definition error (st : SendStream) (res : ServerResponse) (status : Z)
    (err : option IHttpError) : outcome :=
  (* emit if listeners instead of responding *)
  if on_error st then
    match createHttpError status err with
    | inl t => Throws t
    | inr e => EmitError e
    end
  else
    match getStatusCodeMessage status with
    | inl t => Throws t
    | inr msg =>
        let doc := createHtmlDocument "Error" (escapeHtml E msg) in
        if headersSent res then Throws (Error "ERR_HTTP_HEADERS_SENT")
        else
          (* clear existing headers *)
          let res := clearHeaders res in
          (* add error headers *)
          let res :=
            match err with
            | Some e =>
                match e_headers e with
                | Some hs => setHeaders res hs
                | None => res
                end
            | None => res
            end in
          (* send basic response *)
          let res := set_statusCode res status in
          let res := res_setHeader res "Content-Type" "text/html; charset=UTF-8" in
          let res := res_setHeader res "Content-Length"
                       (Js.of_Z (Z.of_nat (String.length doc))) in
          let res := res_setHeader res "Content-Security-Policy" "default-src 'self'" in
          let res := res_setHeader res "X-Content-Type-Options" "nosniff" in
          Ended res doc
    end.

Definition hasTrailingSlash (st : SendStream) : bool :=
  Path.ends_with "/" (path st).

Definition isConditionalGET (st : SendStream) : bool :=
  Js.truthy (req_headers (req st) !! "if-match") ||
  Js.truthy (req_headers (req st) !! "if-unmodified-since") ||
  Js.truthy (req_headers (req st) !! "if-none-match") ||
  Js.truthy (req_headers (req st) !! "if-modified-since").

(** [parseHttpDate]; [None] is [NaN]. *)
Definition parseHttpDate (date : option string) : option Z :=
  if Js.truthy date then Date_parse E (Js.String_ date) else None.

(** The test [every] applies to a member of the [If-Match] list: [true] when
    the member does not match [etag]. *)
Definition if_match_differs (etag m : string) : bool :=
  negb (String.eqb m etag) && negb (String.eqb m ("W/" +:+ etag))
  && negb (String.eqb ("W/" +:+ m) etag).

Definition isPreconditionFailure (st : SendStream) (res : ServerResponse) : bool :=
  (* if-match *)
  let match_ := req_headers (req st) !! "if-match" in
  if Js.truthy match_ then
    let etag := res_getHeader res "ETag" in
    negb (Js.truthy etag) ||
    (negb (String.eqb (Js.String_ match_) "*") &&
     forallb (if_match_differs (Js.String_ etag))
             (parseTokenList (Js.String_ match_)))
  else
    (* if-unmodified-since *)
    match parseHttpDate (req_headers (req st) !! "if-unmodified-since") with
    | Some unmodifiedSince =>
        match parseHttpDate (res_getHeader res "Last-Modified") with
        | Some lastModified => lastModified >? unmodifiedSince
        | None => true
        end
    | None => false
    end.

Definition is_content_field (header : string) : bool :=
  String.eqb (Js.slice_to 8 header) "content-" &&
  negb (String.eqb header "content-location").

Definition removeContentHeaderFields (res : ServerResponse) : ServerResponse :=
  fold_left (fun r header =>
               if is_content_field header then res_removeHeader r header else r)
            (getHeaderNames res) res.

Definition notModified (res : ServerResponse) : outcome :=
  let res := removeContentHeaderFields res in
  let res := set_statusCode res 304 in
  Ended res "".

Definition headersAlreadySent (st : SendStream) (res : ServerResponse) : outcome :=
  error st res 500
    (Some (mkError (Some "Can't set headers after they are sent.")
                   (Some "Error") None None None)).

Definition isCachable (res : ServerResponse) : bool :=
  ((200 <=? statusCode res) && (statusCode res <? 300))
  || (statusCode res =? 304).

Definition onStatError (st : SendStream) (res : ServerResponse)
    (err : IHttpError) : outcome :=
  match code err with
  | Some c =>
      if String.eqb c "ENAMETOOLONG" || String.eqb c "ENOENT"
         || String.eqb c "ENOTDIR"
      then error st res 404 (Some err)
      else error st res 500 (Some err)
  | None => error st res 500 (Some err)
  end.

Definition isFresh (st : SendStream) (res : ServerResponse) : bool :=
  fresh E (req_headers (req st)) (res_getHeader res "ETag")
          (res_getHeader res "Last-Modified").

Definition isRangeFresh (st : SendStream) (res : ServerResponse) : bool :=
  let ifRange := req_headers (req st) !! "if-range" in
  if negb (Js.truthy ifRange) then true
  else if Js.includes (String dq "") (Js.String_ ifRange) then
    (* if-range as etag *)
    let etag := Js.String_ (res_getHeader res "ETag") in
    negb (String.eqb etag "") && Js.includes etag (Js.String_ ifRange)
  else
    (* if-range as modified date *)
    match parseHttpDate (res_getHeader res "Last-Modified"),
          parseHttpDate ifRange with
    | Some lastModified, Some d => lastModified <=? d
    | _, _ => false
    end.

Definition redirect (st : SendStream) (res : ServerResponse) (path : string)
    : outcome :=
  if on_directory st then EmitDirectory res path
  else if hasTrailingSlash st then error st res 403 None
  else
    let loc := encodeUrl E (collapseLeadingSlashes (Send.path st +:+ "/")) in
    let doc :=
      createHtmlDocument "Redirecting"
        ("Redirecting to <a href=" +:+ String dq (escapeHtml E loc) +:+
         String dq ">" +:+ escapeHtml E loc +:+ "</a>") in
    if headersSent res then Throws (Error "ERR_HTTP_HEADERS_SENT")
    else
      (* redirect *)
      let res := set_statusCode res 301 in
      let res := res_setHeader res "Content-Type" "text/html; charset=UTF-8" in
      let res := res_setHeader res "Content-Length"
                   (Js.of_Z (Z.of_nat (String.length doc))) in
      let res := res_setHeader res "Content-Security-Policy" "default-src 'self'" in
      let res := res_setHeader res "X-Content-Type-Options" "nosniff" in
      let res := res_setHeader res "Location" loc in
      Ended res doc.

(** [setHeader]: the [headers] listeners run first, then each field is set
    unless it is there already. *)
Definition setHeader (st : SendStream) (res : ServerResponse) (path : string)
    (stat : Stats) : ServerResponse :=
  let res := fold_left (fun r f => f r path stat) (on_headers st) res in
  let res :=
    if _acceptRanges st && negb (Js.truthy (res_getHeader res "Accept-Ranges"))
    then res_setHeader res "Accept-Ranges" "bytes" else res in
  let res :=
    if _cacheControl st && negb (Js.truthy (res_getHeader res "Cache-Control"))
    then res_setHeader res "Cache-Control"
           ("public, max-age=" +:+ Js.of_Z (_maxage st / 1000))
    else res in
  let res :=
    if _lastModified st && negb (Js.truthy (res_getHeader res "Last-Modified"))
    then res_setHeader res "Last-Modified" (toUTCString E (mtime stat))
    else res in
  let res :=
    if _etag st && negb (Js.truthy (res_getHeader res "ETag"))
    then res_setHeader res "ETag" (etag E stat) else res in
  res.

Definition type (res : ServerResponse) (path : string) : ServerResponse :=
  if Js.truthy (res_getHeader res "Content-Type") then res
  else
    let type := mime_getType E path in
    if negb (Js.truthy type) then res
    else res_setHeader res "Content-Type" (Js.String_ type).

(** The end of [send], from [set read options] on: [stream] is called with
    [opts.start] and [opts.end], the other properties of [opts] being the
    caller's options copied. *)
Definition send_body (st : SendStream) (res : ServerResponse) (path : string)
    (offset len : Z) : outcome :=
  (* set read options *)
  let opts_start := offset in
  let opts_end := Z.max offset (offset + len - 1) in
  (* content-length *)
  let res := res_setHeader res "Content-Length" (Js.of_Z len) in
  (* HEAD support *)
  if String.eqb (method (req st)) "HEAD" then Ended res ""
  else Piped res path opts_start opts_end.

Definition send (st : SendStream) (res : ServerResponse) (path : string)
    (stat : Stats) : outcome :=
  let len := size stat in
  let ranges := req_headers (req st) !! "range" in
  let offset := default 0 (opt_start (options st)) in
  if headersSent res then
    (* impossible to send now *)
    headersAlreadySent st res
  else
    (* set header fields *)
    let res := setHeader st res path stat in
    (* set content-type *)
    let res := type res path in
    (* conditional GET support *)
    match (if isConditionalGET st then
             if isPreconditionFailure st res then Some (error st res 412 None)
             else if isCachable res && isFresh st res then Some (notModified res)
             else None
           else None) with
    | Some o => o
    | None =>
        (* adjust len to start/end options *)
        let len := Z.max 0 (len - offset) in
        let len :=
          match opt_end (options st) with
          | Some e =>
              let bytes := e - offset + 1 in
              if len >? bytes then bytes else len
          | None => len
          end in
        (* Range support *)
        if _acceptRanges st && BYTES_RANGE_REGEXP_test ranges then
          (* parse *)
          let ranges := RangeParser.rangeParser len (Js.String_ ranges) true in
          (* If-Range support *)
          let ranges :=
            if negb (isRangeFresh st res) then RangeParser.Malformed
            else ranges in
          match ranges with
          | RangeParser.Unsatisfiable =>
              (* Content-Range *)
              let res := res_setHeader res "Content-Range"
                           (contentRange "bytes" len None) in
              (* 416 Requested Range Not Satisfiable *)
              match res_getHeader res "Content-Range" with
              | Some v =>
                  error st res 416
                    (Some (mkError None None (Some [("Content-Range", v)])
                                   None None))
              | None => Throws (TypeError "ERR_HTTP_INVALID_HEADER_VALUE")
              end
          | RangeParser.Ranges _ [range] =>
              (* Content-Range *)
              let res := set_statusCode res 206 in
              let res := res_setHeader res "Content-Range"
                           (contentRange "bytes" len (Some range)) in
              (* adjust for requested range *)
              send_body st res path (offset + RangeParser.start range)
                (RangeParser.end_ range - RangeParser.start range + 1)
          | _ => send_body st res path offset len
          end
        else send_body st res path offset len
    end.

(** The error object of a failed [fs.stat]. *)
Definition stat_error (c : string) : IHttpError :=
  mkError None (Some "Error") None (Some c) None.

(** [next] of [sendFile], with the extensions still to try. *)
Fixpoint sendFile_next (st : SendStream) (res : ServerResponse)
    (path : string) (exts : list string) (err : option IHttpError)
    : list event * outcome :=
  match exts with
  | [] =>
      ([], match err with
           | Some e => onStatError st res e
           | None => error st res 404 None
           end)
  | ext :: exts' =>
      let p := path +:+ "." +:+ ext in
      let '(evs, o) :=
        match fs p with
        | StatError c => sendFile_next st res path exts' (Some (stat_error c))
        | StatOk stat =>
            if isDirectory stat then sendFile_next st res path exts' None
            else ([EvFile p], send st res p stat)
        end in
      (EvStat p :: evs, o)
  end.

Definition sendFile (st : SendStream) (res : ServerResponse) (path : string)
    : list event * outcome :=
  let '(evs, o) :=
    match fs path with
    | StatError c =>
        if String.eqb c "ENOENT" && negb (Path.has_extname path)
           && negb (Path.ends_with Path.sep path)
        then
          (* not found, check extensions *)
          sendFile_next st res path (_extensions st) (Some (stat_error c))
        else ([], onStatError st res (stat_error c))
    | StatOk stat =>
        if isDirectory stat then ([], redirect st res path)
        else ([EvFile path], send st res path stat)
    end in
  (EvStat path :: evs, o).

(** [next] of [sendIndex], with the index names still to try. *)
Fixpoint sendIndex_next (st : SendStream) (res : ServerResponse)
    (path : string) (names : list string) (err : option IHttpError)
    : list event * outcome :=
  match names with
  | [] =>
      ([], match err with
           | Some e => onStatError st res e
           | None => error st res 404 None
           end)
  | n :: names' =>
      let p := Path.join path n in
      let '(evs, o) :=
        match fs p with
        | StatError c => sendIndex_next st res path names' (Some (stat_error c))
        | StatOk stat =>
            if isDirectory stat then sendIndex_next st res path names' None
            else ([EvFile p], send st res p stat)
        end in
      (EvStat p :: evs, o)
  end.

Definition sendIndex (st : SendStream) (res : ServerResponse) (path : string)
    : list event * outcome :=
  sendIndex_next st res path (_index st) None.

Definition pipe (st : SendStream) (res : ServerResponse)
    : list event * outcome :=
  (* root path *)
  let root := _root st in
  (* decode the path *)
  match decode (path st) with
  | None => ([], error st res 400 None)
  | Some path =>
      (* null byte(s) *)
      if bool_decide (is_Some (Js.indexOf_char "000" path))
      then ([], error st res 400 None)
      else
        match
          match root with
          | Some root =>
              (* normalize *)
              let path :=
                if negb (String.eqb path "")
                then Path.normalize ("." +:+ String Path.sep path) else path in
              (* malicious path *)
              if UP_PATH_REGEXP_test path then None
              else
                (* explode path parts *)
                let parts := Js.split Path.sep path in
                (* join / normalize from optional root dir *)
                Some (parts, Path.normalize (Path.join root path))
          | None =>
              (* ".." is malicious without "root" *)
              if UP_PATH_REGEXP_test path then None
              else
                (* explode path parts *)
                let parts := Js.split Path.sep (Path.normalize path) in
                (* resolve the path *)
                Some (parts, Path.resolve (cwd E) path)
          end
        with
        | None => ([], error st res 403 None)
        | Some (parts, path) =>
            (* dotfile handling *)
            match
              if containsDotFile parts then
                match _dotfiles st with
                | Some access =>
                    if String.eqb access "allow" then None
                    else if String.eqb access "deny" then Some 403
                    else Some 404
                | None => Some 404
                end
              else None
            with
            | Some status => ([], error st res status None)
            | None =>
                (* index file support *)
                if negb (bool_decide (_index st = [])) && hasTrailingSlash st
                then sendIndex st res path
                else sendFile st res path
            end
        end
  end.

End Methods.

End Send.

(** ** modules/parseurl

    [url.parse] of Node is not among the sources: it is a parameter of the
    section.  A url is taken by its UTF-8 bytes, as a path is.  Of the
    characters [fastparse] looks for, the question mark and six others are
    ASCII: each is one code unit in the source and one byte here, and such a
    byte never lies inside the bytes of another character.  The two others,
    U+00A0 and U+FEFF, are one code unit each in the source and the bytes
    C2 A0 and EF BB BF here.  So the loop finds the same characters at the
    same places whether it walks the code units or the bytes, and the
    substrings it takes at a question mark are the same. *)

Module ParseUrl.

(** The [Url] object of Node's [url] module, with the [_raw] property this
    module adds.  [path], [href], [pathname], [query] and [search] are the
    properties [fastparse] writes; [others] stands for what else
    [url.parse] fills in ([protocol], [host], [hash] and so on), which this
    code leaves as it is.  [None] is [null], or a property that is not
    there. *)
Record IParsedUrl := mkUrl {
  path : option string;
  href : option string;
  pathname : option string;
  query : option string;
  search : option string;
  others : list (string * string);
  _raw : option string
}.

(** [IServerRequest]: the message that [send] reads, the two urls and the
    two places where their parsed forms are kept. *)
Record IServerRequest := mkServerRequest {
  message : Send.IncomingMessage;
  url : option string;
  originalUrl : option string;
  _parsedUrl : option IParsedUrl;
  _parsedOriginalUrl : option IParsedUrl
}.

(** [parsed._raw = url]. *)
Definition set_raw (parsed : IParsedUrl) (url : string) : IParsedUrl :=
  mkUrl (path parsed) (href parsed) (pathname parsed) (query parsed)
        (search parsed) (others parsed) (Some url).

(** [req._parsedUrl = parsed] and [req._parsedOriginalUrl = parsed]. *)
Definition set_parsedUrl (req : IServerRequest) (parsed : IParsedUrl)
    : IServerRequest :=
  mkServerRequest (message req) (url req) (originalUrl req) (Some parsed)
                  (_parsedOriginalUrl req).

Definition set_parsedOriginalUrl (req : IServerRequest) (parsed : IParsedUrl)
    : IServerRequest :=
  mkServerRequest (message req) (url req) (originalUrl req) (_parsedUrl req)
                  (Some parsed).

(** The cases of the [switch] that leave for [parse(str)], on the
    character that starts with the byte [c] and goes on in [rest]: tab,
    line feed, form feed, carriage return, space, [#], [0xa0] and
    [0xfeff]. *)
Definition gives_up (c : ascii) (rest : string) : bool :=
  Ascii.eqb c "009" || Ascii.eqb c "010" || Ascii.eqb c "012"
  || Ascii.eqb c "013" || Ascii.eqb c " " || Ascii.eqb c "#"
  || (Ascii.eqb c "194" && String.prefix (String "160" "") rest)
  || (Ascii.eqb c "239"
      && String.prefix (String "187" (String "191" "")) rest).

(** The loop of [fastparse] from position [i], where [rest] is what is left
    of [str]; [None] when the loop leaves the function for [parse(str)]. *)
Fixpoint fastparse_loop (str : string) (i : nat) (rest : string)
    (pathname : string) (query search : option string)
    : option (string * option string * option string) :=
  match rest with
  | EmptyString => Some (pathname, query, search)
  | String c rest' =>
      if Ascii.eqb c "?" then
        match search with
        | None =>
            fastparse_loop str (S i) rest' (Js.slice_to i str)
              (Some (Js.slice_from (S i) str)) (Some (Js.slice_from i str))
        | Some _ => fastparse_loop str (S i) rest' pathname query search
        end
      else if gives_up c rest' then None
      else fastparse_loop str (S i) rest' pathname query search
  end.

Section Parse.

(** [url.parse]. *)
Context (parse : string -> IParsedUrl).

Definition fastparse (str : string) : IParsedUrl :=
  match str with
  | String "/" rest =>
      match fastparse_loop str 1 rest str None None with
      | None => parse str
      | Some (pathname, query, search) =>
          mkUrl (Some str) (Some str) (Some pathname) query search [] None
      end
  | _ => parse str
  end.

(** [fresh]: the parsed form kept is that of [url]. *)
Definition fresh (url : string) (parsedUrl : option IParsedUrl) : bool :=
  match parsedUrl with
  | Some parsed => bool_decide (_raw parsed = Some url)
  | None => false
  end.

(** [parseUrl]: the result, [None] for [undefined], and the request with
    what the call has stored on it. *)
Definition parseUrl (req : IServerRequest)
    : option IParsedUrl * IServerRequest :=
  match url req with
  | None =>
      (* URL is undefined *)
      (None, req)
  | Some url =>
      let parsed := _parsedUrl req in
      if fresh url parsed then
        (* Return cached URL parse *)
        (parsed, req)
      else
        (* Parse the URL *)
        let parsed := set_raw (fastparse url) url in
        (Some parsed, set_parsedUrl req parsed)
  end.

Definition getOriginalUrl (req : IServerRequest)
    : option IParsedUrl * IServerRequest :=
  match originalUrl req with
  | None =>
      (* Fallback *)
      parseUrl req
  | Some url =>
      let parsed := _parsedOriginalUrl req in
      if fresh url parsed then
        (* Return cached URL parse *)
        (parsed, req)
      else
        (* Parse the URL *)
        let parsed := set_raw (fastparse url) url in
        (Some parsed, set_parsedOriginalUrl req parsed)
  end.

End Parse.

End ParseUrl.

(** ** lib/serve-static

    The middleware is followed from the call of the handler to the call of
    [next], to the end of the response or to the piping of the file; of
    what the call leaves on the request, the parsed urls, nothing is
    returned. *)

Module ServeStatic.

Import Send.

(** [IServeStaticOptions]: [for_send] holds the properties of the options
    object that [send] reads once the object is copied; [immutable] is read
    nowhere.  [setHeaders], when given, is a function. *)
Record IServeStaticOptions := mkServeOptions {
  for_send : ISendOptions;
  fallthrough : option bool;
  redirect : option bool;
  setHeaders : option headers_listener
}.

(** What the closure returned by [serveStatic] holds. *)
Record middleware := mkMiddleware {
  opts : ISendOptions;
  m_fallthrough : bool;
  m_redirect : bool;
  m_setHeaders : option headers_listener
}.

(** How a call of the middleware ends. *)
Inductive handled :=
| Next (err : option IHttpError)
    (* [next()] or [next(err)] *)
| Responded (res : ServerResponse) (body : string)
    (* the head is written and [res.end(body)] is called *)
| Streamed (res : ServerResponse) (file : string) (opts_start opts_end : Z)
    (* the head is written and the file is piped *)
| Thrown (what : thrown).

(** [url.format] of Node and [url.parse], which are not among the
    sources. *)
Record Platform := mkPlatform {
  parse : string -> ParseUrl.IParsedUrl;
  format : ParseUrl.IParsedUrl -> string
}.

(** [opts.maxAge || 0]: [undefined] and the empty string give 0, and 0 is
    0 already. *)
Definition maxAge_or_0 (v : option maxage_option) : maxage_option :=
  match v with
  | Some (MNum n) => MNum n
  | Some (MStr s) => if String.eqb s "" then MNum 0 else MStr s
  | None => MNum 0
  end.

Definition serveStatic (E : Externals) (root : string)
    (options : IServeStaticOptions) : thrown + middleware :=
  if String.eqb root "" then inl (TypeError "root path required")
  else
    (* copy options object *)
    let opts := for_send options in
    (* fall-though *)
    let fallthrough := negb (bool_decide (fallthrough options = Some false)) in
    (* default redirect *)
    let redirect := negb (bool_decide (redirect options = Some false)) in
    (* headers listener *)
    let setHeaders := setHeaders options in
    (* setup options for send *)
    let opts :=
      mkOptions (opt_acceptRanges opts) (opt_cacheControl opts)
        (opt_dotfiles opts) (opt_end opts) (opt_etag opts)
        (opt_extensions opts) (opt_index opts) (opt_lastModified opts)
        (Some (maxAge_or_0 (opt_maxAge opts)))
        (Some (Path.resolve (cwd E) root)) (opt_start opts) in
    inr (mkMiddleware opts fallthrough redirect setHeaders).

(** [collapseLeadingSlashes] of this file. *)
Definition collapseLeadingSlashes (str : string) : string :=
  let i := count_leading "/" str in
  if (1 <? i)%nat then String "/" (Js.slice_from i str) else str.

(** [createHtmlDocument] of this file. *)
Definition createHtmlDocument (title body : string) : string :=
  "<!DOCTYPE html>" +:+ nl +:+
  "<html lang=" +:+ String dq "en" +:+ String dq ">" +:+ nl +:+
  "<head>" +:+ nl +:+
  "<meta charset=" +:+ String dq "utf-8" +:+ String dq ">" +:+ nl +:+
  "<title>" +:+ title +:+ "</title>" +:+ nl +:+
  "</head>" +:+ nl +:+
  "<body>" +:+ nl +:+
  "<pre>" +:+ body +:+ "</pre>" +:+ nl +:+
  "</body>" +:+ nl +:+
  "</html>" +:+ nl.

(** [String(v)] for a string or [null]. *)
Definition or_null (v : option string) : string :=
  match v with
  | Some s => s
  | None => "null"
  end.

(** Reading a property of [null] or [undefined]. *)
Definition no_property : thrown := TypeError "Cannot read property of null".

Section Handler.

Context (E : Externals) (P : Platform) (fs : string -> stat_result).

(** The [error] listener of the middleware. *)
Definition on_error_listener (forwardError : bool) (err : IHttpError)
    : handled :=
  if forwardError
     || negb (match status err with
              | Some s => s <? 500
              | None => false
              end)
  then Next (Some err)
  else Next None.

(** [stream.error(404)] from a [directory] listener, [forwardError] being
    what the variable holds by then.  [error] emits no [directory] event
    and pipes no file. *)
Definition error_404 (forwardError : bool) (st : SendStream)
    (res : ServerResponse) : handled :=
  match error E st res 404 None with
  | EmitError err => on_error_listener forwardError err
  | Ended res body => Responded res body
  | Piped res file s e => Streamed res file s e
  | EmitDirectory res _ => Responded res ""
  | Throws t => Thrown t
  end.

(** [createNotFoundDirectoryListener]. *)
Definition notFound (forwardError : bool) (st : SendStream)
    (res : ServerResponse) : handled :=
  error_404 forwardError st res.

(** [createRedirectDirectoryListener]; [null_path] tells that the path of
    the stream is [null], on which [hasTrailingSlash] throws. *)
Definition redirect_listener (forwardError : bool) (st : SendStream)
    (null_path : bool) (req : ParseUrl.IServerRequest) (res : ServerResponse)
    : handled :=
  if null_path then Thrown no_property
  else if hasTrailingSlash st then error_404 forwardError st res
  else
    (* get original URL *)
    match (ParseUrl.getOriginalUrl (parse P) req).1 with
    | None => Thrown no_property
    | Some originalUrl =>
        (* append trailing slash *)
        let originalUrl :=
          ParseUrl.mkUrl None (ParseUrl.href originalUrl)
            (Some (collapseLeadingSlashes
                     (or_null (ParseUrl.pathname originalUrl) +:+ "/")))
            (ParseUrl.query originalUrl) (ParseUrl.search originalUrl)
            (ParseUrl.others originalUrl) (ParseUrl._raw originalUrl) in
        (* reformat the URL *)
        let loc := encodeUrl E (format P originalUrl) in
        let doc :=
          createHtmlDocument "Redirecting"
            ("Redirecting to <a href=" +:+ String dq (escapeHtml E loc) +:+
             String dq ">" +:+ escapeHtml E loc +:+ "</a>") in
        (* send redirect response *)
        if headersSent res then Thrown (Error "ERR_HTTP_HEADERS_SENT")
        else
          let res := set_statusCode res 301 in
          let res := res_setHeader res "Content-Type" "text/html; charset=UTF-8" in
          let res := res_setHeader res "Content-Length"
                       (Js.of_Z (Z.of_nat (String.length doc))) in
          let res := res_setHeader res "Content-Security-Policy" "default-src 'self'" in
          let res := res_setHeader res "X-Content-Type-Options" "nosniff" in
          let res := res_setHeader res "Location" loc in
          Responded res doc
    end.

(** A [file] event was emitted. *)
Definition file_seen (evs : list event) : bool :=
  existsb (fun ev => match ev with EvFile _ => true | EvStat _ => false end)
          evs.

(** The function [serveStatic] returns, called with [req] and [res].  A
    pathname that is [null] makes the path of the stream [null]: [pipe]
    reads it as the string [null], and [hasTrailingSlash] throws on it, in
    [pipe] once the checks on the path are passed, as they are for [null],
    and the list of index names is not empty. *)
Definition handle (m : middleware) (req : ParseUrl.IServerRequest)
    (res : ServerResponse) : list event * handled :=
  if negb (String.eqb (method (ParseUrl.message req)) "GET")
     && negb (String.eqb (method (ParseUrl.message req)) "HEAD")
  then
    if m_fallthrough m then ([], Next None)
    else
      (* method not allowed *)
      if headersSent res then ([], Thrown (Error "ERR_HTTP_HEADERS_SENT"))
      else
        let res := set_statusCode res 405 in
        let res := res_setHeader res "Allow" "GET, HEAD" in
        let res := res_setHeader res "Content-Length" "0" in
        ([], Responded res "")
  else
    let forwardError := negb (m_fallthrough m) in
    match ParseUrl.parseUrl (parse P) req with
    | (None, _) => ([], Thrown no_property)
    | (Some parsed, req) =>
        let path := ParseUrl.pathname parsed in
        let '(originalUrl, req) := ParseUrl.getOriginalUrl (parse P) req in
        (* make sure redirect occurs at mount *)
        match
          if bool_decide (path = Some "/") then
            match originalUrl with
            | Some originalUrl =>
                match ParseUrl.pathname originalUrl with
                | Some pathname =>
                    inr (if negb (Path.ends_with "/" pathname) then Some ""
                         else path)
                | None => inl no_property
                end
            | None => inl no_property
            end
          else inr path
        with
        | inl t => ([], Thrown t)
        | inr path =>
            (* create send stream *)
            match constructor E (ParseUrl.message req) (or_null path)
                              (opts m) with
            | inl t => ([], Thrown t)
            | inr stream =>
                let null_path := bool_decide (path = None) in
                (* add directory handler *)
                let stream := on_directory_add stream in
                (* add headers listener *)
                let stream :=
                  match m_setHeaders m with
                  | Some f => on_headers_add f stream
                  | None => stream
                  end in
                (* forward errors *)
                let stream := on_error_add stream in
                (* pipe *)
                if null_path && negb (bool_decide (_index stream = []))
                then ([], Thrown no_property)
                else
                  let '(evs, o) := pipe E fs stream res in
                  (* once file is determined, always forward error *)
                  let forwardError :=
                    forwardError || (m_fallthrough m && file_seen evs) in
                  (evs,
                   match o with
                   | EmitError err => on_error_listener forwardError err
                   | EmitDirectory res _ =>
                       if m_redirect m
                       then redirect_listener forwardError stream null_path
                                              req res
                       else notFound forwardError stream res
                   | Ended res body => Responded res body
                   | Piped res file s e => Streamed res file s e
                   | Throws t => Thrown t
                   end)
            end
        end
    end.

End Handler.

End ServeStatic.

(** ** A concrete platform

    An instance of [Send.Externals] and a small file tree, on which the
    theorems below are tried.  [escapeHtml] follows the escape-html module;
    the other functions are exact on the values used here and simplified
    elsewhere. *)

Module Node.

Import Send.

Definition STATUS_CODES (s : Z) : option string :=
  if s =? 400 then Some "Bad Request"
  else if s =? 403 then Some "Forbidden"
  else if s =? 404 then Some "Not Found"
  else if s =? 412 then Some "Precondition Failed"
  else if s =? 416 then Some "Range Not Satisfiable"
  else if s =? 500 then Some "Internal Server Error"
  else None.

Fixpoint escapeHtml (s : string) : string :=
  match s with
  | EmptyString => EmptyString
  | String c r =>
      (if Ascii.eqb c dq then "&quot;"
       else if Ascii.eqb c "&" then "&amp;"
       else if Ascii.eqb c "'" then "&#39;"
       else if Ascii.eqb c "<" then "&lt;"
       else if Ascii.eqb c ">" then "&gt;"
       else String c EmptyString) +:+ escapeHtml r
  end.

(** A weak validator made of the size and the modification time. *)
Definition etag (stat : Stats) : string :=
  "W/" +:+ String dq (Js.of_Z (size stat) +:+ "-" +:+ Js.of_Z (mtime stat))
  +:+ String dq "".

(** Fresh when [If-None-Match] is [*] or names the validator. *)
Definition fresh (h : gmap string string) (etag lastModified : option string)
    : bool :=
  match h !! "if-none-match", etag with
  | Some m, Some t => String.eqb m "*" || String.eqb m t
  | _, _ => false
  end.

Definition mime_getType (p : string) : option string :=
  if Js.includes ".txt" p then Some "text/plain"
  else if Js.includes ".html" p then Some "text/html"
  else None.

(** Durations and dates written as plain numbers of milliseconds. *)
Definition number (s : string) : option Z := Js.parseInt s.

Definition externals : Externals :=
  mkExternals "/home/app" STATUS_CODES escapeHtml (fun s => s) etag fresh
    mime_getType number number Js.of_Z.

(** [/srv/a.txt] of 6 bytes, [/srv/b] of 3 bytes, the directory [/srv/sub]
    with [/srv/sub/index.html], [/srv/.hidden/file.txt], and the empty file
    [/srv/empty]. *)
Definition fs (p : string) : stat_result :=
  if String.eqb p "/srv/a.txt" then StatOk (mkStats 6 1000 false)
  else if String.eqb p "/srv/b" then StatOk (mkStats 3 2000 false)
  else if String.eqb p "/srv/sub" then StatOk (mkStats 4096 3000 true)
  else if String.eqb p "/srv/sub/index.html" then StatOk (mkStats 5 3000 false)
  else if String.eqb p "/srv/.hidden/file.txt" then StatOk (mkStats 7 4000 false)
  else if String.eqb p "/srv/empty" then StatOk (mkStats 0 5000 false)
  else StatError "ENOENT".

(** The response object as the HTTP server hands it over. *)
Definition res0 : ServerResponse := mkResponse 200 ∅ false.

Definition GET (hs : list (string * string)) : IncomingMessage :=
  mkRequest "GET" (list_to_map hs).

Definition under_srv : ISendOptions :=
  mkOptions None None None None None None None None None (Some "/srv") None.

(** [s] between double quotes. *)
Definition quoted (s : string) : string := String dq (s +:+ String dq "").

(** [new SendStream(req, path, options)] where the constructor returns; the
    stream of an empty request otherwise. *)
Definition new (req : IncomingMessage) (path : string) (options : ISendOptions)
    : SendStream :=
  match constructor externals req path options with
  | inr st => st
  | inl _ =>
      mkStream req path options true true true None [] [] true 0 None
               false false []
  end.

(** [send(req, path, options).pipe(res)]. *)
Definition run (req : IncomingMessage) (path : string) (options : ISendOptions)
    : thrown + list event * outcome :=
  match constructor externals req path options with
  | inl t => inl t
  | inr st => inr (pipe externals fs st res0)
  end.

(** Options under [/srv] with the [dotfiles] policy [d]. *)
Definition under_srv_dotfiles (d : string) : ISendOptions :=
  mkOptions None None (Some d) None None None None None None (Some "/srv") None.

(** Options under [/srv] with extensions to fall back on. *)
Definition under_srv_extensions (exts : list string) : ISendOptions :=
  mkOptions None None None None None (Some (LArr exts)) None None None
            (Some "/srv") None.

(** Options under [/srv] with a [maxAge] of [m] milliseconds. *)
Definition under_srv_maxAge (m : Z) : ISendOptions :=
  mkOptions None None None None None None None None (Some (MNum m))
            (Some "/srv") None.

(** A [headers] listener that forbids caching. *)
Definition no_store : headers_listener :=
  fun res _ _ => res_setHeader res "Cache-Control" "no-store".

(** A file beside [/srv] that bears its name with an extension, and nothing
    else: [/srv] itself does not exist. *)
Definition fs_beside (p : string) : stat_result :=
  if String.eqb p "/srv.html" then StatOk (mkStats 4 6000 false)
  else StatError "ENOENT".

(** [url.parse] and [url.format] on urls without host, query or hash: the
    url is its pathname. *)
Definition parse (s : string) : ParseUrl.IParsedUrl :=
  ParseUrl.mkUrl (Some s) (Some s) (Some s) None None [] None.

Definition format (u : ParseUrl.IParsedUrl) : string :=
  ServeStatic.or_null (ParseUrl.pathname u) +:+ default "" (ParseUrl.search u).

Definition platform : ServeStatic.Platform :=
  ServeStatic.mkPlatform parse format.

(** A request as the HTTP server hands it over, without headers. *)
Definition request (m url : string) : ParseUrl.IServerRequest :=
  ParseUrl.mkServerRequest (mkRequest m ∅) (Some url) None None None.

(** [serveStatic("/srv")]. *)
Definition middleware : ServeStatic.middleware :=
  match ServeStatic.serveStatic externals "/srv"
          (ServeStatic.mkServeOptions no_options None None None) with
  | inr m => m
  | inl _ => ServeStatic.mkMiddleware no_options true true None
  end.

(** The file tree with [/srv] itself, a directory. *)
Definition fs_mount (p : string) : stat_result :=
  if String.eqb p "/srv" then StatOk (mkStats 4096 7000 true) else fs p.

(** A request for [/] that came in as [original] at the mount point. *)
Definition mounted (original : string) : ParseUrl.IServerRequest :=
  ParseUrl.mkServerRequest (mkRequest "GET" ∅) (Some "/") (Some original)
                           None None.

(** The file tree with two more entries under [/srv/sub]: [a.html], which
    may not be read, and the directory [b.html]. *)
Definition fs_index (p : string) : stat_result :=
  if String.eqb p "/srv/sub/a.html" then StatError "EACCES"
  else if String.eqb p "/srv/sub/b.html" then StatOk (mkStats 4096 8000 true)
  else fs p.

(** Options under [/srv] with the index names [names]. *)
Definition under_srv_index (names : list string) : ISendOptions :=
  mkOptions None None None None None None (Some (LArr names)) None None
            (Some "/srv") None.

(** A request on which the parsed form of the url [kept] is kept. *)
Definition request_with_memo (url kept : string) : ParseUrl.IServerRequest :=
  ParseUrl.mkServerRequest (mkRequest "GET" ∅) (Some url) None
    (Some (ParseUrl.set_raw (ParseUrl.fastparse parse kept) kept)) None.

End Node.

(** * Vocabulary of the properties *)

Section Vocabulary.

Import RangeParser Send.

Context (E : Externals).

(** A range lies within a representation of [size] bytes. *)
Definition within (size : Z) (r : IRangeItem) : Prop :=
  0 <= start r <= end_ r /\ end_ r < size.

(** [b] starts after [a] with at least one byte between them. *)
Definition apart (a b : IRangeItem) : Prop := end_ a + 1 < start b.

Definition iwithin (size : Z) (r : IndexedItem) : Prop :=
  within size (mapWithoutIndex r).

Definition iapart (a b : IndexedItem) : Prop :=
  apart (mapWithoutIndex a) (mapWithoutIndex b).

(** The range [r] lies inside [out]. *)
Definition covers (out r : IRangeItem) : bool :=
  (start out <=? start r) && (end_ r <=? end_ out).

(** The first place in the header, counted from 0, of a range that went
    into [out]. *)
Definition client_position (parsed : list IRangeItem) (out : IRangeItem)
    : option nat :=
  fst <$> list_find (fun r => Is_true (covers out r)) parsed.

(** The name [h] is stored as it is. *)
Definition lower (h : string) : Prop := toLowerCase h = h.

(** Node keeps every header under its lower-case name. *)
Definition names_lower (res : ServerResponse) : Prop :=
  forall k, is_Some (headers res !! k) -> lower k.

(** The headers an error object carries. *)
Definition error_headers (err : option IHttpError) : list (string * string) :=
  match err with
  | Some e => default [] (e_headers e)
  | None => []
  end.

(** The response [error] writes when nobody listens for [error]. *)
Definition error_response (res : ServerResponse) (status : Z)
    (err : option IHttpError) (doc : string) : ServerResponse :=
  res_setHeader
    (res_setHeader
       (res_setHeader
          (res_setHeader
             (set_statusCode (setHeaders (clearHeaders res) (error_headers err))
                status)
             "Content-Type" "text/html; charset=UTF-8")
          "Content-Length" (Js.of_Z (Z.of_nat (String.length doc))))
       "Content-Security-Policy" "default-src 'self'")
    "X-Content-Type-Options" "nosniff".

(** The response once [setHeader] and [type] have composed its head. *)
Definition prepared (st : SendStream) (res : ServerResponse) (file : string)
    (stat : Stats) : ServerResponse :=
  type E (setHeader E st res file stat) file.

(** The length of the window that the [start] and [end] options leave of
    the file. *)
Definition effective_len (options : ISendOptions) (stat : Stats) : Z :=
  let offset := default 0 (opt_start options) in
  let len := Z.max 0 (size stat - offset) in
  match opt_end options with
  | Some e => let bytes := e - offset + 1 in if len >? bytes then bytes else len
  | None => len
  end.

(** The conditional GET is answered with 412 or 304. *)
Definition answers_conditional (st : SendStream) (res : ServerResponse) : bool :=
  isConditionalGET st &&
  (isPreconditionFailure E st res || (isCachable res && isFresh E st res)).



(** A member [tok] of the If-Match list matches the validator [etag]. *)
Definition if_match_matches (etag tok : string) : Prop :=
  tok = etag \/ tok = "W/" +:+ etag \/ "W/" +:+ tok = etag.

(** The [dotfiles] option is left out, or is one of the three values. *)
Definition valid_dotfiles (d : option string) : bool :=
  match d with
  | None => true
  | Some s => String.eqb s "allow" || String.eqb s "deny" || String.eqb s "ignore"
  end.

(** [p] has a component equal to [..]. *)
Definition dotdot_component (p : string) : Prop :=
  ".." ∈ Js.split Path.sep p.

(** The decoded path as [pipe] takes it under a root: [./p], normalized. *)
Definition relative_to_root (p : string) : string :=
  if negb (String.eqb p "") then Path.normalize ("." +:+ String Path.sep p)
  else p.

(** [st] with its [_dotfiles] replaced by [d]. *)
Definition with_dotfiles (d : option string) (st : SendStream) : SendStream :=
  mkStream (req st) (path st) (options st) (_acceptRanges st)
    (_cacheControl st) (_etag st) d (_extensions st) (_index st)
    (_lastModified st) (_maxage st) (_root st)
    (on_error st) (on_directory st) (on_headers st).

(** [o] is a response that the responder wrote, with head [r]. *)
Definition writes (o : outcome) (r : ServerResponse) : Prop :=
  match o with
  | Ended r' _ | Piped r' _ _ _ => r' = r
  | _ => False
  end.

(** Content-Range is there exactly on a 206 and on a 416. *)
Definition content_range_rule (r : ServerResponse) : Prop :=
  is_Some (res_getHeader r "Content-Range") <->
  statusCode r = 206 \/ statusCode r = 416.

Definition obeys (o : outcome) : Prop :=
  forall r, writes o r -> content_range_rule r.

(** The byte at position [x] is asked for by one of the ranges. *)
Definition covered (ranges : list IRangeItem) (x : Z) : Prop :=
  exists r, r ∈ ranges /\ start r <= x <= end_ r.

Definition icovered (ranges : list IndexedItem) (x : Z) : Prop :=
  exists r, r ∈ ranges /\ istart r <= x <= iend r.
(** [n] spaces. *)
Fixpoint spaces (n : nat) : string :=
  match n with
  | O => EmptyString
  | S n' => String " " (spaces n')
  end.

(** The token list read off the characters: [cur] is the token so far up
    to its last character that is not a space, [sp] counts the spaces seen
    since. *)
Fixpoint tokens_from (cur : string) (sp : nat) (rest : string) : list string :=
  match rest with
  | EmptyString => [cur]
  | String c rest' =>
      if Ascii.eqb c " " then
        if String.eqb cur "" then tokens_from "" 0 rest'
        else tokens_from cur (S sp) rest'
      else if Ascii.eqb c "," then cur :: tokens_from "" 0 rest'
      else tokens_from (cur +:+ spaces sp +:+ String c "") 0 rest'
  end.

(** The number of commas of a string. *)
Fixpoint commas (s : string) : nat :=
  match s with
  | EmptyString => O
  | String c r => (if Ascii.eqb c "," then 1 else 0) + commas r
  end.

(** A token as [parseTokenList] cuts them: no comma inside, no space at
    either end. *)
Definition trimmed_token (t : string) : Prop :=
  Js.indexOf_char "," t = None /\
  (forall r, t <> String " " r) /\
  Path.ends_with " " t = false.
(** [st] for the same request made with another method. *)
Definition with_method (m : string) (st : SendStream) : SendStream :=
  mkStream (mkRequest m (req_headers (req st))) (path st) (options st)
    (_acceptRanges st) (_cacheControl st) (_etag st) (_dotfiles st)
    (_extensions st) (_index st) (_lastModified st) (_maxage st) (_root st)
    (on_error st) (on_directory st) (on_headers st).

(** What is left of [str] once its leading slashes are dropped. *)
Definition after_slashes (str : string) : string :=
  Js.slice_from (count_leading "/" str) str.
(** A path segment that [normalize] keeps as it is: not empty, not [.], not
    [..], and without a slash. *)
Definition proper_segment (s : string) : Prop :=
  s <> "" /\ s <> "." /\ s <> ".." /\ Js.indexOf_char "/" s = None.

(** The segments [normalizeString] goes through without effect are dropped. *)
Definition kept_segment (s : string) : bool :=
  negb (String.eqb s "" || String.eqb s ".").

(** [p] is [root] or lies below it: the segments of [p] are those of
    [root] followed by more of them, none of which is [..]; [p] may end in
    a slash. *)
Definition below (root p : string) : Prop :=
  exists segs more (slash : bool),
    Forall proper_segment (segs ++ more) /\
    (segs ++ more = [] -> slash = false) /\
    root = String "/" (Path.join_with "/" segs) /\
    p = String "/" (Path.join_with "/" (segs ++ more)
                    +:+ (if slash then "/" else "")).
(** The path components [pipe] inspects for dotfiles, for the decoded path
    [p]. *)
Definition path_parts (st : SendStream) (p : string) : list string :=
  match _root st with
  | Some _ => Js.split Path.sep (relative_to_root p)
  | None => Js.split Path.sep (Path.normalize p)
  end.

(** The path [pipe] hands to [sendFile] or [sendIndex], for the decoded path
    [p]. *)
Definition resolved_path (st : SendStream) (p : string) : string :=
  match _root st with
  | Some root => Path.normalize (Path.join root (relative_to_root p))
  | None => Path.resolve (cwd E) p
  end.

(** The path of an event. *)
Definition event_path (ev : event) : string :=
  match ev with
  | EvStat p | EvFile p => p
  end.
(** No regular file at [p]: [fs.stat] fails there, or finds a directory. *)
Definition no_file (fs : string -> stat_result) (p : string) : Prop :=
  match fs p with
  | StatError _ => True
  | StatOk stat => isDirectory stat = true
  end.

(** The names of the headers every error page carries. *)
Definition error_page_names : list string :=
  ["content-type"; "content-length"; "content-security-policy";
   "x-content-type-options"].

(** The [stat] calls on the paths [ps], in order. *)
Definition stats_of (ps : list string) : list event := EvStat <$> ps.
(** The response once the [headers] listeners of [st] have run. *)
Definition after_listeners (st : SendStream) (res : ServerResponse)
    (file : string) (stat : Stats) : ServerResponse :=
  fold_left (fun r f => f r file stat) (on_headers st) res.

(** The names of the headers [send] fills in when they are missing. *)
Definition default_header_names : list string :=
  ["accept-ranges"; "cache-control"; "last-modified"; "etag"; "content-type"].
(** The characters on which [fastparse] gives up, by their UTF-8 bytes:
    tab, line feed, form feed, carriage return, space, [#], the no-break
    space U+00A0 and the byte order mark U+FEFF. *)
Definition give_up_marks : list string :=
  [String "009" ""; String "010" ""; String "012" ""; String "013" "";
   " "; "#"; String "194" (String "160" "");
   String "239" (String "187" (String "191" ""))].

(** [s] holds none of these characters. *)
Definition plain (s : string) : bool :=
  forallb (fun w => negb (Js.includes w s)) give_up_marks.

(** The parsed form kept on a request was made by [parseurl] with [parse]:
    it is the parsed form of its [_raw]. *)
Definition made_by_parseurl (parse : string -> ParseUrl.IParsedUrl)
    (kept : option ParseUrl.IParsedUrl) : Prop :=
  forall parsed url,
    kept = Some parsed -> ParseUrl._raw parsed = Some url ->
    parsed = ParseUrl.set_raw (ParseUrl.fastparse parse url) url.

(** The names an [extensions] or [index] option stands for, [dflt] when it
    is left out. *)
Definition listed (v : option list_option) (dflt : list string)
    : list string :=
  match v with
  | Some v =>
      match normalizeList v "" with
      | inr l => l
      | inl _ => []
      end
  | None => dflt
  end.

End Vocabulary.

(** * Properties *)

(** ** The range parser *)

Section RangeParserFacts.

Import RangeParser.

Lemma parse_bounds_within size s e r :
  parse_bounds size s e = Some r -> within size r.
Proof.
  unfold parse_bounds, within.
  destruct s as [s|], e as [e|]; simpl; intros H;
    repeat match type of H with
           | context [if ?b then _ else _] => destruct b eqn:?
           end; inversion H; subst; simpl; lia.
Qed.

Lemma parse_item_within size item r :
  parse_item size item = Some r -> within size r.
Proof. apply parse_bounds_within. Qed.

Lemma insert_by_perm {A} (key : A -> Z) x l :
  Permutation (insert_by key x l) (x :: l).
Proof.
  induction l as [|y l IH]; simpl; [done|].
  destruct (key y <? key x); [|done].
  rewrite IH. apply perm_swap.
Qed.

Lemma sort_by_perm {A} (key : A -> Z) l : Permutation (sort_by key l) l.
Proof.
  induction l as [|x l IH]; simpl; [done|].
  rewrite insert_by_perm. by constructor.
Qed.

Lemma insert_by_sorted {A} (key : A -> Z) x l :
  StronglySorted (fun a b => key a <= key b) l ->
  StronglySorted (fun a b => key a <= key b) (insert_by key x l).
Proof.
  induction 1 as [|y l Hl IH Hy]; simpl.
  - repeat constructor.
  - destruct (key y <? key x) eqn:Hlt.
    + constructor; [done|].
      rewrite insert_by_perm. constructor; [lia|done].
    + constructor; [by constructor|].
      constructor; [lia|].
      eapply Forall_impl; [exact Hy|]. simpl. intros; lia.
Qed.

Lemma sort_by_sorted {A} (key : A -> Z) l :
  StronglySorted (fun a b => key a <= key b) (sort_by key l).
Proof.
  induction l; simpl; [constructor|by apply insert_by_sorted].
Qed.

(** The merging loop keeps the ranges within [size], and leaves them in
    increasing order with a gap between any two. *)
Lemma combine_loop_apart size rest :
  forall done current,
    Forall (iwithin size) done -> iwithin size current ->
    Forall (iwithin size) rest ->
    StronglySorted iapart (rev done ++ [current]) ->
    Forall (fun r => istart current <= istart r) rest ->
    StronglySorted (fun a b => istart a <= istart b) rest ->
    Forall (iwithin size) (combine_loop done current rest) /\
    StronglySorted iapart (combine_loop done current rest).
Proof.
  induction rest as [|range rest IH]; intros done current Hd Hc Hr Hs Hle Hso.
  - simpl. split; [|done].
    apply Forall_app. split; [by apply Forall_rev|by constructor].
  - inversion Hr as [|? ? Hrange Hr']; subst.
    inversion Hle as [|? ? Hle1 Hle']; subst.
    inversion Hso as [|? ? Hso' Hfirst]; subst.
    apply StronglySorted_app in Hs as (Hcross & Hsd & _).
    assert (Hcur : current ∈ [current]) by (by apply list_elem_of_singleton).
    unfold iwithin, within, iapart, apart in *; simpl in *.
    destruct (istart range >? iend current + 1) eqn:Hnext.
    + (* next range *)
      apply IH; auto.
      * simpl. apply StronglySorted_app. split_and!.
        -- intros x1 x2 Hx1 Hx2. apply list_elem_of_singleton in Hx2 as ->.
           apply elem_of_app in Hx1 as [Hx1|Hx1].
           ++ specialize (Hcross x1 current Hx1 Hcur).
              simpl in Hcross. lia.
           ++ apply list_elem_of_singleton in Hx1 as ->. lia.
        -- apply StronglySorted_app. split_and!; [done|done|].
           repeat constructor.
        -- repeat constructor.
    + destruct (iend range >? iend current) eqn:Hext.
      * (* extend range *)
        apply IH; auto; simpl.
        -- lia.
        -- apply StronglySorted_app. split_and!; [|done|repeat constructor].
           intros x1 x2 Hx1 Hx2. apply list_elem_of_singleton in Hx2 as ->.
           specialize (Hcross x1 current Hx1 Hcur).
           simpl in *. lia.
      * apply IH; auto.
        apply StronglySorted_app. split_and!; [done|done|repeat constructor].
Qed.

Lemma apart_irrefl size (r : IRangeItem) : within size r -> ~ apart r r.
Proof. unfold within, apart. lia. Qed.

Lemma StronglySorted_apart_NoDup size (l : list IRangeItem) :
  Forall (within size) l -> StronglySorted apart l -> NoDup l.
Proof.
  induction 2 as [|x l Hl IH Hx]; [constructor|].
  inversion H; subst. constructor; [|auto].
  intros Hin. rewrite Forall_forall in Hx.
  eapply apart_irrefl; [eassumption|]. by apply Hx.
Qed.

Lemma StronglySorted_apart_pairs (l : list IRangeItem) a b :
  StronglySorted apart l -> a ∈ l -> b ∈ l -> a <> b ->
  apart a b \/ apart b a.
Proof.
  induction 1 as [|x l Hl IH Hx]; intros Ha Hb Hne; [by inversion Ha|].
  rewrite Forall_forall in Hx.
  apply elem_of_cons in Ha as [->|Ha], Hb as [->|Hb].
  - done.
  - left. by apply Hx.
  - right. by apply Hx.
  - auto.
Qed.

(** What [combineRanges] guarantees on ranges that lie within [size]. *)
Lemma combineRanges_apart size (ranges : list IRangeItem) :
  Forall (within size) ranges ->
  Forall (within size) (combineRanges ranges) /\
  NoDup (combineRanges ranges) /\
  (forall a b, a ∈ combineRanges ranges -> b ∈ combineRanges ranges ->
               a <> b -> apart a b \/ apart b a).
Proof.
  intros Hw. unfold combineRanges.
  set (indexed := imap (fun i r => mapWithIndex r i) ranges).
  assert (Hi : Forall (iwithin size) indexed).
  { apply Forall_forall. intros x Hx.
    apply elem_of_lookup_imap in Hx as (i & r & -> & Hr).
    unfold iwithin.
    replace (mapWithoutIndex (mapWithIndex r i)) with r by (by destruct r).
    rewrite Forall_forall in Hw. apply Hw.
    eapply list_elem_of_lookup_2. exact Hr. }
  pose proof (sort_by_perm istart indexed) as Hp.
  pose proof (sort_by_sorted istart indexed) as Hs.
  fold (sortByRangeStart indexed) in Hp, Hs |- *.
  destruct (sortByRangeStart indexed) as [|current rest].
  { split_and!; [constructor|constructor|]. intros a b Ha. by inversion Ha. }
  assert (Hall : Forall (iwithin size) (current :: rest)).
  { eapply Permutation_Forall; [symmetry; exact Hp|exact Hi]. }
  inversion Hall as [|? ? Hc Hrest]; subst.
  inversion Hs as [|? ? Hs' Hle]; subst.
  destruct (combine_loop_apart size rest [] current) as [Hw' Hs''];
    auto; [repeat constructor|].
  set (merged := combine_loop [] current rest) in *.
  pose proof (sort_by_perm (fun r => Z.of_nat (index r)) merged) as Hp'.
  fold (sortByRangeIndex merged) in Hp'.
  assert (Hpm : Permutation (mapWithoutIndex <$> sortByRangeIndex merged)
                            (mapWithoutIndex <$> merged)).
  { by apply fmap_Permutation. }
  assert (Hwm : Forall (within size) (mapWithoutIndex <$> merged)).
  { apply Forall_fmap. exact Hw'. }
  assert (Hsm : StronglySorted apart (mapWithoutIndex <$> merged)).
  { eapply StronglySorted_fmap; [|exact Hs'']. intros ???. done. }
  split_and!.
  - by rewrite Hpm.
  - rewrite Hpm. by eapply StronglySorted_apart_NoDup.
  - intros a b Ha Hb. rewrite Hpm in Ha, Hb.
    by apply (StronglySorted_apart_pairs (mapWithoutIndex <$> merged)).
Qed.

(** X1: The parts of the contract of [rangeParser] with [combine] that hold:
    every range returned lies within [size], and any two of them, at
    different places of the array, are neither overlapping nor adjacent. *)
Theorem rangeParser_combine_apart size str type ranges :
  rangeParser size str true = Ranges type ranges ->
  Forall (within size) ranges /\
  (forall i j a b, i <> j -> ranges !! i = Some a -> ranges !! j = Some b ->
                   apart a b \/ apart b a).
Proof.
  unfold rangeParser. destruct (Js.indexOf_char "=" str) as [index|]; [|done].
  set (parsed := omap _ _).
  assert (Hw : Forall (within size) parsed).
  { apply Forall_forall. intros r Hr.
    apply list_elem_of_omap in Hr as (item & _ & Hitem).
    by eapply parse_item_within. }
  destruct parsed as [|r0 parsed'] eqn:Hparsed; [done|].
  intros [= <- <-].
  destruct (combineRanges_apart size (r0 :: parsed') Hw) as (H1 & H2 & H3).
  split; [done|].
  intros i j a b Hij Ha Hb. apply H3.
  - by eapply list_elem_of_lookup_2.
  - by eapply list_elem_of_lookup_2.
  - intros ->. apply Hij. by eapply NoDup_lookup.
Qed.

End RangeParserFacts.

(** ** The response object *)

Section ResponseFacts.

Import Send.

Lemma res_getHeader_set res h v h' :
  res_getHeader (res_setHeader res h v) h' =
  if decide (toLowerCase h = toLowerCase h') then Some v
  else res_getHeader res h'.
Proof. unfold res_getHeader, res_setHeader. simpl. apply lookup_insert. Qed.

Lemma res_getHeader_set_eq res h v :
  res_getHeader (res_setHeader res h v) h = Some v.
Proof. rewrite res_getHeader_set. by case_decide. Qed.

Lemma res_getHeader_status res s h :
  res_getHeader (set_statusCode res s) h = res_getHeader res h.
Proof. done. Qed.

Lemma statusCode_set res h v :
  statusCode (res_setHeader res h v) = statusCode res.
Proof. done. Qed.

Lemma toLowerCase_idem h : toLowerCase (toLowerCase h) = toLowerCase h.
Proof.
  induction h as [|c h IH]; [done|]. cbn [toLowerCase]. rewrite IH. f_equal.
  destruct ((65 <=? nat_of_ascii c)%nat && (nat_of_ascii c <=? 90)%nat) eqn:Hc.
  - apply andb_true_iff in Hc as [H1 H2].
    apply Nat.leb_le in H1, H2.
    rewrite nat_ascii_embedding by lia.
    destruct (65 <=? nat_of_ascii c + 32)%nat eqn:H3; [|done].
    destruct (nat_of_ascii c + 32 <=? 90)%nat eqn:H4; [|done].
    apply Nat.leb_le in H4. lia.
  - by rewrite Hc.
Qed.

Lemma names_lower_set res h v :
  names_lower res -> names_lower (res_setHeader res h v).
Proof.
  intros Hl k. unfold res_setHeader. simpl.
  rewrite lookup_insert. case_decide as Hk.
  - intros _. subst k. apply toLowerCase_idem.
  - apply Hl.
Qed.

Lemma names_lower_status res s :
  names_lower res -> names_lower (set_statusCode res s).
Proof. done. Qed.

Lemma fold_removeHeader_lookup ks : forall res k,
  headers (fold_left res_removeHeader ks res) !! k =
  if existsb (fun h => String.eqb (toLowerCase h) k) ks then None
  else headers res !! k.
Proof.
  induction ks as [|h ks IH]; intros res k; simpl; [done|].
  rewrite IH. simpl.
  destruct (String.eqb (toLowerCase h) k) eqn:Hk; simpl.
  - apply String.eqb_eq in Hk as <-.
    rewrite lookup_delete_eq. by destruct (existsb _ ks).
  - apply String.eqb_neq in Hk. by rewrite lookup_delete_ne.
Qed.

Lemma fold_removeHeader_rest ks : forall res,
  statusCode (fold_left res_removeHeader ks res) = statusCode res /\
  headersSent (fold_left res_removeHeader ks res) = headersSent res.
Proof.
  induction ks as [|h ks IH]; intros res; simpl; [done|].
  destruct (IH (res_removeHeader res h)) as [-> ->]. done.
Qed.

Lemma getHeaderNames_elem res k :
  k ∈ getHeaderNames res <-> is_Some (headers res !! k).
Proof.
  unfold getHeaderNames. rewrite list_elem_of_fmap. split.
  - intros ([k' v] & -> & Hin). apply elem_of_map_to_list in Hin. by eexists.
  - intros [v Hv]. exists (k, v). split; [done|]. by apply elem_of_map_to_list.
Qed.

(** [clearHeaders] leaves no header under a lower-case name. *)
Lemma clearHeaders_lookup res k :
  lower k -> headers (clearHeaders res) !! k = None.
Proof.
  intros Hk. unfold clearHeaders. rewrite fold_removeHeader_lookup.
  destruct (existsb _ _) eqn:Hex; [done|].
  destruct (headers res !! k) as [v|] eqn:Hv; [|done].
  exfalso. apply not_true_iff_false in Hex. apply Hex.
  apply existsb_exists. exists k. split.
  - apply list_elem_of_In, getHeaderNames_elem. by eexists.
  - apply String.eqb_eq. exact Hk.
Qed.

Lemma clearHeaders_rest res :
  statusCode (clearHeaders res) = statusCode res /\
  headersSent (clearHeaders res) = headersSent res.
Proof. apply fold_removeHeader_rest. Qed.

Lemma fold_removeContent_lookup ks : forall res k,
  headers (fold_left (fun r header =>
                        if is_content_field header
                        then res_removeHeader r header else r) ks res) !! k =
  if existsb (fun h => is_content_field h && String.eqb (toLowerCase h) k) ks
  then None else headers res !! k.
Proof.
  induction ks as [|h ks IH]; intros res k; simpl; [done|].
  rewrite IH. destruct (is_content_field h); simpl; [|done].
  destruct (String.eqb (toLowerCase h) k) eqn:Hk; simpl.
  - apply String.eqb_eq in Hk as <-.
    rewrite lookup_delete_eq. by destruct (existsb _ ks).
  - apply String.eqb_neq in Hk. by rewrite lookup_delete_ne.
Qed.

Lemma fold_removeContent_rest ks : forall res,
  statusCode (fold_left (fun r header =>
                           if is_content_field header
                           then res_removeHeader r header else r) ks res)
  = statusCode res /\
  headersSent (fold_left (fun r header =>
                            if is_content_field header
                            then res_removeHeader r header else r) ks res)
  = headersSent res.
Proof.
  induction ks as [|h ks IH]; intros res; simpl; [done|].
  destruct (IH (if is_content_field h then res_removeHeader res h else res))
    as [-> ->].
  by destruct (is_content_field h).
Qed.


Lemma removeContentHeaderFields_rest res :
  statusCode (removeContentHeaderFields res) = statusCode res /\
  headersSent (removeContentHeaderFields res) = headersSent res.
Proof. apply fold_removeContent_rest. Qed.

End ResponseFacts.

(** Reads a header through the [res_setHeader] calls made for other
    names. *)
Ltac other_headers :=
  repeat (rewrite res_getHeader_set;
          let Hk := fresh "Hk" in
          case_decide as Hk; [by vm_compute in Hk|clear Hk]).

(** ** Error responses *)

Section ErrorFacts.

Import Send.

Context (E : Externals).

Lemma error_Ended st res status err msg :
  on_error st = false -> headersSent res = false ->
  STATUS_CODES E status = Some msg -> msg <> "" ->
  error E st res status err =
  Ended (error_response res status err
           (createHtmlDocument "Error" (escapeHtml E msg)))
        (createHtmlDocument "Error" (escapeHtml E msg)).
Proof.
  intros Hl Hs Hc Hm. unfold error, getStatusCodeMessage.
  rewrite Hl, Hc, Hs.
  apply String.eqb_neq in Hm. rewrite Hm.
  unfold error_response, error_headers.
  destruct err as [e|]; [|done]. by destruct (e_headers e).
Qed.

(** Whatever [error] does, a response it writes has the status asked
    for. *)
Lemma error_status st res status err r body :
  error E st res status err = Ended r body -> statusCode r = status.
Proof.
  unfold error. destruct (on_error st).
  { by destruct (createHttpError _ _ _). }
  destruct (getStatusCodeMessage _ _); [done|].
  destruct (headersSent res); [done|]. by intros [= <- <-].
Qed.

Lemma error_not_Piped st res status err r f s e :
  error E st res status err <> Piped r f s e.
Proof.
  unfold error. destruct (on_error st).
  { by destruct (createHttpError _ _ _). }
  destruct (getStatusCodeMessage _ _); [done|].
  by destruct (headersSent res).
Qed.

Lemma setHeaders_nil_lookup res k :
  headers (setHeaders res []) !! k = headers res !! k.
Proof. done. Qed.

(** An error without headers of its own leaves no [Content-Range]. *)
Lemma error_no_content_range st res status err r body :
  error_headers err = [] ->
  error E st res status err = Ended r body ->
  res_getHeader r "Content-Range" = None.
Proof.
  intros Hh. unfold error. destruct (on_error st).
  { by destruct (createHttpError _ _ _). }
  destruct (getStatusCodeMessage _ _); [done|].
  destruct (headersSent res); [done|]. intros [= <- <-].
  assert (Hclear : res_getHeader (clearHeaders res) "Content-Range" = None).
  { apply clearHeaders_lookup. reflexivity. }
  other_headers.
  rewrite res_getHeader_status.
  destruct err as [e|]; [|done].
  unfold error_headers in Hh. destruct (e_headers e) as [hs|]; [|done].
  simpl in Hh. by subst hs.
Qed.

(** An error that carries [Content-Range] keeps it on the response. *)
Lemma error_content_range st res status v r body :
  error E st res status
    (Some (mkError None None (Some [("Content-Range", v)]) None None))
  = Ended r body ->
  res_getHeader r "Content-Range" = Some v.
Proof.
  unfold error. destruct (on_error st).
  { by destruct (createHttpError _ _ _). }
  destruct (getStatusCodeMessage _ _); [done|].
  destruct (headersSent res); [done|]. intros [= <- <-].
  other_headers.
  rewrite res_getHeader_status. simpl.
  apply res_getHeader_set_eq.
Qed.

Lemma createHtmlDocument_nonempty title body :
  createHtmlDocument title body <> "".
Proof. done. Qed.

End ErrorFacts.

(** ** [send] *)

Section SendFacts.

Import Send.

Context (E : Externals).

(** [send], branch by branch. *)
Lemma send_eq st res file stat :
  send E st res file stat =
  if headersSent res then headersAlreadySent E st res
  else if isConditionalGET st
          && isPreconditionFailure E st (prepared E st res file stat)
  then error E st (prepared E st res file stat) 412 None
  else if isConditionalGET st
          && (isCachable (prepared E st res file stat)
              && isFresh E st (prepared E st res file stat))
  then notModified (prepared E st res file stat)
  else if _acceptRanges st
          && BYTES_RANGE_REGEXP_test (req_headers (req st) !! "range")
  then
    match
      (if isRangeFresh E st (prepared E st res file stat)
       then RangeParser.rangeParser (effective_len (options st) stat)
              (Js.String_ (req_headers (req st) !! "range")) true
       else RangeParser.Malformed)
    with
    | RangeParser.Unsatisfiable =>
        error E st
          (res_setHeader (prepared E st res file stat) "Content-Range"
             (contentRange "bytes" (effective_len (options st) stat) None))
          416
          (Some (mkError None None
                   (Some [("Content-Range",
                           contentRange "bytes"
                             (effective_len (options st) stat) None)])
                   None None))
    | RangeParser.Ranges _ [range] =>
        send_body st
          (res_setHeader (set_statusCode (prepared E st res file stat) 206)
             "Content-Range"
             (contentRange "bytes" (effective_len (options st) stat)
                (Some range)))
          file
          (default 0 (opt_start (options st)) + RangeParser.start range)
          (RangeParser.end_ range - RangeParser.start range + 1)
    | _ =>
        send_body st (prepared E st res file stat) file
          (default 0 (opt_start (options st)))
          (effective_len (options st) stat)
    end
  else
    send_body st (prepared E st res file stat) file
      (default 0 (opt_start (options st)))
      (effective_len (options st) stat).
Proof.
  unfold send, prepared, effective_len.
  destruct (headersSent res); [done|].
  destruct (isConditionalGET st); simpl.
  - destruct (isPreconditionFailure _ _ _); [done|].
    destruct (isCachable _ && isFresh _ _ _); [done|].
    destruct (_acceptRanges st && _); [|done].
    destruct (isRangeFresh _ _ _); simpl; [|done].
    destruct (RangeParser.rangeParser _ _ _); try done.
    by rewrite res_getHeader_set_eq.
  - destruct (_acceptRanges st && _); [|done].
    destruct (isRangeFresh _ _ _); simpl; [|done].
    destruct (RangeParser.rangeParser _ _ _); try done.
    by rewrite res_getHeader_set_eq.
Qed.



(** Without a listener, composing the head touches neither the status nor
    [Content-Range]. *)
Lemma prepared_frame st res file stat :
  on_headers st = [] ->
  statusCode (prepared E st res file stat) = statusCode res /\
  res_getHeader (prepared E st res file stat) "Content-Range"
  = res_getHeader res "Content-Range".
Proof.
  intros Hh. unfold prepared, type, setHeader. rewrite Hh. simpl.
  repeat match goal with
         | |- context [if ?b then _ else _] => destruct b
         end;
    other_headers; done.
Qed.

(** What [send_body] hands to [stream]. *)
Lemma send_body_Piped st res file offset len r f s e :
  send_body st res file offset len = Piped r f s e ->
  r = res_setHeader res "Content-Length" (Js.of_Z len) /\ f = file /\
  s = offset /\ e = Z.max offset (offset + len - 1).
Proof.
  unfold send_body. destruct (String.eqb _ _); [done|].
  by intros [= <- <- <- <-].
Qed.

Lemma notModified_not_Piped res r f s e : notModified res <> Piped r f s e.
Proof. done. Qed.

End SendFacts.

(** ** Ranges that cannot be satisfied *)

Section Unsatisfiable.

Import Send.

Context (E : Externals).

Lemma contentRange_star size :
  contentRange "bytes" size None = "bytes */" +:+ Js.of_Z size.
Proof. reflexivity. Qed.

(** The 416 reply, shared by the two theorems below. *)
Lemma send_unsatisfiable st res file stat msg :
  headersSent res = false ->
  headersSent (prepared E st res file stat) = false ->
  answers_conditional E st (prepared E st res file stat) = false ->
  _acceptRanges st = true ->
  BYTES_RANGE_REGEXP_test (req_headers (req st) !! "range") = true ->
  isRangeFresh E st (prepared E st res file stat) = true ->
  RangeParser.rangeParser (effective_len (options st) stat)
    (Js.String_ (req_headers (req st) !! "range")) true
  = RangeParser.Unsatisfiable ->
  on_error st = false ->
  STATUS_CODES E 416 = Some msg -> msg <> "" ->
  exists r,
    send E st res file stat
    = Ended r (createHtmlDocument "Error" (escapeHtml E msg)) /\
    statusCode r = 416 /\
    res_getHeader r "Content-Range"
    = Some ("bytes */" +:+ Js.of_Z (effective_len (options st) stat)) /\
    res_getHeader r "Content-Length"
    = Some (Js.of_Z (Z.of_nat (String.length
                       (createHtmlDocument "Error" (escapeHtml E msg))))).
Proof.
  intros Hs Hs' Hc Ha Hb Hf Hp Hl Hm Hne.
  assert (Hgo :
    send E st res file stat =
    error E st
      (res_setHeader (prepared E st res file stat) "Content-Range"
         (contentRange "bytes" (effective_len (options st) stat) None))
      416
      (Some (mkError None None
               (Some [("Content-Range",
                       contentRange "bytes"
                         (effective_len (options st) stat) None)])
               None None))).
  { rewrite send_eq, Hs. unfold answers_conditional in Hc.
    destruct (isConditionalGET st); simpl in *.
    - apply orb_false_iff in Hc as [-> ->]. by rewrite Ha, Hb, Hf, Hp.
    - by rewrite Ha, Hb, Hf, Hp. }
  rewrite Hgo. rewrite (error_Ended E st _ 416 _ msg); [|done..].
  eexists. split; [reflexivity|].
  unfold error_response. split_and!.
  - done.
  - other_headers.
    rewrite res_getHeader_status. simpl. apply res_getHeader_set_eq.
  - rewrite res_getHeader_set; case_decide as Hk; [by vm_compute in Hk|clear Hk].
    rewrite res_getHeader_set; case_decide as Hk; [by vm_compute in Hk|clear Hk].
    apply res_getHeader_set_eq.
Qed.

End Unsatisfiable.

(** ** Claims on ranges *)

Section RangeClaims.

Import Send.

Lemma split_no_separator c s :
  Js.indexOf_char c s = None -> Js.split c s = [s].
Proof.
  induction s as [|d s IH]; simpl; [done|].
  destruct (Ascii.eqb c d); [done|].
  destruct (Js.indexOf_char c s); [done|]. intros _. by rewrite IH.
Qed.

(** A lone suffix range that asks for more bytes than there are is dropped,
    with or without [combine]. *)
Lemma rangeParser_suffix_beyond size d nnn combine :
  Js.indexOf_char "-" d = None -> Js.indexOf_char "," d = None ->
  Js.parseInt d = Some nnn -> size < nnn ->
  RangeParser.rangeParser size ("bytes=-" +:+ d) combine
  = RangeParser.Unsatisfiable.
Proof.
  intros Hd Hc Hp Hlt. unfold RangeParser.rangeParser.
  change ("bytes=-" +:+ d) with
    (String "b" (String "y" (String "t" (String "e" (String "s"
       (String "=" (String "-" d))))))).
  cbn [Js.indexOf_char Ascii.eqb Bool.eqb fmap option_fmap option_map
       Js.slice_from].
  rewrite split_no_separator.
  2:{ cbn [Js.indexOf_char Ascii.eqb Bool.eqb]. by rewrite Hc. }
  cbn [omap list_omap]. unfold RangeParser.parse_item.
  cbn [Js.split Ascii.eqb Bool.eqb]. rewrite (split_no_separator _ d Hd).
  cbn [lookup list_lookup]. unfold Js.parseInt_opt. cbn [Js.String_].
  rewrite Hp. unfold RangeParser.parse_bounds.
  replace (Js.parseInt "") with (@None Z) by reflexivity.
  cbn [fmap option_fmap option_map].
  destruct (size - 1 >? size - 1) eqn:H1; [lia|].
  destruct (size - nnn >? size - 1) eqn:H2; [done|].
  destruct (size - nnn <? 0) eqn:H3; [done|]. lia.
Qed.

Context (E : Externals).

(** C5 (amended): when the Range header yields no satisfiable range (the
    parser returns -1 and If-Range is fresh) and nobody listens for [error],
    the responder replies with status 416 and a Content-Range header
    [bytes */len], where len is the length of the window the start and end
    options leave; the body is the HTML error page, not empty, and
    Content-Length is its length. *)
Theorem C5_unsatisfiable_range_gets_416_page st res file stat msg :
  headersSent res = false ->
  headersSent (prepared E st res file stat) = false ->
  answers_conditional E st (prepared E st res file stat) = false ->
  _acceptRanges st = true ->
  BYTES_RANGE_REGEXP_test (req_headers (req st) !! "range") = true ->
  isRangeFresh E st (prepared E st res file stat) = true ->
  RangeParser.rangeParser (effective_len (options st) stat)
    (Js.String_ (req_headers (req st) !! "range")) true
  = RangeParser.Unsatisfiable ->
  on_error st = false ->
  STATUS_CODES E 416 = Some msg -> msg <> "" ->
  exists r body,
    send E st res file stat = Ended r body /\
    statusCode r = 416 /\
    res_getHeader r "Content-Range"
    = Some ("bytes */" +:+ Js.of_Z (effective_len (options st) stat)) /\
    body = createHtmlDocument "Error" (escapeHtml E msg) /\
    body <> "" /\
    res_getHeader r "Content-Length"
    = Some (Js.of_Z (Z.of_nat (String.length body))).
Proof.
  intros.
  destruct (send_unsatisfiable E st res file stat msg)
    as (r & Hr & H416 & Hcr & Hcl); try assumption.
  exists r, (createHtmlDocument "Error" (escapeHtml E msg)).
  split_and!; try assumption; [reflexivity|apply createHtmlDocument_nonempty].
Qed.

(** C3 (amended): a suffix range [-nnn] that asks for more bytes than the
    window holds is not clamped.  The parser leaves it out, so a Range header
    made of this one range yields -1, and the reply is 416 with
    [Content-Range: bytes */len]; [bytes=-5] on a length of 3 is the case
    [d = "5"]. *)
Theorem C3_suffix_longer_than_file_gets_416 st res file stat d nnn msg :
  req_headers (req st) !! "range" = Some ("bytes=-" +:+ d) ->
  Js.indexOf_char "-" d = None -> Js.indexOf_char "," d = None ->
  Js.parseInt d = Some nnn ->
  effective_len (options st) stat < nnn ->
  headersSent res = false ->
  headersSent (prepared E st res file stat) = false ->
  answers_conditional E st (prepared E st res file stat) = false ->
  _acceptRanges st = true ->
  isRangeFresh E st (prepared E st res file stat) = true ->
  on_error st = false ->
  STATUS_CODES E 416 = Some msg -> msg <> "" ->
  RangeParser.rangeParser (effective_len (options st) stat)
    ("bytes=-" +:+ d) true = RangeParser.Unsatisfiable /\
  exists r body,
    send E st res file stat = Ended r body /\
    statusCode r = 416 /\
    res_getHeader r "Content-Range"
    = Some ("bytes */" +:+ Js.of_Z (effective_len (options st) stat)).
Proof.
  intros Hr Hd Hc Hp Hlt Hs Hs' Hcond Ha Hf Hl Hm Hne.
  pose proof (rangeParser_suffix_beyond _ d nnn true Hd Hc Hp Hlt) as Hu.
  split; [done|].
  destruct (send_unsatisfiable E st res file stat msg)
    as (r & Hsend & H416 & Hcr & _); try assumption.
  - rewrite Hr. reflexivity.
  - rewrite Hr. exact Hu.
  - exists r, (createHtmlDocument "Error" (escapeHtml E msg)). by split_and!.
Qed.

End RangeClaims.

(** C3, tried: [Range: bytes=-5] on the three bytes of [/srv/b]. *)
Lemma C3_witness :
  RangeParser.rangeParser 3 "bytes=-5" true = RangeParser.Unsatisfiable /\
  exists r body,
    Send.send Node.externals
      (Node.new (Node.GET [("range", "bytes=-5")]) "/b" Node.under_srv)
      Node.res0 "/srv/b" (Send.mkStats 3 2000 false)
    = Send.Ended r body /\
    Send.statusCode r = 416 /\
    Send.res_getHeader r "Content-Range" = Some "bytes */3".
Proof.
  apply (C3_suffix_longer_than_file_gets_416 Node.externals
           (Node.new (Node.GET [("range", "bytes=-5")]) "/b" Node.under_srv)
           Node.res0 "/srv/b" (Send.mkStats 3 2000 false) "5" 5
           "Range Not Satisfiable");
    vm_compute; first [reflexivity | discriminate].
Defined.

(** C3 as claimed fails: the parser does not yield the range [0, 2]. *)
Lemma C3_counterexample :
  RangeParser.rangeParser 3 "bytes=-5" true
  <> RangeParser.Ranges "bytes" [RangeParser.mkRange 0 2].
Proof. vm_compute. discriminate. Qed.

(** C5, tried: [Range: bytes=10-] on the three bytes of [/srv/b]. *)
Lemma C5_witness :
  exists r body,
    Send.send Node.externals
      (Node.new (Node.GET [("range", "bytes=10-")]) "/b" Node.under_srv)
      Node.res0 "/srv/b" (Send.mkStats 3 2000 false)
    = Send.Ended r body /\
    Send.statusCode r = 416 /\
    Send.res_getHeader r "Content-Range" = Some "bytes */3" /\
    body = Send.createHtmlDocument "Error" "Range Not Satisfiable" /\
    body <> "" /\
    Send.res_getHeader r "Content-Length"
    = Some (Js.of_Z (Z.of_nat (String.length body))).
Proof.
  apply (C5_unsatisfiable_range_gets_416_page Node.externals
           (Node.new (Node.GET [("range", "bytes=10-")]) "/b" Node.under_srv)
           Node.res0 "/srv/b" (Send.mkStats 3 2000 false)
           "Range Not Satisfiable");
    vm_compute; first [reflexivity | discriminate].
Defined.

(** C5 as claimed fails: the 416 reply to [Range: bytes=10-] on [/srv/b] has
    a body. *)
Lemma C5_counterexample :
  exists evs r body,
    Node.run (Node.GET [("range", "bytes=10-")]) "/b" Node.under_srv
    = inr (evs, Send.Ended r body) /\
    Send.statusCode r = 416 /\
    Send.res_getHeader r "Content-Range" = Some "bytes */3" /\
    body <> "".
Proof.
  eexists _, _, _. split; [vm_compute; reflexivity|].
  split_and!; [reflexivity|reflexivity|discriminate].
Qed.

(** ** Conditional requests *)

Section ConditionalClaims.

Import Send.

Context (E : Externals).

Lemma slice_to_slice_from n (s : string) :
  Js.slice_to n s +:+ Js.slice_from n s = s.
Proof.
  revert s. induction n as [|n IH]; intros [|c s]; try done.
  cbn [Js.slice_to Js.slice_from].
  change (String c (Js.slice_to n s) +:+ Js.slice_from n s)
    with (String c (Js.slice_to n s +:+ Js.slice_from n s)).
  by rewrite IH.
Qed.



Lemma if_match_differs_spec etag tok :
  if_match_differs etag tok = true <-> ~ if_match_matches etag tok.
Proof.
  unfold if_match_differs, if_match_matches.
  rewrite !andb_true_iff, !negb_true_iff, !String.eqb_neq. tauto.
Qed.

(** C4 (amended): with an If-Match header, the precondition fails when the
    response has no ETag, or an empty one, even for [*]; with an ETag it
    holds for [*]; otherwise it fails exactly when no member of the list
    matches the ETag, where [tok] matches when [tok = etag], or
    [tok = "W/" + etag], or ["W/" + tok = etag].  A failure is answered by
    [error(412)]. *)
Theorem C4_if_match_precondition st res m :
  req_headers (req st) !! "if-match" = Some m -> m <> "" ->
  (Js.truthy (res_getHeader res "ETag") = false ->
   isPreconditionFailure E st res = true) /\
  (forall etag,
     res_getHeader res "ETag" = Some etag -> etag <> "" ->
     (m = "*" -> isPreconditionFailure E st res = false) /\
     (m <> "*" ->
      (isPreconditionFailure E st res = true <->
       forall tok, tok ∈ parseTokenList m -> ~ if_match_matches etag tok))) /\
  (forall res0 file stat,
     headersSent res0 = false ->
     res = prepared E st res0 file stat ->
     isPreconditionFailure E st res = true ->
     send E st res0 file stat = error E st res 412 None).
Proof.
  intros Hm Hne.
  assert (Ht : Js.truthy (req_headers (req st) !! "if-match") = true).
  { rewrite Hm. simpl. by apply negb_true_iff, String.eqb_neq. }
  split_and!.
  - intros He. unfold isPreconditionFailure. by rewrite Ht, He.
  - intros etag He Hene.
    assert (Hte : Js.truthy (res_getHeader res "ETag") = true).
    { rewrite He. simpl. by apply negb_true_iff, String.eqb_neq. }
    unfold isPreconditionFailure. rewrite Ht, Hte, Hm, He. simpl.
    split.
    + by intros ->.
    + intros Hstar. apply String.eqb_neq in Hstar. rewrite Hstar. simpl.
      rewrite forallb_forall. split.
      * intros H tok Hin. apply if_match_differs_spec, H.
        by apply list_elem_of_In.
      * intros H tok Hin. apply if_match_differs_spec, H.
        by apply list_elem_of_In.
  - intros res0 file stat Hs -> Hf.
    rewrite send_eq, Hs, Hf.
    unfold isConditionalGET. by rewrite Ht.
Qed.

(** C10: the window [send] hands to the file stream never ends before it
    starts.  [opts.end] is [max(offset, offset + len - 1)] and Content-Length
    is [len], where [len] is the length of the window left by the start and
    end options or, for a single range, the length of that range; a [len] of
    0 gives the window from [offset] to [offset]. *)
Theorem C10_read_window_is_ordered st res file stat r f s e :
  send E st res file stat = Piped r f s e ->
  s <= e /\
  exists len,
    e = Z.max s (s + len - 1) /\
    res_getHeader r "Content-Length" = Some (Js.of_Z len) /\
    (len = 0 -> e = s) /\
    ((s = default 0 (opt_start (options st)) /\
      len = effective_len (options st) stat) \/
     (exists type range,
        RangeParser.rangeParser (effective_len (options st) stat)
          (Js.String_ (req_headers (req st) !! "range")) true
        = RangeParser.Ranges type [range] /\
        s = default 0 (opt_start (options st)) + RangeParser.start range /\
        len = RangeParser.end_ range - RangeParser.start range + 1)).
Proof.
  rewrite send_eq.
  assert (Hbody : forall res' offset len,
    send_body st res' file offset len = Piped r f s e ->
    s = offset /\ e = Z.max s (s + len - 1) /\
    res_getHeader r "Content-Length" = Some (Js.of_Z len)).
  { intros res' offset len H.
    apply send_body_Piped in H as (-> & _ & -> & ->).
    split_and!; [done|done|apply res_getHeader_set_eq]. }
  assert (Hplain :
    send_body st (prepared E st res file stat) file
      (default 0 (opt_start (options st))) (effective_len (options st) stat)
    = Piped r f s e ->
    s <= e /\
    exists len,
      e = Z.max s (s + len - 1) /\
      res_getHeader r "Content-Length" = Some (Js.of_Z len) /\
      (len = 0 -> e = s) /\
      ((s = default 0 (opt_start (options st)) /\
        len = effective_len (options st) stat) \/
       (exists type range,
          RangeParser.rangeParser (effective_len (options st) stat)
            (Js.String_ (req_headers (req st) !! "range")) true
          = RangeParser.Ranges type [range] /\
          s = default 0 (opt_start (options st)) + RangeParser.start range /\
          len = RangeParser.end_ range - RangeParser.start range + 1))).
  { intros H. apply Hbody in H as (Hs & He & Hcl).
    split; [lia|]. eexists. split_and!; [exact He|exact Hcl|lia|]. by left. }
  destruct (headersSent res).
  { intros H. by apply error_not_Piped in H. }
  destruct (isConditionalGET st && isPreconditionFailure _ _ _).
  { intros H. by apply error_not_Piped in H. }
  destruct (isConditionalGET st && _); [done|].
  destruct (_acceptRanges st && _); [|exact Hplain].
  destruct (isRangeFresh _ _ _); [|exact Hplain].
  destruct (RangeParser.rangeParser _ _ _) as [| |type ranges] eqn:Hparse;
    [exact Hplain| |].
  { intros H. by apply error_not_Piped in H. }
  destruct ranges as [|range [|]]; [exact Hplain| |exact Hplain].
  intros H. apply Hbody in H as (Hs & He & Hcl).
  split; [lia|]. eexists. split_and!; [exact He|exact Hcl|lia|].
  right. by exists type, range.
Qed.

End ConditionalClaims.

Lemma names_lower_empty s h : names_lower (Send.mkResponse s ∅ h).
Proof. intros k [v Hv]. simpl in Hv. by rewrite lookup_empty in Hv. Qed.


(** C4, tried: [If-Match: "x", "6-1000"] against the validator of
    [/srv/a.txt]. *)
Lemma C4_witness :
  (Js.truthy (Send.res_getHeader
                (Send.res_setHeader Node.res0 "ETag"
                   ("W/" +:+ Node.quoted "6-1000")) "ETag") = false ->
   Send.isPreconditionFailure Node.externals
     (Node.new (Node.GET [("if-match",
                           Node.quoted "x" +:+ ", " +:+ Node.quoted "6-1000")])
        "/a.txt" Node.under_srv)
     (Send.res_setHeader Node.res0 "ETag" ("W/" +:+ Node.quoted "6-1000"))
   = true) /\
  (forall etag,
     Send.res_getHeader
       (Send.res_setHeader Node.res0 "ETag" ("W/" +:+ Node.quoted "6-1000"))
       "ETag" = Some etag -> etag <> "" ->
     (Node.quoted "x" +:+ ", " +:+ Node.quoted "6-1000" = "*" ->
      Send.isPreconditionFailure Node.externals
        (Node.new (Node.GET [("if-match",
                              Node.quoted "x" +:+ ", " +:+ Node.quoted "6-1000")])
           "/a.txt" Node.under_srv)
        (Send.res_setHeader Node.res0 "ETag" ("W/" +:+ Node.quoted "6-1000"))
      = false) /\
     (Node.quoted "x" +:+ ", " +:+ Node.quoted "6-1000" <> "*" ->
      (Send.isPreconditionFailure Node.externals
         (Node.new (Node.GET [("if-match",
                               Node.quoted "x" +:+ ", " +:+ Node.quoted "6-1000")])
            "/a.txt" Node.under_srv)
         (Send.res_setHeader Node.res0 "ETag" ("W/" +:+ Node.quoted "6-1000"))
       = true <->
       forall tok,
         tok ∈ Send.parseTokenList
                 (Node.quoted "x" +:+ ", " +:+ Node.quoted "6-1000") ->
         ~ if_match_matches etag tok))) /\
  (forall res0 file stat,
     Send.headersSent res0 = false ->
     Send.res_setHeader Node.res0 "ETag" ("W/" +:+ Node.quoted "6-1000")
     = prepared Node.externals
         (Node.new (Node.GET [("if-match",
                               Node.quoted "x" +:+ ", " +:+ Node.quoted "6-1000")])
            "/a.txt" Node.under_srv) res0 file stat ->
     Send.isPreconditionFailure Node.externals
       (Node.new (Node.GET [("if-match",
                             Node.quoted "x" +:+ ", " +:+ Node.quoted "6-1000")])
          "/a.txt" Node.under_srv)
       (Send.res_setHeader Node.res0 "ETag" ("W/" +:+ Node.quoted "6-1000"))
     = true ->
     Send.send Node.externals
       (Node.new (Node.GET [("if-match",
                             Node.quoted "x" +:+ ", " +:+ Node.quoted "6-1000")])
          "/a.txt" Node.under_srv) res0 file stat
     = Send.error Node.externals
         (Node.new (Node.GET [("if-match",
                               Node.quoted "x" +:+ ", " +:+ Node.quoted "6-1000")])
            "/a.txt" Node.under_srv)
         (Send.res_setHeader Node.res0 "ETag" ("W/" +:+ Node.quoted "6-1000"))
         412 None).
Proof.
  apply (C4_if_match_precondition Node.externals
           (Node.new (Node.GET [("if-match",
                                 Node.quoted "x" +:+ ", " +:+ Node.quoted "6-1000")])
              "/a.txt" Node.under_srv)
           (Send.res_setHeader Node.res0 "ETag" ("W/" +:+ Node.quoted "6-1000"))
           (Node.quoted "x" +:+ ", " +:+ Node.quoted "6-1000")).
  - vm_compute. reflexivity.
  - vm_compute. discriminate.
Defined.

(** C4 as claimed fails: [If-Match: "6-1000"] against the weak validator
    [W/"6-1000"] of [/srv/a.txt].  The one member of the list is neither the
    validator nor ["W/"] followed by it, and yet the precondition holds and
    the file is served. *)
Lemma C4_counterexample :
  (forall tok,
     tok ∈ Send.parseTokenList (Node.quoted "6-1000") ->
     tok <> "W/" +:+ Node.quoted "6-1000" /\
     tok <> "W/" +:+ ("W/" +:+ Node.quoted "6-1000")) /\
  exists r,
    Node.run (Node.GET [("if-match", Node.quoted "6-1000")]) "/a.txt"
      Node.under_srv
    = inr ([Send.EvStat "/srv/a.txt"; Send.EvFile "/srv/a.txt"],
           Send.Piped r "/srv/a.txt" 0 5) /\
    Send.res_getHeader r "ETag" = Some ("W/" +:+ Node.quoted "6-1000") /\
    Send.statusCode r = 200 /\
    Send.isPreconditionFailure Node.externals
      (Node.new (Node.GET [("if-match", Node.quoted "6-1000")]) "/a.txt"
         Node.under_srv) r = false.
Proof.
  split.
  - intros tok Hin. vm_compute in Hin.
    apply list_elem_of_singleton in Hin as ->. by split.
  - eexists. split; [vm_compute; reflexivity|].
    split_and!; vm_compute; reflexivity.
Qed.

(** C10, tried: the empty file [/srv/empty]. *)
Lemma C10_witness :
  exists r,
    Send.send Node.externals
      (Node.new (Node.GET []) "/empty" Node.under_srv)
      Node.res0 "/srv/empty" (Send.mkStats 0 5000 false)
    = Send.Piped r "/srv/empty" 0 0 /\
    Send.res_getHeader r "Content-Length" = Some "0" /\
    0 <= 0 /\
    exists len,
      0 = Z.max 0 (0 + len - 1) /\
      Send.res_getHeader r "Content-Length" = Some (Js.of_Z len) /\
      (len = 0 -> 0 = 0) /\
      ((0 = default 0 (Send.opt_start
                         (Send.options
                            (Node.new (Node.GET []) "/empty" Node.under_srv))) /\
        len = effective_len
                (Send.options (Node.new (Node.GET []) "/empty" Node.under_srv))
                (Send.mkStats 0 5000 false)) \/
       (exists type range,
          RangeParser.rangeParser
            (effective_len
               (Send.options (Node.new (Node.GET []) "/empty" Node.under_srv))
               (Send.mkStats 0 5000 false))
            (Js.String_
               (Send.req_headers
                  (Send.req (Node.new (Node.GET []) "/empty" Node.under_srv))
                !! "range")) true
          = RangeParser.Ranges type [range] /\
          0 = default 0 (Send.opt_start
                           (Send.options
                              (Node.new (Node.GET []) "/empty" Node.under_srv)))
              + RangeParser.start range /\
          len = RangeParser.end_ range - RangeParser.start range + 1)).
Proof.
  eexists. split; [vm_compute; reflexivity|].
  split; [vm_compute; reflexivity|].
  apply (C10_read_window_is_ordered Node.externals
           (Node.new (Node.GET []) "/empty" Node.under_srv)
           Node.res0 "/srv/empty" (Send.mkStats 0 5000 false)
           _ "/srv/empty" 0 0).
  vm_compute. reflexivity.
Defined.

(** ** Construction *)

Section ConstructorClaims.

Import Send.

Lemma normalizeList_inl val name t :
  normalizeList val name = inl t ->
  val = LBool true /\
  t = TypeError (name +:+ " must be array of strings or false").
Proof. destruct val as [[]|s|l]; simpl; intros [=]; by subst. Qed.

(** C9 (amended): a [dotfiles] option that is defined and is none of
    [allow], [deny], [ignore] makes the constructor throw the dotfiles
    [TypeError], whatever the other options are; the constructor takes neither
    the response nor the filesystem.  With the option left out or valid it
    never throws that error, and it returns a stream, whose [_dotfiles] is
    the option as given, as long as [extensions] and [index] are not [true]
    and [maxAge] is not the empty string. *)
Theorem C9_constructor_checks_dotfiles E req path options :
  (valid_dotfiles (opt_dotfiles options) = false ->
   constructor E req path options = inl (TypeError dotfiles_message)) /\
  (valid_dotfiles (opt_dotfiles options) = true ->
   constructor E req path options <> inl (TypeError dotfiles_message) /\
   (opt_extensions options <> Some (LBool true) ->
    opt_index options <> Some (LBool true) ->
    opt_maxAge options <> Some (MStr "") ->
    exists st,
      constructor E req path options = inr st /\
      _dotfiles st = opt_dotfiles options)).
Proof.
  unfold constructor.
  assert (Hbad :
    negb (String.eqb (default "ignore" (opt_dotfiles options)) "ignore")
    && negb (String.eqb (default "ignore" (opt_dotfiles options)) "allow")
    && negb (String.eqb (default "ignore" (opt_dotfiles options)) "deny")
    = negb (valid_dotfiles (opt_dotfiles options))).
  { unfold valid_dotfiles. destruct (opt_dotfiles options) as [d|]; simpl;
      [|done].
    by destruct (String.eqb d "ignore"), (String.eqb d "allow"),
         (String.eqb d "deny"). }
  rewrite Hbad. clear Hbad.
  destruct (valid_dotfiles (opt_dotfiles options)); simpl.
  { split; [done|]. intros _.
    destruct (match opt_extensions options with
              | Some v => normalizeList v "extensions option"
              | None => inr []
              end) as [t|extensions] eqn:Hext.
    { destruct (opt_extensions options) as [v|]; [|done].
      apply normalizeList_inl in Hext as [-> ->].
      split; [by vm_compute|]. by intros []. }
    destruct (match opt_index options with
              | Some v => normalizeList v "index option"
              | None => inr ["index.html"]
              end) as [t|index] eqn:Hidx.
    { destruct (opt_index options) as [v|]; [|done].
      apply normalizeList_inl in Hidx as [-> ->].
      split; [by vm_compute|]. by intros _ []. }
    destruct (opt_maxAge options) as [[m|n]|]; simpl.
    - destruct (String.eqb m "") eqn:Hm.
      + apply String.eqb_eq in Hm as ->.
        split; [done|]. by intros _ _ [].
      + split; [done|]. intros _ _ _. eexists. by split.
    - split; [done|]. intros _ _ _. eexists. by split.
    - split; [done|]. intros _ _ _. eexists. by split. }
  split; [done|]. by intros [=].
Qed.

End ConstructorClaims.

(** C9, tried: [dotfiles: "hide"] throws whatever else is asked, and
    [dotfiles: "deny"] gives a stream. *)
Lemma C9_witness :
  Send.constructor Node.externals (Node.GET []) "/a.txt"
    (Send.mkOptions None None (Some "hide") None None
       (Some (Send.LBool true)) None None (Some (Send.MStr "")) None None)
  = inl (Send.TypeError Send.dotfiles_message) /\
  exists st,
    Send.constructor Node.externals (Node.GET []) "/a.txt"
      (Send.mkOptions None None (Some "deny") None None None None None None
         (Some "/srv") None)
    = inr st /\
    Send._dotfiles st = Some "deny".
Proof.
  split.
  - apply (C9_constructor_checks_dotfiles Node.externals (Node.GET []) "/a.txt"
             (Send.mkOptions None None (Some "hide") None None
                (Some (Send.LBool true)) None None (Some (Send.MStr ""))
                None None)).
    reflexivity.
  - apply (C9_constructor_checks_dotfiles Node.externals (Node.GET []) "/a.txt"
             (Send.mkOptions None None (Some "deny") None None None None None
                None (Some "/srv") None)); [reflexivity|discriminate..].
Defined.

(** C9 as claimed fails: with [dotfiles] left out, [index: true] makes the
    constructor throw. *)
Lemma C9_counterexample :
  Send.constructor Node.externals (Node.GET []) "/a.txt"
    (Send.mkOptions None None None None None None (Some (Send.LBool true))
       None None None None)
  = inl (Send.TypeError "index option must be array of strings or false").
Proof. reflexivity. Qed.

(** ** Paths *)

Section PathClaims.

Import Send.

Lemma split_String c d s :
  Js.split c (String d s) =
  if Ascii.eqb c d then EmptyString :: Js.split c s
  else match Js.split c s with
       | [] => [String d EmptyString]
       | w :: ws => String d w :: ws
       end.
Proof. reflexivity. Qed.

Lemma split_cons c s : exists w ws, Js.split c s = w :: ws.
Proof.
  destruct s as [|d s]; [by eexists _, _|]. rewrite split_String.
  destruct (Ascii.eqb c d); [by eexists _, _|].
  destruct (Js.split c s); by eexists _, _.
Qed.

Lemma split_head_dot s ws :
  Js.split "/" s = "." :: ws ->
  s = "." \/ exists r, s = String "." (String "/" r).
Proof.
  destruct s as [|c s]; [intros [=]|]. rewrite split_String.
  destruct (Ascii.eqb "/" c) eqn:Hc; [intros [=]|].
  destruct (split_cons "/" s) as (w & ws' & Hs). rewrite Hs.
  intros [= -> -> ->].
  destruct s as [|d s]; [by left|]. right. rewrite split_String in Hs.
  destruct (Ascii.eqb "/" d) eqn:Hd.
  - apply Ascii.eqb_eq in Hd as <-. by eexists.
  - destruct (Js.split "/" s); by inversion Hs.
Qed.

(** A [..] component is what [UP_PATH_REGEXP] looks for. *)
Lemma up_path_from_split s :
  (forall w ws, Js.split "/" s = w :: ws -> ".." ∈ ws ->
                forall b, up_path_from b s = true) /\
  (forall ws, Js.split "/" s = ".." :: ws -> up_path_from true s = true).
Proof.
  induction s as [|c s [IH1 IH2]].
  { split; [|intros ws [=]]. intros w ws [= <- <-] Hin. by inversion Hin. }
  rewrite split_String. cbn [up_path_from].
  destruct (Ascii.eqb "/" c) eqn:Hc.
  - apply Ascii.eqb_eq in Hc as <-.
    destruct (split_cons "/" s) as (w' & ws' & Hs).
    split; [|intros ws [=]].
    intros w ws [= <- <-] Hin b. rewrite Hs in Hin.
    apply orb_true_iff. right.
    replace (is_slash "/") with true by reflexivity.
    apply elem_of_cons in Hin as [Hin|Hin].
    + subst w'. by eapply IH2.
    + by eapply IH1.
  - destruct (split_cons "/" s) as (w' & ws' & Hs). rewrite Hs.
    split.
    + intros w ws [= <- <-] Hin b. apply orb_true_iff. right. by eapply IH1.
    + intros ws [= -> -> ->].
      apply split_head_dot in Hs as [->|[r ->]]; reflexivity.
Qed.

Lemma dotdot_component_up_path p :
  dotdot_component p -> UP_PATH_REGEXP_test p = true.
Proof.
  unfold dotdot_component, UP_PATH_REGEXP_test. intros Hin.
  destruct (split_cons Path.sep p) as (w & ws & Hs). rewrite Hs in Hin.
  destruct (up_path_from_split p) as [H1 H2].
  apply elem_of_cons in Hin as [<-|Hin]; [by eapply H2|by eapply H1].
Qed.

Context (E : Externals) (fs : string -> stat_result).

(** What [pipe] does on a path that [UP_PATH_REGEXP] matches, after the
    normalization that a root brings. *)
Lemma pipe_up_path st res p :
  decode (path st) = Some p -> Js.indexOf_char "000" p = None ->
  UP_PATH_REGEXP_test
    (match _root st with Some _ => relative_to_root p | None => p end) = true ->
  pipe E fs st res = ([], error E st res 403 None).
Proof.
  intros Hd Hn Hup. unfold pipe. rewrite Hd, Hn.
  rewrite bool_decide_eq_false_2 by (by intros [? ?]).
  unfold relative_to_root in Hup.
  destruct (_root st) as [root|]; by rewrite Hup.
Qed.

(** C1 (amended): for a request whose decoded pathname has no NUL byte,
    [pipe] calls [error(403)] and stats nothing when, without a root, the
    pathname has a [..] component and when, under a root, the normalized
    relative path [./pathname] still has one, which is when the pathname
    climbs above the root.  With nobody listening for [error] the reply has
    status 403.  A [..] that normalization resolves under the root is not
    rejected. *)
Theorem C1_up_paths_are_forbidden st res p :
  decode (path st) = Some p -> Js.indexOf_char "000" p = None ->
  (_root st = None -> dotdot_component p ->
   pipe E fs st res = ([], error E st res 403 None)) /\
  (forall root, _root st = Some root ->
     dotdot_component (relative_to_root p) ->
     pipe E fs st res = ([], error E st res 403 None)) /\
  (forall msg, on_error st = false -> headersSent res = false ->
     STATUS_CODES E 403 = Some msg -> msg <> "" ->
     exists r body,
       error E st res 403 None = Ended r body /\ statusCode r = 403).
Proof.
  intros Hd Hn. split_and!.
  - intros Hr Hc. apply (pipe_up_path st res p Hd Hn). rewrite Hr.
    by apply dotdot_component_up_path.
  - intros root Hr Hc. apply (pipe_up_path st res p Hd Hn). rewrite Hr.
    by apply dotdot_component_up_path.
  - intros msg Hl Hs Hm Hne.
    rewrite (error_Ended E st res 403 None msg Hl Hs Hm Hne).
    by eexists _, _.
Qed.

(** C2: with the [dotfiles] option left out, [_dotfiles] is [undefined] and
    the switch of [pipe] falls to its [default]: a dot-directory anywhere in
    the path gives [error(404)] before any stat, on every platform and
    filesystem, as explicit [ignore] does.  Here the last segment
    [file.txt] is no dotfile, and on the file tree of [Node], where the file
    is there, the reply is a 404. *)
Theorem C2_legacy_dotfiles_404_under_dot_directory req res :
  (exists st,
     constructor E req "/.hidden/file.txt" Node.under_srv = inr st /\
     _dotfiles st = None /\
     pipe E fs st res = ([], error E st res 404 None)) /\
  (exists r body,
     Node.run (Node.GET []) "/.hidden/file.txt" Node.under_srv
     = inr ([], Ended r body) /\
     statusCode r = 404 /\
     Node.fs "/srv/.hidden/file.txt" = StatOk (mkStats 7 4000 false)).
Proof.
  split.
  - eexists. split_and!; reflexivity.
  - eexists _, _. split_and!; [vm_compute; reflexivity|reflexivity..].
Qed.

End PathClaims.

(** C1, tried: [/../etc/passwd] without a root, [/%2e%2e/etc/passwd] under
    [/srv]. *)
Lemma C1_witness :
  (Send.pipe Node.externals Node.fs
     (Node.new (Node.GET []) "/../etc/passwd" Send.no_options) Node.res0
   = ([], Send.error Node.externals
            (Node.new (Node.GET []) "/../etc/passwd" Send.no_options)
            Node.res0 403 None)) /\
  (Send.pipe Node.externals Node.fs
     (Node.new (Node.GET []) "/%2e%2e/etc/passwd" Node.under_srv) Node.res0
   = ([], Send.error Node.externals
            (Node.new (Node.GET []) "/%2e%2e/etc/passwd" Node.under_srv)
            Node.res0 403 None)) /\
  exists r body,
    Send.error Node.externals
      (Node.new (Node.GET []) "/%2e%2e/etc/passwd" Node.under_srv)
      Node.res0 403 None = Send.Ended r body /\
    Send.statusCode r = 403.
Proof.
  split_and!.
  - apply (C1_up_paths_are_forbidden Node.externals Node.fs
             (Node.new (Node.GET []) "/../etc/passwd" Send.no_options)
             Node.res0 "/../etc/passwd"); try reflexivity.
    vm_compute. set_solver.
  - apply (C1_up_paths_are_forbidden Node.externals Node.fs
             (Node.new (Node.GET []) "/%2e%2e/etc/passwd" Node.under_srv)
             Node.res0 "/../etc/passwd") with (root := "/srv");
      try reflexivity.
    vm_compute. set_solver.
  - apply (C1_up_paths_are_forbidden Node.externals Node.fs
             (Node.new (Node.GET []) "/%2e%2e/etc/passwd" Node.under_srv)
             Node.res0 "/../etc/passwd") with (msg := "Forbidden");
      try reflexivity.
    discriminate.
Defined.

(** C1 as claimed fails under a root: the decoded pathname [/a/../b] has a
    [..] component, and [pipe] stats [/srv/b] and serves it. *)
Lemma C1_counterexample :
  Send.decode "/a/../b" = Some "/a/../b" /\
  dotdot_component "/a/../b" /\
  exists r,
    Node.run (Node.GET []) "/a/../b" Node.under_srv
    = inr ([Send.EvStat "/srv/b"; Send.EvFile "/srv/b"],
           Send.Piped r "/srv/b" 0 2) /\
    Send.statusCode r = 200.
Proof.
  split_and!.
  - reflexivity.
  - vm_compute. set_solver.
  - eexists. split; [vm_compute; reflexivity|reflexivity].
Qed.

(** ** The legacy default of [dotfiles] *)

Section Legacy.

Import Send.

Context (E : Externals) (fs : string -> stat_result).

Lemma send_with_dotfiles d st res file stat :
  send E (with_dotfiles d st) res file stat = send E st res file stat.
Proof. reflexivity. Qed.

Lemma error_with_dotfiles d st res status err :
  error E (with_dotfiles d st) res status err = error E st res status err.
Proof. reflexivity. Qed.

Lemma sendFile_next_with_dotfiles d st res dir exts : forall err,
  sendFile_next E fs (with_dotfiles d st) res dir exts err
  = sendFile_next E fs st res dir exts err.
Proof.
  induction exts as [|ext exts IH]; intros err; simpl; [done|].
  destruct (fs _) as [c|stat]; [by rewrite IH|].
  destruct (isDirectory stat); by rewrite ?IH.
Qed.

Lemma sendIndex_next_with_dotfiles d st res dir names : forall err,
  sendIndex_next E fs (with_dotfiles d st) res dir names err
  = sendIndex_next E fs st res dir names err.
Proof.
  induction names as [|n names IH]; intros err; simpl; [done|].
  destruct (fs _) as [c|stat]; [by rewrite IH|].
  destruct (isDirectory stat); by rewrite ?IH.
Qed.

Lemma sendFile_with_dotfiles d st res file :
  sendFile E fs (with_dotfiles d st) res file = sendFile E fs st res file.
Proof.
  unfold sendFile.
  change (_extensions (with_dotfiles d st)) with (_extensions st).
  destruct (fs file) as [c|stat]; [|done].
  destruct (_ && _); [|done]. by rewrite sendFile_next_with_dotfiles.
Qed.

Lemma sendIndex_with_dotfiles d st res dir :
  sendIndex E fs (with_dotfiles d st) res dir = sendIndex E fs st res dir.
Proof.
  unfold sendIndex.
  change (_index (with_dotfiles d st)) with (_index st).
  apply sendIndex_next_with_dotfiles.
Qed.

(** X2: With [_dotfiles] left [undefined], [pipe] does on every request what it
    does under explicit [ignore]. *)
Lemma pipe_legacy_is_ignore st res :
  _dotfiles st = None ->
  pipe E fs st res = pipe E fs (with_dotfiles (Some "ignore") st) res.
Proof.
  intros Hd. unfold pipe.
  change (path (with_dotfiles (Some "ignore") st)) with (path st).
  change (_root (with_dotfiles (Some "ignore") st)) with (_root st).
  change (_dotfiles (with_dotfiles (Some "ignore") st)) with (Some "ignore").
  change (_index (with_dotfiles (Some "ignore") st)) with (_index st).
  change (hasTrailingSlash (with_dotfiles (Some "ignore") st))
    with (hasTrailingSlash st).
  rewrite Hd.
  destruct (decode (path st)) as [p|]; [|done].
  destruct (bool_decide _); [done|].
  match goal with
  | |- context [match ?x with Some _ => _ | None => ([], error _ _ _ 403 _) end] =>
      destruct x as [[parts file]|]
  end; [|done].
  rewrite sendIndex_with_dotfiles, sendFile_with_dotfiles.
  by destruct (containsDotFile parts).
Qed.

End Legacy.

(** ** Suffix ranges within the size *)

Section SuffixWithin.

Import RangeParser.

(** X3: A lone suffix range of at most [size] bytes gives the last [nnn]
    bytes. *)
Lemma rangeParser_suffix_within size d nnn combine :
  Js.indexOf_char "-" d = None -> Js.indexOf_char "," d = None ->
  Js.parseInt d = Some nnn -> 0 < nnn <= size ->
  rangeParser size ("bytes=-" +:+ d) combine
  = Ranges "bytes" [mkRange (size - nnn) (size - 1)].
Proof.
  intros Hd Hc Hp Hlt. unfold rangeParser.
  change ("bytes=-" +:+ d) with
    (String "b" (String "y" (String "t" (String "e" (String "s"
       (String "=" (String "-" d))))))).
  cbn [Js.indexOf_char Ascii.eqb Bool.eqb fmap option_fmap option_map
       Js.slice_from Js.slice_to].
  rewrite split_no_separator.
  2:{ cbn [Js.indexOf_char Ascii.eqb Bool.eqb]. by rewrite Hc. }
  cbn [omap list_omap]. unfold parse_item.
  cbn [Js.split Ascii.eqb Bool.eqb]. rewrite (split_no_separator _ d Hd).
  cbn [lookup list_lookup]. unfold Js.parseInt_opt. cbn [Js.String_].
  rewrite Hp. unfold parse_bounds.
  replace (Js.parseInt "") with (@None Z) by reflexivity.
  cbn [fmap option_fmap option_map].
  destruct (size - 1 >? size - 1) eqn:H1; [lia|].
  destruct (size - nnn >? size - 1) eqn:H2; [lia|].
  destruct (size - nnn <? 0) eqn:H3; [lia|]. simpl.
  by destruct combine.
Qed.

End SuffixWithin.

(** ** Content-Range and the status *)

Section ContentRange.

Import Send.

Context (E : Externals) (fs : string -> stat_result).

Lemma rule_without res :
  res_getHeader res "Content-Range" = None ->
  statusCode res <> 206 -> statusCode res <> 416 ->
  content_range_rule res.
Proof.
  intros Hcr H1 H2. unfold content_range_rule. rewrite Hcr. split.
  - by intros [? ?].
  - by intros [?|?].
Qed.

Lemma error_obeys st res status err :
  error_headers err = [] -> status <> 206 -> status <> 416 ->
  obeys (error E st res status err).
Proof.
  intros Hh H1 H2 r Hw.
  destruct (error E st res status err) as [r' body|r' f s e| | |] eqn:He;
    try done; simpl in Hw; subst r'.
  - apply rule_without.
    + by eapply error_no_content_range.
    + by rewrite (error_status _ _ _ _ _ _ _ He).
    + by rewrite (error_status _ _ _ _ _ _ _ He).
  - by apply error_not_Piped in He.
Qed.

Lemma error_416_obeys st res v :
  obeys (error E st res 416
           (Some (mkError None None (Some [("Content-Range", v)]) None None))).
Proof.
  intros r Hw.
  destruct (error _ _ _ _ _) as [r' body|r' f s e| | |] eqn:He;
    try done; simpl in Hw; subst r'.
  - unfold content_range_rule.
    rewrite (error_content_range _ _ _ _ _ _ _ He).
    rewrite (error_status _ _ _ _ _ _ _ He). split; [by right|by eexists].
  - by apply error_not_Piped in He.
Qed.

Lemma onStatError_obeys st res err :
  error_headers (Some err) = [] -> obeys (onStatError E st res err).
Proof.
  intros Hh. unfold onStatError.
  destruct (code err) as [c|]; [destruct (_ || _)|];
    by apply error_obeys.
Qed.

Lemma redirect_obeys st res dir :
  res_getHeader res "Content-Range" = None -> obeys (redirect E st res dir).
Proof.
  intros Hcr. unfold redirect.
  destruct (on_directory st); [by intros r []|].
  destruct (hasTrailingSlash st); [by apply error_obeys|].
  destruct (headersSent res); [by intros r []|].
  intros r <-. apply rule_without; [|done..].
  other_headers.
  by rewrite res_getHeader_status.
Qed.

Lemma send_body_obeys st res file offset len :
  content_range_rule res -> obeys (send_body st res file offset len).
Proof.
  intros Hrule r Hw. unfold send_body in Hw.
  assert (r = res_setHeader res "Content-Length" (Js.of_Z len)) as ->.
  { by destruct (String.eqb _ _). }
  unfold content_range_rule in *.
  rewrite res_getHeader_set. case_decide as Hk; [by vm_compute in Hk|].
  done.
Qed.

Lemma notModified_obeys res :
  res_getHeader res "Content-Range" = None -> obeys (notModified res).
Proof.
  intros Hcr r <-. apply rule_without; [|done..].
  rewrite res_getHeader_status.
  unfold res_getHeader, removeContentHeaderFields in *.
  rewrite fold_removeContent_lookup. by destruct (existsb _ _).
Qed.

Lemma send_obeys st res file stat :
  on_headers st = [] ->
  res_getHeader res "Content-Range" = None ->
  statusCode res <> 206 -> statusCode res <> 416 ->
  obeys (send E st res file stat).
Proof.
  intros Hh Hcr H1 H2. rewrite send_eq.
  destruct (prepared_frame E st res file stat Hh) as [Hst Hpcr].
  rewrite Hcr in Hpcr.
  assert (Hrule : content_range_rule (prepared E st res file stat)).
  { apply rule_without; [done|by rewrite Hst..]. }
  destruct (headersSent res); [by apply error_obeys|].
  destruct (isConditionalGET st && isPreconditionFailure _ _ _);
    [by apply error_obeys|].
  destruct (isConditionalGET st && _); [by apply notModified_obeys|].
  destruct (_acceptRanges st && _); [|by apply send_body_obeys].
  destruct (isRangeFresh _ _ _); [|by apply send_body_obeys].
  destruct (RangeParser.rangeParser _ _ _) as [| |type ranges];
    [by apply send_body_obeys|apply error_416_obeys|].
  destruct ranges as [|range [|]]; try by apply send_body_obeys.
  apply send_body_obeys. unfold content_range_rule.
  rewrite res_getHeader_set_eq. split; [by left|by eexists].
Qed.

Lemma sendFile_next_obeys st res dir exts : forall err,
  on_headers st = [] ->
  res_getHeader res "Content-Range" = None ->
  statusCode res <> 206 -> statusCode res <> 416 ->
  error_headers err = [] ->
  obeys (sendFile_next E fs st res dir exts err).2.
Proof.
  induction exts as [|ext exts IH]; intros err Hh Hcr H1 H2 He; simpl.
  - destruct err as [e|]; [|by apply error_obeys].
    by apply onStatError_obeys.
  - destruct (fs _) as [c|stat].
    + specialize (IH (Some (stat_error c)) Hh Hcr H1 H2 eq_refl).
      by destruct (sendFile_next _ _ _ _ _ _ _).
    + destruct (isDirectory stat).
      * specialize (IH None Hh Hcr H1 H2 eq_refl).
        by destruct (sendFile_next _ _ _ _ _ _ _).
      * by apply send_obeys.
Qed.

Lemma sendIndex_next_obeys st res dir names : forall err,
  on_headers st = [] ->
  res_getHeader res "Content-Range" = None ->
  statusCode res <> 206 -> statusCode res <> 416 ->
  error_headers err = [] ->
  obeys (sendIndex_next E fs st res dir names err).2.
Proof.
  induction names as [|n names IH]; intros err Hh Hcr H1 H2 He; simpl.
  - destruct err as [e|]; [|by apply error_obeys].
    by apply onStatError_obeys.
  - destruct (fs _) as [c|stat].
    + specialize (IH (Some (stat_error c)) Hh Hcr H1 H2 eq_refl).
      by destruct (sendIndex_next _ _ _ _ _ _ _).
    + destruct (isDirectory stat).
      * specialize (IH None Hh Hcr H1 H2 eq_refl).
        by destruct (sendIndex_next _ _ _ _ _ _ _).
      * by apply send_obeys.
Qed.

Lemma sendFile_obeys st res file :
  on_headers st = [] ->
  res_getHeader res "Content-Range" = None ->
  statusCode res <> 206 -> statusCode res <> 416 ->
  obeys (sendFile E fs st res file).2.
Proof.
  intros Hh Hcr H1 H2. unfold sendFile.
  destruct (fs file) as [c|stat].
  - destruct (_ && _).
    + pose proof (sendFile_next_obeys st res file (_extensions st)
                    (Some (stat_error c)) Hh Hcr H1 H2 eq_refl).
      by destruct (sendFile_next _ _ _ _ _ _ _).
    + by apply onStatError_obeys.
  - destruct (isDirectory stat); [by apply redirect_obeys|by apply send_obeys].
Qed.

(** C7: on a response that came without Content-Range and with a status
    other than 206 and 416, and with no [headers] listener, whatever [pipe]
    writes carries Content-Range exactly when its status is 206 or 416. *)
Theorem C7_content_range_iff_206_or_416 st res r :
  on_headers st = [] ->
  res_getHeader res "Content-Range" = None ->
  statusCode res <> 206 -> statusCode res <> 416 ->
  writes (pipe E fs st res).2 r ->
  (is_Some (res_getHeader r "Content-Range") <->
   statusCode r = 206 \/ statusCode r = 416).
Proof.
  intros Hh Hcr H1 H2. revert r. change (obeys (pipe E fs st res).2).
  unfold pipe.
  destruct (decode (path st)) as [p|]; [|by apply error_obeys].
  destruct (bool_decide _); [by apply error_obeys|].
  match goal with
  | |- context [match ?x with Some _ => _ | None => ([], error _ _ _ 403 _) end] =>
      destruct x as [[parts file]|]
  end; [|by apply error_obeys].
  match goal with
  | |- context [match ?x with Some _ => _ | None => _ end] =>
      destruct x as [status|] eqn:Hdot
  end.
  - simpl. apply error_obeys; [done|..];
      destruct (containsDotFile parts); [|done| |done];
      destruct (_dotfiles st) as [access|]; try (by inversion Hdot);
      destruct (String.eqb access "allow"); try done;
      destruct (String.eqb access "deny"); by inversion Hdot.
  - destruct (_ && _).
    + by apply sendIndex_next_obeys.
    + by apply sendFile_obeys.
Qed.

End ContentRange.

(** C7, tried: [Range: bytes=1-3] on [/srv/a.txt] gives a 206 with
    Content-Range. *)
Lemma C7_witness :
  exists r,
    writes (Send.pipe Node.externals Node.fs
              (Node.new (Node.GET [("range", "bytes=1-3")]) "/a.txt"
                 Node.under_srv) Node.res0).2 r /\
    Send.statusCode r = 206 /\
    (is_Some (Send.res_getHeader r "Content-Range") <->
     Send.statusCode r = 206 \/ Send.statusCode r = 416).
Proof.
  eexists. split; [vm_compute; reflexivity|]. split; [reflexivity|].
  apply (C7_content_range_iff_206_or_416 Node.externals Node.fs
           (Node.new (Node.GET [("range", "bytes=1-3")]) "/a.txt"
              Node.under_srv) Node.res0).
  - reflexivity.
  - reflexivity.
  - by vm_compute.
  - by vm_compute.
  - vm_compute. reflexivity.
Defined.

(** C7 as claimed fails on a response that arrives with the status 206: a
    plain GET of [/srv/a.txt] is answered with that status, which [send]
    leaves alone, and without Content-Range. *)
Lemma C7_counterexample :
  exists r,
    Send.pipe Node.externals Node.fs
      (Node.new (Node.GET []) "/a.txt" Node.under_srv)
      (Send.mkResponse 206 ∅ false)
    = ([Send.EvStat "/srv/a.txt"; Send.EvFile "/srv/a.txt"],
       Send.Piped r "/srv/a.txt" 0 5) /\
    Send.statusCode r = 206 /\
    Send.res_getHeader r "Content-Range" = None /\
    ~ (is_Some (Send.res_getHeader r "Content-Range") <->
       Send.statusCode r = 206 \/ Send.statusCode r = 416).
Proof.
  eexists. split; [vm_compute; reflexivity|].
  split; [reflexivity|]. split; [reflexivity|].
  intros [_ H]. destruct H as [v Hv]; [by left|]. discriminate.
Qed.

(** ** The order of combined ranges *)

Section CombinedOrder.

Import RangeParser.

(** C8: [combineRanges] takes the smaller index only when a range extends
    the current one.  In [bytes=5-6,20-30,0-10] the range [5-6], first in the
    header, is swallowed by [0-10], which keeps the index 2: the combined
    array has [20-30] before [0-10], so the range that holds the client's
    first range comes second. *)
Theorem C8_combined_order_ignores_swallowed_range :
  rangeParser 100 "bytes=5-6,20-30,0-10" false
  = Ranges "bytes" [mkRange 5 6; mkRange 20 30; mkRange 0 10] /\
  rangeParser 100 "bytes=5-6,20-30,0-10" true
  = Ranges "bytes" [mkRange 20 30; mkRange 0 10] /\
  client_position [mkRange 5 6; mkRange 20 30; mkRange 0 10]
    <$> [mkRange 20 30; mkRange 0 10]
  = [Some 1%nat; Some 0%nat].
Proof. split_and!; vm_compute; reflexivity. Qed.

End CombinedOrder.

(** ** More on the range parser *)

Section RangeParserMore.

Import RangeParser.

Lemma combine_loop_nonempty rest : forall done current,
  combine_loop done current rest <> [].
Proof.
  induction rest as [|range rest IH]; intros done current; simpl.
  - intros H. by apply app_eq_nil in H as [_ ?].
  - destruct (_ >? _); [apply IH|]. destruct (_ >? _); apply IH.
Qed.

Lemma combineRanges_nonempty ranges : ranges <> [] -> combineRanges ranges <> [].
Proof.
  intros Hne. unfold combineRanges.
  pose proof (sort_by_perm istart (imap (fun i r => mapWithIndex r i) ranges))
    as Hp.
  fold (sortByRangeStart (imap (fun i r => mapWithIndex r i) ranges)) in Hp |- *.
  destruct (sortByRangeStart _) as [|current rest].
  { apply Permutation_nil in Hp. destruct ranges; [done|by inversion Hp]. }
  intros H. apply fmap_nil_inv in H.
  pose proof (sort_by_perm (fun r => Z.of_nat (index r))
                (combine_loop [] current rest)) as Hp'.
  fold (sortByRangeIndex (combine_loop [] current rest)) in Hp'.
  rewrite H in Hp'. apply Permutation_nil in Hp'.
  by apply combine_loop_nonempty in Hp'.
Qed.

Lemma rangeParser_Ranges_inv size str combine type ranges :
  rangeParser size str combine = Ranges type ranges ->
  ranges <> [] /\ Forall (within size) ranges /\ 0 < size.
Proof.
  unfold rangeParser. destruct (Js.indexOf_char "=" str) as [index|]; [|done].
  set (parsed := omap _ _).
  assert (Hw : Forall (within size) parsed).
  { apply Forall_forall. intros r Hr.
    apply list_elem_of_omap in Hr as (item & _ & Hitem).
    by eapply parse_item_within. }
  destruct parsed as [|r0 parsed'] eqn:Hparsed; [done|].
  intros [= <- <-].
  assert (H : (if combine then combineRanges (r0 :: parsed') else r0 :: parsed')
              <> [] /\
              Forall (within size)
                (if combine then combineRanges (r0 :: parsed') else r0 :: parsed')).
  { destruct combine; [|done]. split.
    - by apply combineRanges_nonempty.
    - by apply combineRanges_apart. }
  destruct H as [Hne Hall]. split_and!; [done|done|].
  destruct (if combine then _ else _) as [|r rs]; [done|].
  inversion Hall as [|? ? Hr _]; subst. unfold within in Hr. lia.
Qed.

Lemma icovered_perm l1 l2 x : l1 ≡ₚ l2 -> icovered l1 x <-> icovered l2 x.
Proof.
  intros Hp. unfold icovered. split; intros (r & Hin & Hx); exists r;
    (split; [|done]); [by rewrite <- Hp|by rewrite Hp].
Qed.

(** The merging loop neither drops nor adds a byte. *)
Lemma combine_loop_covered x rest : forall done current,
  Forall (fun r => istart current <= istart r) rest ->
  StronglySorted (fun a b => istart a <= istart b) rest ->
  icovered (combine_loop done current rest) x <->
  icovered (done ++ current :: rest) x.
Proof.
  induction rest as [|range rest IH]; intros done current Hle Hso; simpl.
  - apply icovered_perm. rewrite <- Permutation_rev.
    by rewrite Permutation_cons_append.
  - inversion Hle as [|? ? Hle1 Hle']; subst.
    inversion Hso as [|? ? Hso' Hfirst]; subst.
    destruct (istart range >? iend current + 1) eqn:Hnext.
    + rewrite IH by done. apply icovered_perm.
      change (current :: done) with ([current] ++ done).
      rewrite (Permutation_app_comm [current] done).
      by rewrite <- app_assoc.
    + destruct (iend range >? iend current) eqn:Hext.
      * rewrite IH; [|simpl; eapply Forall_impl; [exact Hfirst|];
                       simpl; intros; lia|done].
        unfold icovered. split.
        -- intros (r & Hin & Hx).
           apply elem_of_app in Hin as [Hin|Hin].
           { exists r. split; [|done]. apply elem_of_app. by left. }
           apply elem_of_cons in Hin as [->|Hin].
           ++ simpl in Hx. destruct (decide (x <= iend current)).
              ** exists current. split; [|lia].
                 apply elem_of_app. right. by left.
              ** exists range. split; [|lia].
                 apply elem_of_app. right. right. by left.
           ++ exists r. split; [|done].
              apply elem_of_app. right. right. by right.
        -- intros (r & Hin & Hx).
           apply elem_of_app in Hin as [Hin|Hin].
           { exists r. split; [|done]. apply elem_of_app. by left. }
           apply elem_of_cons in Hin as [->|Hin].
           { eexists. split; [apply elem_of_app; right; by left|].
             simpl. lia. }
           apply elem_of_cons in Hin as [->|Hin].
           { eexists. split; [apply elem_of_app; right; by left|].
             simpl. lia. }
           exists r. split; [|done]. apply elem_of_app. right. by right.
      * rewrite IH; [|eapply Forall_impl; [exact Hfirst|];
                       simpl; intros; lia|done].
        unfold icovered. split.
        -- intros (r & Hin & Hx). exists r. split; [|done].
           apply elem_of_app in Hin as [Hin|Hin];
             [apply elem_of_app; by left|].
           apply elem_of_cons in Hin as [->|Hin];
             apply elem_of_app; right; [by left|by do 2 right].
        -- intros (r & Hin & Hx).
           apply elem_of_app in Hin as [Hin|Hin].
           { exists r. split; [|done]. apply elem_of_app. by left. }
           apply elem_of_cons in Hin as [->|Hin].
           { exists current. split; [|done]. apply elem_of_app. right. by left. }
           apply elem_of_cons in Hin as [->|Hin].
           { exists current. split; [apply elem_of_app; right; by left|]. lia. }
           exists r. split; [|done]. apply elem_of_app. right. by right.
Qed.

Lemma covered_fmap l x :
  covered (mapWithoutIndex <$> l) x <-> icovered l x.
Proof.
  unfold covered, icovered. split.
  - intros (r & Hin & Hx). apply list_elem_of_fmap in Hin as (r' & -> & Hin).
    by exists r'.
  - intros (r & Hin & Hx). exists (mapWithoutIndex r). split; [|done].
    by apply list_elem_of_fmap_2.
Qed.

Lemma icovered_imap ranges x :
  icovered (imap (fun i r => mapWithIndex r i) ranges) x <-> covered ranges x.
Proof.
  unfold covered, icovered. split.
  - intros (r & Hin & Hx).
    apply elem_of_lookup_imap in Hin as (i & r' & -> & Hr).
    exists r'. split; [by eapply list_elem_of_lookup_2|done].
  - intros (r & Hin & Hx).
    apply list_elem_of_lookup in Hin as [i Hi].
    exists (mapWithIndex r i). split; [|done].
    by apply (elem_of_lookup_imap_2 (fun i r => mapWithIndex r i)).
Qed.

Lemma combineRanges_covered ranges x :
  covered (combineRanges ranges) x <-> covered ranges x.
Proof.
  unfold combineRanges.
  set (indexed := imap (fun i r => mapWithIndex r i) ranges).
  pose proof (sort_by_perm istart indexed) as Hp.
  pose proof (sort_by_sorted istart indexed) as Hs.
  fold (sortByRangeStart indexed) in Hp, Hs |- *.
  rewrite <- (icovered_imap ranges x). fold indexed.
  rewrite <- (icovered_perm _ _ x Hp).
  destruct (sortByRangeStart indexed) as [|current rest].
  { unfold covered, icovered. split; intros (r & Hin & _); by inversion Hin. }
  inversion Hs as [|? ? Hs' Hle]; subst.
  rewrite covered_fmap.
  rewrite (icovered_perm _ _ x
             (sort_by_perm (fun r => Z.of_nat (index r))
                (combine_loop [] current rest))).
  by rewrite combine_loop_covered.
Qed.

(** X4: Whatever [combine] is, the array [rangeParser] returns is not empty and
    each of its ranges satisfies [0 <= start <= end < size]; so a [size] of 0 or
    less never yields ranges. *)
Theorem rangeParser_ranges_within size str combine type ranges :
  rangeParser size str combine = Ranges type ranges ->
  ranges <> [] /\ Forall (within size) ranges /\ 0 < size.
Proof. apply rangeParser_Ranges_inv. Qed.

(** X5: [combineRanges] asks for the same bytes as the ranges it is given: a
    position lies in one of the combined ranges exactly when it lies in one
    of the given ones. *)
Theorem combineRanges_covers_same_bytes ranges x :
  covered (combineRanges ranges) x <-> covered ranges x.
Proof. apply combineRanges_covered. Qed.

End RangeParserMore.
Section RangeParserStrings.

Import RangeParser.

(** X6: With [combine] the parser asks for the bytes it asks for without:
    combining changes the ranges, not the set of positions they hold. *)
Theorem rangeParser_combine_same_bytes size str type ranges :
  rangeParser size str true = Ranges type ranges ->
  exists ranges0,
    rangeParser size str false = Ranges type ranges0 /\
    forall x, covered ranges x <-> covered ranges0 x.
Proof.
  unfold rangeParser. destruct (Js.indexOf_char "=" str) as [index|]; [|done].
  destruct (omap _ _) as [|r0 parsed]; [done|].
  intros [= <- <-]. eexists. split; [done|].
  intros x. apply combineRanges_covered.
Qed.

Lemma indexOf_char_app_None c a b :
  Js.indexOf_char c a = None -> Js.indexOf_char c b = None ->
  Js.indexOf_char c (a +:+ b) = None.
Proof.
  intros Ha Hb. induction a as [|d a IH]; simpl in *; [done|].
  destruct (Ascii.eqb c d); [done|].
  destruct (Js.indexOf_char c a); [done|]. by rewrite IH.
Qed.

Lemma split_app_separator c a b :
  Js.indexOf_char c a = None ->
  Js.split c (a +:+ String c b) = a :: Js.split c b.
Proof.
  intros Ha. induction a as [|d a IH].
  - simpl. by rewrite Ascii.eqb_refl.
  - change (String d a +:+ String c b) with (String d (a +:+ String c b)).
    rewrite split_String. simpl in Ha.
    destruct (Ascii.eqb c d); [done|].
    destruct (Js.indexOf_char c a); [done|]. by rewrite IH.
Qed.

Lemma digits_nonneg s : forall acc, 0 <= acc -> 0 <= Js.digits acc s.
Proof.
  induction s as [|c s IH]; intros acc Hacc; simpl; [done|].
  unfold Js.digit.
  destruct ((48 <=? Z.of_nat (nat_of_ascii c))
            && (Z.of_nat (nat_of_ascii c) <=? 57)) eqn:Hd; [|done].
  apply andb_true_iff in Hd as [H1 H2]. apply IH. lia.
Qed.

Lemma skip_white_no_char c s :
  Js.indexOf_char c s = None -> Js.indexOf_char c (Js.skip_white s) = None.
Proof.
  induction s as [|d s IH]; simpl; [done|].
  destruct (Js.is_white d).
  - destruct (Ascii.eqb c d); [done|].
    destruct (Js.indexOf_char c s); [done|]. intros _. by apply IH.
  - done.
Qed.

(** A number read from a string without [-] is not negative. *)
Lemma parseInt_nonneg s n :
  Js.indexOf_char "-" s = None -> Js.parseInt s = Some n -> 0 <= n.
Proof.
  intros Hs. apply (skip_white_no_char "-") in Hs.
  unfold Js.parseInt. destruct (Js.skip_white s) as [|c r] eqn:Hw; [done|].
  assert (Hc : c <> "-"%char).
  { intros ->. by simpl in Hs. }
  assert (Hgo : forall s2 : string,
            (if Js.starts_with_digit s2 then Some (1 * Js.digits 0 s2)
             else None) = Some n -> 0 <= n).
  { intros s2. destruct (Js.starts_with_digit s2); [|done].
    intros [= <-]. pose proof (digits_nonneg s2 0). lia. }
  destruct c as [[] [] [] [] [] [] [] []]; try done; apply Hgo.
Qed.

(** X7: One range [a-b] with both positions given, or with the last one left
    out: the last position is cut at [size - 1], and the range is dropped,
    which gives -1, exactly when the first position lies beyond that. *)
Theorem rangeParser_single_range size a b s combine :
  Js.indexOf_char "-" a = None -> Js.indexOf_char "," a = None ->
  Js.indexOf_char "-" b = None -> Js.indexOf_char "," b = None ->
  Js.parseInt a = Some s ->
  rangeParser size ("bytes=" +:+ a +:+ "-" +:+ b) combine =
  let last := match Js.parseInt b with
              | Some e => Z.min e (size - 1)
              | None => size - 1
              end in
  if s <=? last then Ranges "bytes" [mkRange s last] else Unsatisfiable.
Proof.
  intros Ha Hac Hb Hbc Hs.
  pose proof (parseInt_nonneg a s Ha Hs) as H0.
  unfold rangeParser.
  change ("bytes=" +:+ a +:+ "-" +:+ b) with
    (String "b" (String "y" (String "t" (String "e" (String "s"
       (String "=" (a +:+ String "-" b))))))).
  cbn [Js.indexOf_char Ascii.eqb Bool.eqb fmap option_fmap option_map
       Js.slice_from Js.slice_to].
  rewrite split_no_separator.
  2:{ apply indexOf_char_app_None; [done|].
      cbn [Js.indexOf_char Ascii.eqb Bool.eqb]. by rewrite Hbc. }
  cbn [omap list_omap]. unfold parse_item.
  rewrite (split_app_separator "-" a b Ha), (split_no_separator _ b Hb).
  cbn [lookup list_lookup]. unfold Js.parseInt_opt. cbn [Js.String_].
  rewrite Hs. unfold parse_bounds.
  destruct (Js.parseInt b) as [e|]; cbn zeta.
  - destruct (e >? size - 1) eqn:He.
    + replace (Z.min e (size - 1)) with (size - 1) by lia.
      destruct (s >? size - 1) eqn:H1; destruct (s <? 0) eqn:H2;
        destruct (s <=? size - 1) eqn:H3; try lia; simpl; try done.
      by destruct combine.
    + replace (Z.min e (size - 1)) with e by lia.
      destruct (s >? e) eqn:H1; destruct (s <? 0) eqn:H2;
        destruct (s <=? e) eqn:H3; try lia; simpl; try done.
      by destruct combine.
  - destruct (size - 1 >? size - 1) eqn:He; [lia|].
    destruct (s >? size - 1) eqn:H1; destruct (s <? 0) eqn:H2;
      destruct (s <=? size - 1) eqn:H3; try lia; simpl; try done.
    by destruct combine.
Qed.

End RangeParserStrings.
(** ** The token list *)

Section TokenList.

Import Send.

Lemma append_String x (a b : string) : String x a +:+ b = String x (a +:+ b).
Proof. reflexivity. Qed.

Lemma append_nil_l (a : string) : "" +:+ a = a.
Proof. reflexivity. Qed.

Lemma append_assoc (a b c : string) : (a +:+ b) +:+ c = a +:+ (b +:+ c).
Proof.
  induction a as [|x a IH]; [done|]. by rewrite !append_String, IH.
Qed.

Lemma append_nil_r (a : string) : a +:+ "" = a.
Proof. induction a as [|x a IH]; [done|]. by rewrite append_String, IH. Qed.

Lemma length_append (a b : string) :
  String.length (a +:+ b) = (String.length a + String.length b)%nat.
Proof.
  induction a as [|x a IH]; [done|]. rewrite append_String. simpl.
  by rewrite IH.
Qed.

Lemma length_spaces n : String.length (spaces n) = n.
Proof. induction n; simpl; [done|]. by f_equal. Qed.

Lemma spaces_snoc n : spaces n +:+ " " = spaces (S n).
Proof.
  induction n as [|n IH]; [done|].
  change (spaces (S n)) with (String " " (spaces n)).
  by rewrite append_String, IH.
Qed.

Lemma substring_front (cur z : string) :
  String.substring 0 (String.length cur) (cur +:+ z) = cur.
Proof.
  induction cur as [|y cur IH].
  - rewrite append_nil_l. by destruct z.
  - rewrite append_String. simpl. by rewrite IH.
Qed.

Lemma substring_middle (a cur z : string) :
  String.substring (String.length a) (String.length cur) (a +:+ cur +:+ z)
  = cur.
Proof.
  induction a as [|x a IH]; [|rewrite append_String; exact IH].
  rewrite append_nil_l. apply substring_front.
Qed.

(** The loop over indices reads the same tokens as [tokens_from]. *)
Lemma parseTokenList_loop_tokens rest : forall a cur sp,
  (cur = "" -> sp = O) ->
  parseTokenList_loop (a +:+ cur +:+ spaces sp +:+ rest) rest
    (String.length a + String.length cur + sp) (String.length a)
    (String.length a + String.length cur)
  = tokens_from cur sp rest.
Proof.
  induction rest as [|c rest IH]; intros a cur sp Hsp.
  - cbn [parseTokenList_loop tokens_from]. f_equal.
    replace (String.length a + String.length cur - String.length a)%nat
      with (String.length cur) by lia.
    apply substring_middle.
  - cbn [parseTokenList_loop tokens_from].
    destruct (Ascii.eqb c " ") eqn:Hc.
    + apply Ascii.eqb_eq in Hc as ->.
      destruct (String.eqb cur "") eqn:Hcur.
      * apply String.eqb_eq in Hcur as ->. rewrite (Hsp eq_refl).
        simpl String.length. rewrite Nat.add_0_r, Nat.eqb_refl.
        specialize (IH (a +:+ " ") "" O (fun _ => eq_refl)).
        rewrite length_append in IH. simpl in IH.
        rewrite !Nat.add_0_r in IH.
        replace (String.length a + 1)%nat with (S (String.length a)) in IH
          by lia.
        rewrite <- IH. f_equal; try lia. by rewrite !append_assoc.
      * apply String.eqb_neq in Hcur.
        destruct (String.length a =? String.length a + String.length cur)%nat
          eqn:Hlen.
        { apply Nat.eqb_eq in Hlen. destruct cur; [done|]. simpl in Hlen. lia. }
        specialize (IH a cur (S sp) ltac:(done)).
        replace (String.length a + String.length cur + S sp)%nat
          with (S (String.length a + String.length cur + sp)) in IH by lia.
        rewrite <- IH. f_equal; try lia.
        by rewrite <- spaces_snoc, !append_assoc.
    + destruct (Ascii.eqb c ",") eqn:Hcomma.
      * apply Ascii.eqb_eq in Hcomma as ->. f_equal.
        -- replace (String.length a + String.length cur - String.length a)%nat
             with (String.length cur) by lia.
           apply substring_middle.
        -- specialize (IH (a +:+ cur +:+ spaces sp +:+ ",") "" O
                         (fun _ => eq_refl)).
           rewrite !length_append, length_spaces in IH. simpl in IH.
           rewrite !Nat.add_0_r in IH.
           replace (String.length a + (String.length cur + (sp + 1)))%nat
             with (S (String.length a + String.length cur + sp)) in IH by lia.
           rewrite <- IH. f_equal; try lia. by rewrite !append_assoc.
      * specialize (IH a (cur +:+ spaces sp +:+ String c "") O
                      (fun _ => eq_refl)).
        rewrite !length_append, length_spaces in IH. simpl in IH.
        rewrite !Nat.add_0_r in IH.
        replace (String.length a + (String.length cur + (sp + 1)))%nat
          with (S (String.length a + String.length cur + sp)) in IH by lia.
        rewrite <- IH. f_equal; try lia. by rewrite !append_assoc.
Qed.

Lemma parseTokenList_tokens str : parseTokenList str = tokens_from "" 0 str.
Proof.
  unfold parseTokenList.
  exact (parseTokenList_loop_tokens str "" "" O (fun _ => eq_refl)).
Qed.

Lemma tokens_from_length rest : forall cur sp,
  length (tokens_from cur sp rest) = S (commas rest).
Proof.
  induction rest as [|c rest IH]; intros cur sp; simpl; [done|].
  destruct (Ascii.eqb c " ") eqn:Hc.
  - apply Ascii.eqb_eq in Hc as ->. simpl.
    destruct (String.eqb cur ""); apply IH.
  - destruct (Ascii.eqb c ","); simpl; by rewrite IH.
Qed.

Lemma ends_with_snoc (a : string) c d :
  Path.ends_with d (a +:+ String c "") = Ascii.eqb c d.
Proof.
  induction a as [|x a IH]; [done|]. rewrite append_String.
  destruct (a +:+ String c "") eqn:Ha; [by destruct a|].
  exact IH.
Qed.

Lemma indexOf_char_spaces c n :
  c <> " "%char -> Js.indexOf_char c (spaces n) = None.
Proof.
  intros Hc. induction n as [|n IH]; simpl; [done|].
  apply Ascii.eqb_neq in Hc. rewrite Hc. by rewrite IH.
Qed.

Lemma tokens_from_trimmed rest : forall cur sp,
  (cur = "" -> sp = O) ->
  trimmed_token cur -> Forall trimmed_token (tokens_from cur sp rest).
Proof.
  assert (Hnil : trimmed_token "") by (split_and!; done).
  induction rest as [|c rest IH]; intros cur sp Hsp Hcur; simpl.
  { by constructor. }
  destruct (Ascii.eqb c " ") eqn:Hc.
  { destruct (String.eqb cur "") eqn:He; apply IH; try done.
    apply String.eqb_neq in He. done. }
  destruct (Ascii.eqb c ",") eqn:Hcomma.
  { constructor; [done|]. by apply IH. }
  apply IH; [done|]. destruct Hcur as (H1 & H2 & H3). split_and!.
  - rewrite <- append_assoc.
    apply indexOf_char_app_None; [apply indexOf_char_app_None; [done|]|].
    + by apply indexOf_char_spaces.
    + cbn [Js.indexOf_char]. by rewrite Ascii.eqb_sym, Hcomma.
  - intros r Hr. destruct cur as [|x cur].
    + rewrite (Hsp eq_refl) in Hr. injection Hr as -> _.
      by rewrite Ascii.eqb_refl in Hc.
    + rewrite append_String in Hr. injection Hr as -> _. by eapply H2.
  - by rewrite <- append_assoc, ends_with_snoc.
Qed.

(** X8: [parseTokenList] cuts the string at its commas: there is one token more
    than there are commas, no token holds a comma, and none starts or ends
    with a space. *)
Theorem parseTokenList_trimmed str :
  length (parseTokenList str) = S (commas str) /\
  Forall trimmed_token (parseTokenList str).
Proof.
  rewrite parseTokenList_tokens. split.
  - apply tokens_from_length.
  - apply tokens_from_trimmed; [done|]. by split_and!.
Qed.

End TokenList.
(** ** Leading slashes *)

Section LeadingSlashes.

Import Send.

Lemma count_leading_String c d s :
  count_leading c (String d s) =
  if Ascii.eqb c d then S (count_leading c s) else O.
Proof. reflexivity. Qed.

Lemma after_slashes_slash s : after_slashes (String "/" s) = after_slashes s.
Proof. reflexivity. Qed.

Lemma after_slashes_other c s :
  c <> "/"%char -> after_slashes (String c s) = String c s.
Proof.
  intros Hc. unfold after_slashes. rewrite count_leading_String.
  replace (Ascii.eqb "/" c) with false; [done|].
  symmetry. apply Ascii.eqb_neq. congruence.
Qed.

Lemma after_slashes_no_slash s r : after_slashes s <> String "/" r.
Proof.
  induction s as [|c s IH]; [done|].
  destruct (Ascii.eqb_spec c "/") as [->|Hc].
  - by rewrite after_slashes_slash.
  - rewrite after_slashes_other by done. congruence.
Qed.

Lemma collapseLeadingSlashes_slashes s :
  collapseLeadingSlashes (String "/" (String "/" s))
  = String "/" (after_slashes s).
Proof. reflexivity. Qed.

Lemma collapseLeadingSlashes_keeps str :
  (forall r, str <> String "/" (String "/" r)) ->
  collapseLeadingSlashes str = str.
Proof.
  intros Hs. unfold collapseLeadingSlashes.
  destruct str as [|c s]; [done|]. rewrite count_leading_String.
  destruct (Ascii.eqb_spec "/" c) as [<-|Hc]; [|done].
  destruct s as [|d s]; [done|]. rewrite count_leading_String.
  destruct (Ascii.eqb_spec "/" d) as [<-|Hd]; [|done].
  by destruct (Hs s).
Qed.

(** X9: [collapseLeadingSlashes] keeps one slash of a run of leading slashes and
    everything behind the run: the result never starts with two slashes, a
    string with at most one leading slash is returned as it is, and collapsing
    twice changes nothing more. *)
Theorem collapseLeadingSlashes_one_slash str :
  collapseLeadingSlashes str =
    (if Path.isAbsolute str then "/" else "") +:+ after_slashes str /\
  (forall r, collapseLeadingSlashes str <> String "/" (String "/" r)) /\
  ((forall r, str <> String "/" (String "/" r)) ->
   collapseLeadingSlashes str = str) /\
  collapseLeadingSlashes (collapseLeadingSlashes str)
  = collapseLeadingSlashes str.
Proof.
  assert (Hform : collapseLeadingSlashes str =
            (if Path.isAbsolute str then "/" else "") +:+ after_slashes str).
  { destruct str as [|c s]; [done|].
    destruct (Ascii.eqb_spec c "/") as [->|Hc].
    - destruct s as [|d s]; [done|].
      destruct (Ascii.eqb_spec d "/") as [->|Hd]; [done|].
      rewrite collapseLeadingSlashes_keeps.
      2:{ intros r [= ->]. done. }
      rewrite after_slashes_slash, after_slashes_other by done. done.
    - rewrite collapseLeadingSlashes_keeps.
      2:{ intros r [= ->]. done. }
      rewrite after_slashes_other by done.
      unfold Path.isAbsolute, Path.sep.
      replace (Ascii.eqb c "/") with false; [done|].
      symmetry. by apply Ascii.eqb_neq. }
  assert (Hno : forall r,
            collapseLeadingSlashes str <> String "/" (String "/" r)).
  { intros r. rewrite Hform. destruct (Path.isAbsolute str).
    - intros [= H]. by apply after_slashes_no_slash in H.
    - apply after_slashes_no_slash. }
  split_and!; [done|done|apply collapseLeadingSlashes_keeps|
               by apply collapseLeadingSlashes_keeps].
Qed.

End LeadingSlashes.

(** ** More on [send] *)

Section SendMore.

Import Send.

Context (E : Externals).



(** X12: A HEAD request gets the head a GET gets, and no body: where [send]
    pipes the file for another method, it ends the response at once for HEAD
    with the same status and headers; every other outcome is the same. *)
Theorem send_HEAD_same_head st res file stat :
  send E (with_method "HEAD" st) res file stat =
  match send E st res file stat with
  | Piped r _ _ _ => Ended r ""
  | o => o
  end.
Proof.
  rewrite !send_eq.
  change (prepared E (with_method "HEAD" st) res file stat)
    with (prepared E st res file stat).
  change (isConditionalGET (with_method "HEAD" st)) with (isConditionalGET st).
  change (isPreconditionFailure E (with_method "HEAD" st))
    with (isPreconditionFailure E st).
  change (isFresh E (with_method "HEAD" st)) with (isFresh E st).
  change (isRangeFresh E (with_method "HEAD" st)) with (isRangeFresh E st).
  change (_acceptRanges (with_method "HEAD" st)) with (_acceptRanges st).
  change (req_headers (req (with_method "HEAD" st)))
    with (req_headers (req st)).
  change (options (with_method "HEAD" st)) with (options st).
  change (headersAlreadySent E (with_method "HEAD" st))
    with (headersAlreadySent E st).
  change (error E (with_method "HEAD" st)) with (error E st).
  assert (Hbody : forall res' offset len,
    send_body (with_method "HEAD" st) res' file offset len =
    match send_body st res' file offset len with
    | Piped r _ _ _ => Ended r ""
    | o => o
    end).
  { intros. unfold send_body. simpl. by destruct (String.eqb _ _). }
  assert (Herr : forall res' s err,
    error E st res' s err =
    match error E st res' s err with
    | Piped r _ _ _ => Ended r ""
    | o => o
    end).
  { intros res' s err. destruct (error E st res' s err) eqn:He; try done.
    by apply error_not_Piped in He. }
  destruct (headersSent res); [apply Herr|].
  destruct (isConditionalGET st && isPreconditionFailure _ _ _); [apply Herr|].
  destruct (isConditionalGET st && _); [done|].
  destruct (_acceptRanges st && _); [|apply Hbody].
  destruct (if isRangeFresh _ _ _ then _ else _) as [| |type ranges];
    [apply Hbody|apply Herr|].
  destruct ranges as [|range [|]]; apply Hbody.
Qed.

End SendMore.
(** ** Empty windows *)

Section EmptyWindow.

Import Send.

Context (E : Externals).

Lemma prefix_append p s :
  String.prefix p s = true -> exists r, s = p +:+ r.
Proof.
  revert s. induction p as [|c p IH]; intros s Hp.
  - by exists s.
  - destruct s as [|d s]; [done|]. simpl in Hp.
    destruct (ascii_dec c d) as [->|]; [|done].
    destruct (IH s Hp) as [r ->]. by exists r.
Qed.

Lemma indexOf_char_slice_from c n : forall s,
  Js.indexOf_char c (Js.slice_from n s) <> None -> Js.indexOf_char c s <> None.
Proof.
  induction n as [|n IH]; intros s; [done|].
  destruct s as [|d s]; [done|]. cbn [Js.slice_from Js.indexOf_char].
  intros H. destruct (Ascii.eqb c d); [done|].
  specialize (IH s H). by destruct (Js.indexOf_char c s).
Qed.

(** A header that [BYTES_RANGE_REGEXP] matches has an [=]. *)
Lemma BYTES_RANGE_REGEXP_has_equals v :
  BYTES_RANGE_REGEXP_test v = true ->
  Js.indexOf_char "=" (Js.String_ v) <> None.
Proof.
  unfold BYTES_RANGE_REGEXP_test. intros H.
  apply prefix_append in H as [r Hr].
  eapply indexOf_char_slice_from. by rewrite Hr.
Qed.

(** X13: On a window without bytes, which an empty file gives, every Range
    header that starts with [bytes=] is answered 416, [bytes=0-] included,
    unless If-Range is stale. *)
Theorem send_empty_window_416 st res file stat msg :
  effective_len (options st) stat <= 0 ->
  headersSent res = false ->
  headersSent (prepared E st res file stat) = false ->
  answers_conditional E st (prepared E st res file stat) = false ->
  _acceptRanges st = true ->
  BYTES_RANGE_REGEXP_test (req_headers (req st) !! "range") = true ->
  isRangeFresh E st (prepared E st res file stat) = true ->
  on_error st = false ->
  STATUS_CODES E 416 = Some msg -> msg <> "" ->
  exists r body,
    send E st res file stat = Ended r body /\
    statusCode r = 416 /\
    res_getHeader r "Content-Range"
    = Some ("bytes */" +:+ Js.of_Z (effective_len (options st) stat)).
Proof.
  intros Hlen Hs Hs' Hc Ha Hb Hf Hl Hm Hne.
  assert (Hu : RangeParser.rangeParser (effective_len (options st) stat)
                 (Js.String_ (req_headers (req st) !! "range")) true
               = RangeParser.Unsatisfiable).
  { destruct (RangeParser.rangeParser _ _ _) as [| |type ranges] eqn:Hp.
    - apply BYTES_RANGE_REGEXP_has_equals in Hb.
      unfold RangeParser.rangeParser in Hp.
      destruct (Js.indexOf_char "=" _); [|done].
      by destruct (omap _ _).
    - done.
    - apply rangeParser_Ranges_inv in Hp as (_ & _ & Hpos). lia. }
  destruct (send_unsatisfiable E st res file stat msg)
    as (r & Hsend & H416 & Hcr & _); try assumption.
  by exists r, (createHtmlDocument "Error" (escapeHtml E msg)).
Qed.

End EmptyWindow.

(** ** Paths that [pipe] turns down *)

Section PipeRejects.

Import Send.

Context (E : Externals) (fs : string -> stat_result).

(** [pipe], once the path is decoded and found free of NUL bytes and of
    steps upwards. *)
Lemma pipe_checked st res p :
  decode (path st) = Some p -> Js.indexOf_char "000" p = None ->
  UP_PATH_REGEXP_test
    (match _root st with Some _ => relative_to_root p | None => p end) = false ->
  pipe E fs st res =
  if containsDotFile (path_parts st p)
     && negb (bool_decide (_dotfiles st = Some "allow"))
  then ([], error E st res
              (if bool_decide (_dotfiles st = Some "deny") then 403 else 404)
              None)
  else if negb (bool_decide (_index st = [])) && hasTrailingSlash st
  then sendIndex E fs st res (resolved_path E st p)
  else sendFile E fs st res (resolved_path E st p).
Proof.
  intros Hd Hn Hup. unfold pipe, path_parts, resolved_path.
  rewrite Hd, Hn. rewrite bool_decide_eq_false_2 by (by intros [? ?]).
  unfold relative_to_root in *.
  assert (Hpolicy : forall parts : list string,
    (if containsDotFile parts
     then match _dotfiles st with
          | Some access =>
              if String.eqb access "allow" then None
              else if String.eqb access "deny" then Some 403 else Some 404
          | None => Some 404
          end
     else None) =
    (if containsDotFile parts
        && negb (bool_decide (_dotfiles st = Some "allow"))
     then Some (if bool_decide (_dotfiles st = Some "deny") then 403 else 404)
     else None)).
  { intros parts. destruct (containsDotFile parts); [|done]. simpl.
    destruct (_dotfiles st) as [access|]; [|done].
    destruct (String.eqb_spec access "allow") as [->|Ha].
    { by rewrite bool_decide_eq_true_2. }
    rewrite (bool_decide_eq_false_2 (Some access = Some "allow"))
      by congruence.
    simpl. destruct (String.eqb_spec access "deny") as [->|Hy].
    { by rewrite bool_decide_eq_true_2. }
    by rewrite (bool_decide_eq_false_2 (Some access = Some "deny"))
      by congruence. }
  destruct (_root st) as [root|]; rewrite Hup, Hpolicy;
    by destruct (containsDotFile _ && _).
Qed.

(** X14: [pipe] turns a request down before it looks at the filesystem: 400 for
    a pathname that does not decode or that holds a NUL byte, and for a
    pathname with a dotfile component 403 under [deny] and 404 under
    [ignore]. *)
Theorem pipe_rejects_without_stat st res :
  (decode (path st) = None -> pipe E fs st res = ([], error E st res 400 None)) /\
  (forall p, decode (path st) = Some p -> Js.indexOf_char "000" p <> None ->
     pipe E fs st res = ([], error E st res 400 None)) /\
  (forall p, decode (path st) = Some p -> Js.indexOf_char "000" p = None ->
     UP_PATH_REGEXP_test
       (match _root st with Some _ => relative_to_root p | None => p end)
     = false ->
     containsDotFile (path_parts st p) = true ->
     (_dotfiles st = Some "deny" ->
      pipe E fs st res = ([], error E st res 403 None)) /\
     (_dotfiles st = Some "ignore" ->
      pipe E fs st res = ([], error E st res 404 None))).
Proof.
  split_and!.
  - intros Hd. unfold pipe. by rewrite Hd.
  - intros p Hd Hn. unfold pipe. rewrite Hd.
    rewrite bool_decide_eq_true_2; [done|].
    by destruct (Js.indexOf_char "000" p).
  - intros p Hd Hn Hup Hdot. rewrite (pipe_checked st res p Hd Hn Hup), Hdot.
    split; intros ->; reflexivity.
Qed.

End PipeRejects.
(** ** Normalized paths *)

Section Normalized.

Import Send Path.

Lemma split_slashfree c s :
  Forall (fun w => Js.indexOf_char c w = None) (Js.split c s).
Proof.
  induction s as [|d s IH]; [constructor; [reflexivity|constructor]|].
  rewrite split_String. destruct (Ascii.eqb c d) eqn:Hc.
  - by constructor.
  - destruct (Js.split c s) as [|w ws].
    { constructor; [|constructor]. cbn [Js.indexOf_char]. by rewrite Hc. }
    inversion IH as [|? ? Hw Hws]; subst. constructor; [|done].
    cbn [Js.indexOf_char]. by rewrite Hc, Hw.
Qed.

Lemma join_with_cons c x y l :
  join_with c (x :: y :: l) = x +:+ String c (join_with c (y :: l)).
Proof. reflexivity. Qed.

Lemma split_join_app c l q :
  l <> [] -> Forall (fun w => Js.indexOf_char c w = None) l ->
  Js.split c (join_with c l +:+ String c q) = l ++ Js.split c q.
Proof.
  intros Hne Hl. induction l as [|x l IH]; [done|].
  inversion Hl as [|? ? Hx Hl']; subst.
  destruct l as [|y l].
  - simpl join_with. by rewrite split_app_separator.
  - rewrite join_with_cons, append_assoc, append_String.
    rewrite split_app_separator by done. by rewrite IH.
Qed.

Lemma split_join c l :
  l <> [] -> Forall (fun w => Js.indexOf_char c w = None) l ->
  Js.split c (join_with c l) = l.
Proof.
  intros Hne Hl. induction l as [|x l IH]; [done|].
  inversion Hl as [|? ? Hx Hl']; subst.
  destruct l as [|y l].
  - simpl join_with. by apply split_no_separator.
  - rewrite join_with_cons, split_app_separator by done. by rewrite IH.
Qed.

Lemma join_with_app c l1 l2 :
  l1 <> [] -> l2 <> [] ->
  join_with c (l1 ++ l2) = join_with c l1 +:+ String c (join_with c l2).
Proof.
  intros H1 H2. induction l1 as [|x l1 IH]; [done|].
  destruct l1 as [|y l1].
  - destruct l2; [done|]. reflexivity.
  - change ((x :: y :: l1) ++ l2) with (x :: y :: (l1 ++ l2)).
    rewrite !join_with_cons.
    change (y :: l1 ++ l2) with ((y :: l1) ++ l2). rewrite IH by done.
    by rewrite append_assoc, append_String.
Qed.

Lemma normalize_step_proper b res seg :
  proper_segment seg -> normalize_step b res seg = seg :: res.
Proof.
  intros (H1 & H2 & H3 & _). unfold normalize_step.
  apply String.eqb_neq in H1, H2, H3. by rewrite H1, H2, H3.
Qed.

Lemma fold_step_proper b l : forall acc,
  Forall proper_segment l ->
  fold_left (normalize_step b) l acc = rev l ++ acc.
Proof.
  induction l as [|x l IH]; intros acc Hl; [done|].
  inversion Hl; subst. simpl. rewrite normalize_step_proper by done.
  rewrite IH by done. by rewrite <- app_assoc.
Qed.

Lemma fold_step_no_dotdot b l : forall acc,
  ".." ∉ l ->
  fold_left (normalize_step b) l acc = rev (List.filter kept_segment l) ++ acc.
Proof.
  induction l as [|x l IH]; intros acc Hl; [done|].
  apply not_elem_of_cons in Hl as [Hx Hl]. simpl.
  rewrite IH by done. unfold normalize_step, kept_segment.
  destruct (String.eqb x "" || String.eqb x "."); [done|].
  replace (String.eqb x "..") with false
    by (symmetry; apply String.eqb_neq; congruence).
  simpl. by rewrite <- app_assoc.
Qed.

(** Without steps above the root, what [normalizeString] keeps are proper
    segments. *)
Lemma fold_step_false_proper l : forall acc,
  Forall (fun w => Js.indexOf_char "/" w = None) l ->
  Forall proper_segment acc ->
  Forall proper_segment (fold_left (normalize_step false) l acc).
Proof.
  induction l as [|x l IH]; intros acc Hl Hacc; [done|].
  inversion Hl as [|? ? Hx Hl']; subst. simpl. apply IH; [done|].
  unfold normalize_step.
  destruct (String.eqb_spec x "") as [->|H1]; [done|].
  destruct (String.eqb_spec x ".") as [->|H2]; [done|]. simpl.
  destruct (String.eqb_spec x "..") as [->|H3].
  - destruct acc as [|top acc]; [done|].
    inversion Hacc as [|? ? Htop Hacc']; subst.
    by destruct (String.eqb top "..").
  - constructor; [by split_and!|done].
Qed.

(** The segments of an absolute path in its normal form. *)
Lemma resolve_segments c r :
  exists segs,
    Forall proper_segment segs /\
    resolve c r = String "/" (join_with "/" segs).
Proof.
  unfold resolve, normalizeString. eexists. split; [|reflexivity].
  apply Forall_rev, fold_step_false_proper; [apply split_slashfree|done].
Qed.

Lemma proper_slashfree l :
  Forall proper_segment l ->
  Forall (fun w => Js.indexOf_char "/" w = None) l.
Proof.
  intros H. eapply Forall_impl; [exact H|]. by intros s (_ & _ & _ & ?).
Qed.

Lemma join_with_nonempty l :
  l <> [] -> Forall proper_segment l -> join_with "/" l <> "".
Proof.
  intros Hne Hl. destruct l as [|x l]; [done|].
  inversion Hl as [|? ? (Hx & _) _]; subst.
  destruct l; simpl; [done|]. by destruct x.
Qed.

Lemma ends_with_append c (a : string) d z :
  ends_with c (a +:+ String d z) = ends_with c (String d z).
Proof.
  induction a as [|x a IH]; [done|]. rewrite append_String.
  change (ends_with c (String x (a +:+ String d z)))
    with (match a +:+ String d z with
          | EmptyString => Ascii.eqb x c
          | String _ _ => ends_with c (a +:+ String d z)
          end).
  destruct (a +:+ String d z) eqn:Ha; [by destruct a|]. by rewrite <- IH.
Qed.

Lemma ends_with_cons c d (z : string) :
  z <> "" -> ends_with c (String d z) = ends_with c z.
Proof. by destruct z. Qed.

Lemma slashfree_ends_with s :
  Js.indexOf_char "/" s = None -> ends_with "/" s = false.
Proof.
  induction s as [|c s IH]; [done|]. cbn [Js.indexOf_char].
  destruct (Ascii.eqb "/" c) eqn:Hc; [done|].
  destruct (Js.indexOf_char "/" s) eqn:Hs; [done|]. intros _.
  destruct s as [|d s]; [|by apply IH].
  simpl. by rewrite Ascii.eqb_sym.
Qed.

Lemma join_with_ends_with l :
  l <> [] -> Forall proper_segment l -> ends_with "/" (join_with "/" l) = false.
Proof.
  intros Hne Hl. induction l as [|x l IH]; [done|].
  inversion Hl as [|? ? Hx Hl']; subst.
  destruct l as [|y l].
  - simpl. apply slashfree_ends_with. by destruct Hx as (_ & _ & _ & ?).
  - rewrite join_with_cons, ends_with_append.
    rewrite ends_with_cons by (by apply join_with_nonempty). by apply IH.
Qed.

(** An absolute path made of proper segments, with or without a slash at
    its end, is its own normal form. *)
Lemma normalize_normal l (slash : bool) :
  Forall proper_segment l -> (l = [] -> slash = false) ->
  normalize (String "/" (join_with "/" l +:+ (if slash then "/" else "")))
  = String "/" (join_with "/" l +:+ (if slash then "/" else "")).
Proof.
  intros Hl Hs. destruct l as [|x l].
  { rewrite (Hs eq_refl). reflexivity. }
  set (l' := x :: l) in *. assert (Hne : l' <> []) by done.
  pose proof (join_with_nonempty l' Hne Hl) as HJ.
  unfold normalize.
  replace (String.eqb (String "/" _) "") with false by done.
  replace (isAbsolute (String "/" _)) with true by done.
  cbn [negb andb].
  assert (HN : normalizeString
                 (String "/" (join_with "/" l' +:+ (if slash then "/" else "")))
                 false = join_with "/" l').
  { unfold normalizeString. rewrite split_String.
    replace (Ascii.eqb sep "/") with true by done.
    destruct slash.
    - rewrite split_join_app by (try done; by apply proper_slashfree).
      simpl Js.split. cbn [fold_left].
      rewrite fold_left_app. cbn [fold_left].
      unfold normalize_step at 1 3. simpl String.eqb at 1 2. cbn [orb].
      rewrite fold_step_proper by done.
      by rewrite app_nil_r, rev_involutive.
    - rewrite append_nil_r, split_join by (try done; by apply proper_slashfree).
      cbn [fold_left]. unfold normalize_step at 2.
      simpl String.eqb at 1. cbn [orb].
      rewrite fold_step_proper by done.
      by rewrite app_nil_r, rev_involutive. }
  rewrite HN.
  apply String.eqb_neq in HJ. rewrite HJ. cbn [negb andb].
  rewrite ?HJ. cbn [negb andb].
  destruct slash.
  - rewrite ends_with_cons by (by destruct (join_with "/" l')).
    rewrite ends_with_append. reflexivity.
  - rewrite append_nil_r, ends_with_cons by (by apply String.eqb_neq).
    by rewrite join_with_ends_with.
Qed.

(** Joining a relative path without [..] to a root in normal form: the
    segments of the root followed by those of the path. *)
Lemma normalize_under_root segs q :
  Forall proper_segment segs -> q <> "" -> ".." ∉ Js.split "/" q ->
  exists more (slash : bool),
    Forall proper_segment (segs ++ more) /\
    (segs ++ more = [] -> slash = false) /\
    normalize (String "/" (join_with "/" segs) +:+ String "/" q)
    = String "/" (join_with "/" (segs ++ more)
                  +:+ (if slash then "/" else "")).
Proof.
  intros Hsegs Hq Hdd.
  set (more := List.filter kept_segment (Js.split "/" q)).
  assert (Hmore : Forall proper_segment more).
  { apply Forall_forall. intros s Hs.
    apply list_elem_of_In, filter_In in Hs as [Hin Hk].
    apply list_elem_of_In in Hin.
    unfold kept_segment in Hk. apply negb_true_iff, orb_false_iff in Hk as [H1 H2].
    apply String.eqb_neq in H1, H2. split_and!; try done.
    - intros ->. done.
    - pose proof (split_slashfree "/" q) as Hsf.
      rewrite Forall_forall in Hsf. by apply Hsf. }
  assert (Hall : Forall proper_segment (segs ++ more)) by (by apply Forall_app).
  assert (HN : normalizeString
                 (String "/" (join_with "/" segs +:+ String "/" q)) false
               = join_with "/" (segs ++ more)).
  { unfold normalizeString. rewrite split_String.
    replace (Ascii.eqb sep "/") with true by done.
    assert (Hsplit : fold_left (normalize_step false)
                       (Js.split sep (join_with "/" segs +:+ String "/" q)) []
                     = rev (segs ++ more)).
    { destruct segs as [|x segs].
      - simpl join_with. rewrite append_nil_l, split_String.
        replace (Ascii.eqb sep "/") with true by done.
        cbn [fold_left]. unfold normalize_step at 2.
        simpl String.eqb at 1. cbn [orb].
        rewrite fold_step_no_dotdot by done. by rewrite app_nil_r.
      - rewrite split_join_app by (try done; by apply proper_slashfree).
        rewrite fold_left_app, (fold_step_proper false (x :: segs)) by done.
        rewrite fold_step_no_dotdot by done.
        by rewrite app_nil_r, rev_app_distr. }
    cbn [fold_left]. unfold normalize_step at 2.
    simpl String.eqb at 1. cbn [orb].
    by rewrite Hsplit, rev_involutive. }
  exists more,
    (negb (String.eqb (join_with "/" (segs ++ more)) "")
     && ends_with sep (String "/" (join_with "/" segs +:+ String "/" q))).
  split; [done|]. split.
  { intros ->. reflexivity. }
  unfold normalize. rewrite append_String.
  replace (String.eqb (String "/" _) "") with false by done.
  replace (isAbsolute (String "/" _)) with true by done.
  change (negb true) with false. rewrite HN, andb_false_r.
  destruct (negb _ && _); [reflexivity|by rewrite append_nil_r].
Qed.

End Normalized.
(** ** Under the root *)

Section UnderRoot.

Import Send Path.

Context (E : Externals) (fs : string -> stat_result).

Lemma normalize_nonempty p : normalize p <> "".
Proof.
  unfold normalize. destruct (String.eqb p ""); [done|].
  destruct (isAbsolute p); [done|]. cbn [negb].
  destruct (String.eqb_spec (normalizeString p true) "") as [Hn|Hn].
  - rewrite Hn. cbn [andb String.eqb Ascii.eqb negb].
    destruct (ends_with sep p); [|done]. by rewrite append_String.
  - cbn [andb]. apply String.eqb_neq in Hn. rewrite Hn. cbn [negb andb].
    apply String.eqb_neq in Hn.
    destruct (ends_with sep p); [|done].
    destruct (normalizeString p true); [done|]. by rewrite append_String.
Qed.

(** The path [pipe] resolves under a root in normal form. *)
Lemma resolved_path_below st p segs :
  _root st = Some (String "/" (join_with "/" segs)) ->
  Forall proper_segment segs ->
  UP_PATH_REGEXP_test (relative_to_root p) = false ->
  exists more (slash : bool),
    Forall proper_segment (segs ++ more) /\
    (segs ++ more = [] -> slash = false) /\
    resolved_path E st p
    = String "/" (join_with "/" (segs ++ more)
                  +:+ (if slash then "/" else "")).
Proof.
  intros Hr Hsegs Hup. unfold resolved_path. rewrite Hr.
  destruct (String.eqb_spec p "") as [->|Hp].
  - exists [], false. rewrite app_nil_r. split; [done|]. split; [done|].
    unfold relative_to_root. cbn [String.eqb negb]. unfold join.
    cbn [String.eqb].
    pose proof (normalize_normal segs false Hsegs (fun _ => eq_refl)) as Hn.
    rewrite append_nil_r in *. by rewrite !Hn.
  - assert (Hrel : relative_to_root p = normalize ("." +:+ String sep p)).
    { unfold relative_to_root. apply String.eqb_neq in Hp. by rewrite Hp. }
    assert (Hne : relative_to_root p <> "")
      by (rewrite Hrel; apply normalize_nonempty).
    assert (Hdd : ".." ∉ Js.split "/" (relative_to_root p)).
    { intros Hin. apply dotdot_component_up_path in Hin. congruence. }
    destruct (normalize_under_root segs (relative_to_root p) Hsegs Hne Hdd)
      as (more & slash & Hall & Hs & Hn).
    exists more, slash. split; [done|]. split; [done|].
    unfold join. cbn [String.eqb].
    apply String.eqb_neq in Hne. rewrite Hne.
    rewrite (append_String "/"). cbn [String.eqb].
    rewrite <- (append_String "/").
    change sep with "/"%char. rewrite Hn.
    by rewrite (normalize_normal (segs ++ more) slash Hall Hs).
Qed.

(** What [sendFile] looks at: the path, and the path with an extension when
    it has no slash at its end. *)
Lemma sendFile_next_events st res path exts : forall err,
  Forall (fun ev => exists ext, ext ∈ exts /\
                     event_path ev = path +:+ "." +:+ ext)
         (sendFile_next E fs st res path exts err).1.
Proof.
  induction exts as [|ext exts IH]; intros err; [constructor|].
  cbn [sendFile_next].
  assert (Hmono : forall l,
    Forall (fun ev => exists e, e ∈ exts /\
                       event_path ev = path +:+ "." +:+ e) l ->
    Forall (fun ev => exists e, e ∈ ext :: exts /\
                       event_path ev = path +:+ "." +:+ e) l).
  { intros l Hl. eapply Forall_impl; [exact Hl|]. intros ev (e & He & Hev).
    exists e. split; [by right|done]. }
  assert (Hhere : forall ev, event_path ev = path +:+ "." +:+ ext ->
    exists e, e ∈ ext :: exts /\ event_path ev = path +:+ "." +:+ e).
  { intros ev Hev. exists ext. split; [by left|done]. }
  destruct (fs (path +:+ "." +:+ ext)) as [c|stat].
  - specialize (IH (Some (stat_error c))).
    destruct (sendFile_next E fs st res path exts (Some (stat_error c)))
      as [evs o].
    constructor; [by apply Hhere|by apply Hmono].
  - destruct (isDirectory stat).
    + specialize (IH None).
      destruct (sendFile_next E fs st res path exts None) as [evs o].
      constructor; [by apply Hhere|by apply Hmono].
    + constructor; [by apply Hhere|].
      constructor; [by apply Hhere|constructor].
Qed.

Lemma sendFile_events st res path :
  Forall (fun ev => event_path ev = path \/
                    (ends_with sep path = false /\
                     exists ext, ext ∈ _extensions st /\
                       event_path ev = path +:+ "." +:+ ext))
         (sendFile E fs st res path).1.
Proof.
  unfold sendFile. destruct (fs path) as [c|stat].
  - destruct (String.eqb c "ENOENT" && negb (has_extname path)
              && negb (ends_with sep path)) eqn:Hc.
    + apply andb_true_iff in Hc as [_ Hc]. apply negb_true_iff in Hc.
      pose proof (sendFile_next_events st res path (_extensions st)
                    (Some (stat_error c))) as Hn.
      destruct (sendFile_next E fs st res path (_extensions st)
                  (Some (stat_error c))) as [evs o].
      constructor; [by left|].
      eapply Forall_impl; [exact Hn|]. intros ev Hev. by right.
    + constructor; [by left|constructor].
  - destruct (isDirectory stat).
    + constructor; [by left|constructor].
    + constructor; [by left|]. constructor; [by left|constructor].
Qed.

(** What [sendIndex] looks at: the index names joined to the path. *)
Lemma sendIndex_next_events st res path names : forall err,
  Forall (fun ev => exists n, n ∈ names /\ event_path ev = join path n)
         (sendIndex_next E fs st res path names err).1.
Proof.
  induction names as [|n names IH]; intros err; [constructor|].
  cbn [sendIndex_next].
  assert (Hmono : forall l,
    Forall (fun ev => exists e, e ∈ names /\ event_path ev = join path e) l ->
    Forall (fun ev => exists e, e ∈ n :: names /\
                       event_path ev = join path e) l).
  { intros l Hl. eapply Forall_impl; [exact Hl|]. intros ev (e & He & Hev).
    exists e. split; [by right|done]. }
  assert (Hhere : forall ev, event_path ev = join path n ->
    exists e, e ∈ n :: names /\ event_path ev = join path e).
  { intros ev Hev. exists n. split; [by left|done]. }
  destruct (fs (join path n)) as [c|stat].
  - specialize (IH (Some (stat_error c))).
    destruct (sendIndex_next E fs st res path names (Some (stat_error c)))
      as [evs o].
    constructor; [by apply Hhere|by apply Hmono].
  - destruct (isDirectory stat).
    + specialize (IH None).
      destruct (sendIndex_next E fs st res path names None) as [evs o].
      constructor; [by apply Hhere|by apply Hmono].
    + constructor; [by apply Hhere|].
      constructor; [by apply Hhere|constructor].
Qed.

Lemma join_with_snoc c l (y z : string) :
  join_with c (l ++ [y]) +:+ z = join_with c (l ++ [y +:+ z]).
Proof.
  induction l as [|x l IH]; [done|].
  destruct l as [|x' l].
  - simpl. by rewrite append_assoc, append_String.
  - change ((x :: x' :: l) ++ [y]) with (x :: x' :: (l ++ [y])).
    change ((x :: x' :: l) ++ [y +:+ z]) with (x :: x' :: (l ++ [y +:+ z])).
    rewrite !join_with_cons, append_assoc, append_String.
    change (x' :: l ++ [y]) with ((x' :: l) ++ [y]).
    change (x' :: l ++ [y +:+ z]) with ((x' :: l) ++ [y +:+ z]).
    by rewrite IH.
Qed.

Lemma proper_segment_extension y ext :
  proper_segment y -> Js.indexOf_char "/" ext = None ->
  proper_segment (y +:+ "." +:+ ext).
Proof.
  intros (H1 & H2 & H3 & H4) He.
  destruct y as [|a y]; [done|]. split_and!.
  - done.
  - rewrite append_String. destruct y; [|by destruct y]. done.
  - rewrite append_String. destruct y as [|b y].
    + simpl. intros [= -> Hx]. done.
    + rewrite append_String. destruct y; [done|]. done.
  - apply indexOf_char_app_None; [done|].
    by apply (indexOf_char_app_None "/" "." ext).
Qed.

(** A path below the root with an extension put at its end: still below
    the root, unless it is the root itself. *)
Lemma below_extension segs more ext :
  Forall proper_segment (segs ++ more) -> more <> [] ->
  Js.indexOf_char "/" ext = None ->
  below (String "/" (join_with "/" segs))
        (String "/" (join_with "/" (segs ++ more)) +:+ "." +:+ ext).
Proof.
  intros Hall Hne He.
  destruct (exists_last Hne) as (more' & y & ->).
  exists segs, (more' ++ [y +:+ "." +:+ ext]), false.
  rewrite app_assoc in Hall. apply Forall_app in Hall as [Hl Hy].
  inversion Hy as [|? ? Hy' _]; subst.
  split_and!; try done.
  - rewrite app_assoc. apply Forall_app. split; [done|].
    constructor; [|done]. by apply proper_segment_extension.
  - rewrite append_nil_r, !app_assoc, append_String.
    by rewrite join_with_snoc.
Qed.

(** An index name without [..] joined to a path in normal form. *)
Lemma join_index_below l (slash : bool) n :
  Forall proper_segment l -> (l = [] -> slash = false) ->
  ".." ∉ Js.split "/" n ->
  exists more (slash' : bool),
    Forall proper_segment (l ++ more) /\
    (l ++ more = [] -> slash' = false) /\
    join (String "/" (join_with "/" l +:+ (if slash then "/" else ""))) n
    = String "/" (join_with "/" (l ++ more)
                  +:+ (if slash' then "/" else "")).
Proof.
  intros Hl Hs Hn. unfold join. cbn [String.eqb].
  destruct (String.eqb_spec n "") as [->|Hne].
  { exists [], slash. rewrite app_nil_r. split_and!; try done.
    cbn [String.eqb]. by apply normalize_normal. }
  rewrite (append_String "/"). cbn [String.eqb].
  rewrite <- (append_String "/"). change sep with "/"%char.
  destruct slash.
  - assert (Hq : ".." ∉ Js.split "/" (String "/" n)).
    { rewrite split_String. cbn [Ascii.eqb Bool.eqb]. cbn.
      apply not_elem_of_cons. split; [done|exact Hn]. }
    destruct (normalize_under_root l (String "/" n) Hl ltac:(done) Hq)
      as (more & slash' & Hall & Hs' & Heq).
    exists more, slash'. split_and!; try done.
    rewrite <- Heq. f_equal.
    by rewrite !append_String, append_assoc, append_String.
  - destruct (normalize_under_root l n Hl Hne Hn)
      as (more & slash' & Hall & Hs' & Heq).
    exists more, slash'. split_and!; try done.
    rewrite <- Heq. by rewrite append_nil_r.
Qed.

(** X15: Under a [root], the paths [pipe] hands to [fs.stat] and those it emits
    [file] for are the root's segments followed by more segments, none of
    them [..]: files below the root.  The one exception is the root itself
    with an extension put at its end, tried when the request names the root
    and [fs.stat] does not find it. *)
Theorem pipe_stays_below_root st res r root :
  _root st = Some root -> root = resolve (cwd E) r ->
  Forall (fun e => Js.indexOf_char "/" e = None) (_extensions st) ->
  Forall (fun n => ".." ∉ Js.split "/" n) (_index st) ->
  Forall (fun ev => below root (event_path ev) \/
                    exists ext, ext ∈ _extensions st /\
                      event_path ev = root +:+ "." +:+ ext)
         (pipe E fs st res).1.
Proof.
  intros Hr Hroot Hexts Hidx.
  destruct (resolve_segments (cwd E) r) as (segs & Hsegs & Hres).
  rewrite <- Hroot in Hres. rewrite Hres in *. clear Hroot Hres root.
  destruct (decode (path st)) as [p|] eqn:Hd;
    [|unfold pipe; rewrite Hd; constructor].
  destruct (Js.indexOf_char "000" p) as [i|] eqn:Hnul.
  { unfold pipe. rewrite Hd, Hnul.
    rewrite bool_decide_eq_true_2 by done. constructor. }
  destruct (UP_PATH_REGEXP_test (relative_to_root p)) eqn:Hup.
  { rewrite (pipe_up_path E fs st res p Hd Hnul); [constructor|].
    by rewrite Hr. }
  rewrite (pipe_checked E fs st res p Hd Hnul) by (by rewrite Hr).
  destruct (containsDotFile (path_parts st p)
            && negb (bool_decide (_dotfiles st = Some "allow")));
    [constructor|].
  destruct (resolved_path_below st p segs Hr Hsegs Hup)
    as (more & slash & Hall & Hs & Hp).
  rewrite Hp.
  destruct (negb (bool_decide (_index st = [])) && hasTrailingSlash st).
  - unfold sendIndex.
    eapply Forall_impl; [apply sendIndex_next_events|].
    intros ev (n & Hn & ->). left.
    rewrite Forall_forall in Hidx.
    destruct (join_index_below (segs ++ more) slash n Hall Hs (Hidx n Hn))
      as (more' & slash' & Hall' & Hs' & ->).
    exists segs, (more ++ more'), slash'.
    rewrite app_assoc. by split_and!.
  - eapply Forall_impl; [apply sendFile_events|].
    intros ev [->|(Hend & ext & Hext & ->)].
    + left. by exists segs, more, slash.
    + assert (slash = false) as ->.
      { destruct slash; [|done].
        rewrite ends_with_cons, ends_with_append in Hend; [done|].
        by destruct (join_with "/" (segs ++ more)). }
      rewrite append_nil_r.
      destruct more as [|y more].
      * right. rewrite app_nil_r. by exists ext.
      * left.
        rewrite Forall_forall in Hexts.
        apply below_extension; [done|done|by apply Hexts].
Qed.

End UnderRoot.
(** ** Probing for the file *)

Section Probing.

Import Send.

Context (E : Externals) (fs : string -> stat_result).

Lemma sendFile_next_first st res path before ext after stat : forall err,
  Forall (fun e => no_file fs (path +:+ "." +:+ e)) before ->
  fs (path +:+ "." +:+ ext) = StatOk stat -> isDirectory stat = false ->
  sendFile_next E fs st res path (before ++ ext :: after) err =
  (stats_of ((fun e => path +:+ "." +:+ e) <$> before)
     ++ [EvStat (path +:+ "." +:+ ext); EvFile (path +:+ "." +:+ ext)],
   send E st res (path +:+ "." +:+ ext) stat).
Proof.
  intros err Hb Hfs Hd. revert err.
  induction Hb as [|e before He Hb IH]; intros err.
  - cbn [app sendFile_next]. by rewrite Hfs, Hd.
  - change ((e :: before) ++ ext :: after)
      with (e :: (before ++ ext :: after)).
    cbn [sendFile_next]. unfold no_file in He.
    destruct (fs (path +:+ "." +:+ e)) as [c|stat'].
    + by rewrite IH.
    + by rewrite He, IH.
Qed.

(** X16: [extensions]: when the path itself is not found, the extensions are
    tried in the order given, and the first that names a regular file is
    sent; those after it are not looked at. *)
Theorem sendFile_first_extension st res path before ext after stat :
  fs path = StatError "ENOENT" ->
  Path.has_extname path = false -> Path.ends_with Path.sep path = false ->
  _extensions st = before ++ ext :: after ->
  Forall (fun e => no_file fs (path +:+ "." +:+ e)) before ->
  fs (path +:+ "." +:+ ext) = StatOk stat -> isDirectory stat = false ->
  sendFile E fs st res path =
  (stats_of (path :: ((fun e => path +:+ "." +:+ e) <$> before))
     ++ [EvStat (path +:+ "." +:+ ext); EvFile (path +:+ "." +:+ ext)],
   send E st res (path +:+ "." +:+ ext) stat).
Proof.
  intros Hfs Hext Hend Hexts Hb Hfs' Hd. unfold sendFile.
  rewrite Hfs, Hext, Hend, Hexts. cbn [String.eqb Ascii.eqb Bool.eqb andb negb].
  by rewrite (sendFile_next_first st res path before ext after stat _ Hb Hfs' Hd).
Qed.

Lemma sendIndex_next_first st res path before n after stat : forall err,
  Forall (fun m => no_file fs (Path.join path m)) before ->
  fs (Path.join path n) = StatOk stat -> isDirectory stat = false ->
  sendIndex_next E fs st res path (before ++ n :: after) err =
  (stats_of (Path.join path <$> before)
     ++ [EvStat (Path.join path n); EvFile (Path.join path n)],
   send E st res (Path.join path n) stat).
Proof.
  intros err Hb Hfs Hd. revert err.
  induction Hb as [|m before Hm Hb IH]; intros err.
  - cbn [app sendIndex_next]. by rewrite Hfs, Hd.
  - change ((m :: before) ++ n :: after) with (m :: (before ++ n :: after)).
    cbn [sendIndex_next]. unfold no_file in Hm.
    destruct (fs (Path.join path m)) as [c|stat'].
    + by rewrite IH.
    + by rewrite Hm, IH.
Qed.

(** X17: [index]: the names are tried in the order given, whatever goes wrong
    with one of them, and the first that names a regular file is sent. *)
Theorem sendIndex_first_file st res path before n after stat :
  _index st = before ++ n :: after ->
  Forall (fun m => no_file fs (Path.join path m)) before ->
  fs (Path.join path n) = StatOk stat -> isDirectory stat = false ->
  sendIndex E fs st res path =
  (stats_of (Path.join path <$> before)
     ++ [EvStat (Path.join path n); EvFile (Path.join path n)],
   send E st res (Path.join path n) stat).
Proof.
  intros Hidx Hb Hfs Hd. unfold sendIndex. rewrite Hidx.
  by apply sendIndex_next_first.
Qed.

Lemma sendIndex_next_none st res path names : forall err,
  Forall (fun m => no_file fs (Path.join path m)) names ->
  sendIndex_next E fs st res path names err =
  (stats_of (Path.join path <$> names),
   match
     match last names with
     | Some n =>
         match fs (Path.join path n) with
         | StatError c => Some (stat_error c)
         | StatOk _ => None
         end
     | None => err
     end
   with
   | Some e => onStatError E st res e
   | None => error E st res 404 None
   end).
Proof.
  intros err Hn. revert err.
  induction Hn as [|m names Hm Hn IH]; intros err; [done|].
  cbn [sendIndex_next]. unfold no_file in Hm.
  assert (Hlast : forall e',
    match last (m :: names) with
    | Some n =>
        match fs (Path.join path n) with
        | StatError c => Some (stat_error c)
        | StatOk _ => None
        end
    | None => err
    end =
    match last names with
    | Some n =>
        match fs (Path.join path n) with
        | StatError c => Some (stat_error c)
        | StatOk _ => None
        end
    | None => e'
    end ->
    sendIndex_next E fs st res path names e' =
    (stats_of (Path.join path <$> names),
     match
       match last (m :: names) with
       | Some n =>
           match fs (Path.join path n) with
           | StatError c => Some (stat_error c)
           | StatOk _ => None
           end
       | None => err
       end
     with
     | Some e => onStatError E st res e
     | None => error E st res 404 None
     end)).
  { intros e' ->. apply IH. }
  destruct (fs (Path.join path m)) as [c|stat'] eqn:Hfs.
  - rewrite (Hlast (Some (stat_error c))); [done|].
    destruct names as [|m' names]; [cbn [last]; by rewrite Hfs|].
    change (last (m :: m' :: names)) with (last (m' :: names)).
    destruct (last (m' :: names)) eqn:Hl; [done|]. by apply last_None in Hl.
  - rewrite Hm, (Hlast None); [done|].
    destruct names as [|m' names]; [cbn [last]; by rewrite Hfs|].
    change (last (m :: m' :: names)) with (last (m' :: names)).
    destruct (last (m' :: names)) eqn:Hl; [done|]. by apply last_None in Hl.
Qed.

(** X18: When no index name gives a regular file, only what happened with the
    last name counts: a directory there gives 404 and an error there the
    status of that error, whatever the earlier names ran into. *)
Theorem sendIndex_last_decides st res path names n :
  _index st = names ++ [n] ->
  Forall (fun m => no_file fs (Path.join path m)) (names ++ [n]) ->
  sendIndex E fs st res path =
  (stats_of (Path.join path <$> names ++ [n]),
   match fs (Path.join path n) with
   | StatError c => onStatError E st res (stat_error c)
   | StatOk _ => error E st res 404 None
   end).
Proof.
  intros Hidx Hn. unfold sendIndex. rewrite Hidx.
  rewrite (sendIndex_next_none st res path (names ++ [n]) None Hn).
  rewrite last_snoc. by destruct (fs (Path.join path n)).
Qed.

Lemma onStatError_not_Piped st res err r f s e :
  onStatError E st res err <> Piped r f s e.
Proof.
  unfold onStatError. destruct (code err) as [c|]; [|apply error_not_Piped].
  destruct (_ || _); apply error_not_Piped.
Qed.

Lemma redirect_not_Piped st res dir r f s e :
  redirect E st res dir <> Piped r f s e.
Proof.
  unfold redirect. destruct (on_directory st); [done|].
  destruct (hasTrailingSlash st); [apply error_not_Piped|].
  by destruct (headersSent res).
Qed.

Lemma send_Piped_file st res file stat r f s e :
  send E st res file stat = Piped r f s e -> f = file.
Proof.
  rewrite send_eq.
  assert (Hbody : forall res' offset len,
    send_body st res' file offset len = Piped r f s e -> f = file).
  { intros res' offset len H. by apply send_body_Piped in H as (_ & -> & _). }
  destruct (headersSent res).
  { intros H. by apply error_not_Piped in H. }
  destruct (isConditionalGET st && isPreconditionFailure _ _ _).
  { intros H. by apply error_not_Piped in H. }
  destruct (isConditionalGET st && _); [done|].
  destruct (_acceptRanges st && _); [|apply Hbody].
  destruct (isRangeFresh _ _ _); [|apply Hbody].
  destruct (RangeParser.rangeParser _ _ _) as [| |type ranges];
    [apply Hbody| |].
  { intros H. by apply error_not_Piped in H. }
  destruct ranges as [|range [|]]; apply Hbody.
Qed.

Lemma sendFile_next_Piped st res path exts : forall err evs r f s e,
  sendFile_next E fs st res path exts err = (evs, Piped r f s e) ->
  exists evs' stat,
    evs = evs' ++ [EvStat f; EvFile f] /\
    fs f = StatOk stat /\ isDirectory stat = false.
Proof.
  induction exts as [|ext exts IH]; intros err evs r f s e.
  { cbn [sendFile_next]. intros [= _ H]. destruct err.
    - by apply onStatError_not_Piped in H.
    - by apply error_not_Piped in H. }
  cbn [sendFile_next].
  destruct (fs (path +:+ "." +:+ ext)) as [c|stat] eqn:Hfs.
  - destruct (sendFile_next E fs st res path exts (Some (stat_error c)))
      as [evs0 o] eqn:Hn.
    intros [= <- ->]. apply IH in Hn as (evs' & stat & -> & Hf & Hd).
    by exists (EvStat (path +:+ "." +:+ ext) :: evs'), stat.
  - destruct (isDirectory stat) eqn:Hd.
    + destruct (sendFile_next E fs st res path exts None) as [evs0 o] eqn:Hn.
      intros [= <- ->]. apply IH in Hn as (evs' & stat' & -> & Hf & Hd').
      by exists (EvStat (path +:+ "." +:+ ext) :: evs'), stat'.
    + intros [= <- H]. apply send_Piped_file in H as ->.
      by exists [], stat.
Qed.

Lemma sendIndex_next_Piped st res path names : forall err evs r f s e,
  sendIndex_next E fs st res path names err = (evs, Piped r f s e) ->
  exists evs' stat,
    evs = evs' ++ [EvStat f; EvFile f] /\
    fs f = StatOk stat /\ isDirectory stat = false.
Proof.
  induction names as [|n names IH]; intros err evs r f s e.
  { cbn [sendIndex_next]. intros [= _ H]. destruct err.
    - by apply onStatError_not_Piped in H.
    - by apply error_not_Piped in H. }
  cbn [sendIndex_next].
  destruct (fs (Path.join path n)) as [c|stat] eqn:Hfs.
  - destruct (sendIndex_next E fs st res path names (Some (stat_error c)))
      as [evs0 o] eqn:Hn.
    intros [= <- ->]. apply IH in Hn as (evs' & stat & -> & Hf & Hd).
    by exists (EvStat (Path.join path n) :: evs'), stat.
  - destruct (isDirectory stat) eqn:Hd.
    + destruct (sendIndex_next E fs st res path names None)
        as [evs0 o] eqn:Hn.
      intros [= <- ->]. apply IH in Hn as (evs' & stat' & -> & Hf & Hd').
      by exists (EvStat (Path.join path n) :: evs'), stat'.
    + intros [= <- H]. apply send_Piped_file in H as ->.
      by exists [], stat.
Qed.

(** X19: A file is piped only after [fs.stat] found it to be a regular file and
    the [file] event was emitted for it; these are the last two things
    [pipe] does before. *)
Theorem pipe_Piped_after_stat st res evs r f s e :
  pipe E fs st res = (evs, Piped r f s e) ->
  exists evs' stat,
    evs = evs' ++ [EvStat f; EvFile f] /\
    fs f = StatOk stat /\ isDirectory stat = false.
Proof.
  unfold pipe.
  destruct (decode (path st)) as [p|].
  2:{ intros [= _ H]. by apply error_not_Piped in H. }
  destruct (bool_decide _).
  { intros [= _ H]. by apply error_not_Piped in H. }
  match goal with
  | |- context [match ?x with Some _ => _ | None => ([], error _ _ _ 403 _) end] =>
      destruct x as [[parts file]|]
  end.
  2:{ intros [= _ H]. by apply error_not_Piped in H. }
  match goal with
  | |- context [match ?x with Some _ => _ | None => _ end] =>
      destruct x as [status|]
  end.
  { intros [= _ H]. by apply error_not_Piped in H. }
  destruct (negb _ && _).
  { apply sendIndex_next_Piped. }
  unfold sendFile. destruct (fs file) as [c|stat] eqn:Hfs.
  - destruct (_ && _).
    + destruct (sendFile_next E fs st res file (_extensions st)
                  (Some (stat_error c))) as [evs0 o] eqn:Hn.
      intros [= <- ->]. apply sendFile_next_Piped in Hn
        as (evs' & stat & -> & Hf & Hd).
      by exists (EvStat file :: evs'), stat.
    + intros [= _ H]. by apply onStatError_not_Piped in H.
  - destruct (isDirectory stat) eqn:Hd.
    + intros [= _ H]. by apply redirect_not_Piped in H.
    + intros [= <- H]. apply send_Piped_file in H as ->.
      by exists [], stat.
Qed.

End Probing.
(** ** The head of the response *)

Section Head.

Import Send.

Context (E : Externals).

Lemma setHeaders_lookup hs : forall res k,
  is_Some (headers (setHeaders res hs) !! k) ->
  k ∈ (fun kv => toLowerCase kv.1) <$> hs \/ is_Some (headers res !! k).
Proof.
  induction hs as [|[h v] hs IH]; intros res k; [by right|].
  unfold setHeaders. cbn [fold_left]. intros Hk.
  apply (IH (res_setHeader res h v) k) in Hk as [Hk|Hk].
  - left. rewrite fmap_cons. by right.
  - unfold res_setHeader in Hk. cbn [headers] in Hk.
    rewrite lookup_insert in Hk. case_decide as Hd.
    + subst k. left. rewrite fmap_cons. by left.
    + by right.
Qed.

Lemma clearHeaders_empty res k :
  names_lower res -> headers (clearHeaders res) !! k = None.
Proof.
  intros Hl. unfold clearHeaders. rewrite fold_removeHeader_lookup.
  destruct (existsb _ _) eqn:Hex; [done|].
  destruct (headers res !! k) as [v|] eqn:Hv; [|done].
  exfalso. apply not_true_iff_false in Hex. apply Hex.
  apply existsb_exists. exists k. split.
  - apply list_elem_of_In, getHeaderNames_elem. by eexists.
  - apply String.eqb_eq. apply Hl. by eexists.
Qed.

Lemma insert_is_Some (m : gmap string string) h v k :
  is_Some (<[h := v]> m !! k) -> k = h \/ is_Some (m !! k).
Proof.
  rewrite lookup_insert. case_decide; [by left; subst|by right].
Qed.

(** X20: An error page carries the four headers of the page and those of the
    error object, and nothing else: whatever was set on the response
    before is gone. *)
Theorem error_page_headers st res status err r body :
  names_lower res -> error E st res status err = Ended r body ->
  forall k, is_Some (headers r !! k) ->
    k ∈ error_page_names \/
    k ∈ (fun kv => toLowerCase kv.1) <$> error_headers err.
Proof.
  intros Hl. unfold error. destruct (on_error st).
  { by destruct (createHttpError _ _ _). }
  destruct (getStatusCodeMessage _ _); [done|].
  destruct (headersSent res); [done|]. intros [= <- <-] k Hk.
  unfold res_setHeader in Hk. cbn [headers set_statusCode] in Hk.
  unfold error_page_names.
  apply insert_is_Some in Hk as [->|Hk]; [left; by repeat constructor|].
  apply insert_is_Some in Hk as [->|Hk]; [left; by repeat constructor|].
  apply insert_is_Some in Hk as [->|Hk]; [left; by repeat constructor|].
  apply insert_is_Some in Hk as [->|Hk]; [left; by repeat constructor|].
  right. unfold error_headers.
  destruct err as [e|].
  - destruct (e_headers e) as [hs|]; cbn [default].
    + apply setHeaders_lookup in Hk as [Hk|Hk]; [done|].
      rewrite clearHeaders_empty in Hk by done. by destruct Hk.
    + rewrite clearHeaders_empty in Hk by done. by destruct Hk.
  - rewrite clearHeaders_empty in Hk by done. by destruct Hk.
Qed.

(** A field is set unless it is there already. *)
Lemma set_unless_there res (b : bool) H v h :
  Js.truthy (res_getHeader res h) = true \/ toLowerCase h <> toLowerCase H ->
  res_getHeader
    (if b && negb (Js.truthy (res_getHeader res H))
     then res_setHeader res H v else res) h
  = res_getHeader res h.
Proof.
  intros Hh. destruct (b && _) eqn:Hb; [|done].
  apply andb_true_iff in Hb as [_ Hb]. apply negb_true_iff in Hb.
  rewrite res_getHeader_set. case_decide as Heq; [|done].
  destruct Hh as [Hh|Hh]; [|by rewrite Heq in Hh].
  unfold res_getHeader in *. rewrite Heq in Hb. congruence.
Qed.

(** X21: What the [headers] listeners have set is kept: [send] fills in its
    own fields only where the listeners left none, and touches no other
    header while it composes the head. *)
Theorem prepared_keeps_listener_headers st res file stat h :
  Js.truthy (res_getHeader (after_listeners st res file stat) h) = true \/
  toLowerCase h ∉ default_header_names ->
  res_getHeader (prepared E st res file stat) h
  = res_getHeader (after_listeners st res file stat) h.
Proof.
  intros Hh. unfold prepared, type, setHeader.
  fold (after_listeners st res file stat).
  set (r0 := after_listeners st res file stat) in *.
  assert (Hcase : forall H, toLowerCase H ∈ default_header_names ->
    Js.truthy (res_getHeader r0 h) = true \/ toLowerCase h <> toLowerCase H).
  { intros H HH. destruct Hh as [Hh|Hh]; [by left|right].
    intros Heq. apply Hh. by rewrite Heq. }
  set (r1 := if _acceptRanges st && _ then _ else r0).
  assert (H1 : res_getHeader r1 h = res_getHeader r0 h).
  { apply set_unless_there, Hcase. unfold default_header_names.
    vm_compute toLowerCase. by repeat constructor. }
  set (r2 := if _cacheControl st && _ then _ else r1).
  assert (H2 : res_getHeader r2 h = res_getHeader r0 h).
  { rewrite <- H1. apply set_unless_there. rewrite H1. apply Hcase.
    unfold default_header_names. vm_compute toLowerCase. by repeat constructor. }
  set (r3 := if _lastModified st && _ then _ else r2).
  assert (H3 : res_getHeader r3 h = res_getHeader r0 h).
  { rewrite <- H2. apply set_unless_there. rewrite H2. apply Hcase.
    unfold default_header_names. vm_compute toLowerCase. by repeat constructor. }
  set (r4 := if _etag st && _ then _ else r3).
  assert (H4 : res_getHeader r4 h = res_getHeader r0 h).
  { rewrite <- H3. apply set_unless_there. rewrite H3. apply Hcase.
    unfold default_header_names. vm_compute toLowerCase. by repeat constructor. }
  destruct (Js.truthy (res_getHeader r4 "Content-Type")) eqn:Hct; [done|].
  destruct (negb (Js.truthy (mime_getType E file))); [done|].
  rewrite res_getHeader_set. case_decide as Heq; [|done].
  destruct (Hcase "Content-Type") as [Ht|Ht].
  - unfold default_header_names. vm_compute toLowerCase. by repeat constructor.
  - rewrite <- H4 in Ht. unfold res_getHeader in Ht, Hct.
    rewrite <- Heq in Ht. congruence.
  - by rewrite Heq in Ht.
Qed.

End Head.

(** ** The stream as constructed *)

Section Constructed.

Import Send.

Lemma clamp_seconds m :
  0 <= Z.min (Z.max 0 m) MAX_MAXAGE / 1000 <= 31536000.
Proof.
  unfold MAX_MAXAGE.
  assert (0 <= Z.min (Z.max 0 m) (60 * 60 * 24 * 365 * 1000)
          <= 31536000 * 1000) by lia.
  split; [apply Z.div_pos; lia|]. apply Z.div_le_upper_bound; lia.
Qed.

(** X22: [maxAge] is clamped: the [max-age] of [Cache-Control], in seconds, lies
    between 0 and a year, and is 0 when the option is left out. *)
Theorem constructor_maxage_clamped E req path options st :
  constructor E req path options = inr st ->
  0 <= _maxage st / 1000 <= 31536000 /\
  (opt_maxAge options = None -> _maxage st = 0).
Proof.
  unfold constructor.
  destruct (_ && _); [done|].
  destruct (opt_extensions options) as [ve|];
    [destruct (normalizeList ve _) as [?|exts]; [done|]|];
    (destruct (opt_index options) as [vi|];
     [destruct (normalizeList vi _) as [?|idx]; [done|]|]);
    (destruct (opt_maxAge options) as [[str|n]|];
     [destruct (String.eqb str ""); [done|]; destruct (ms_parse E str)| |]);
    intros [= <-]; cbn [_maxage];
    (split; [first [apply clamp_seconds|done]|done]).
Qed.

End Constructed.
(** ** Parsed urls *)

Section ParsedUrls.

Import ParseUrl.

Context (parse : string -> IParsedUrl).

Lemma prefix_nil (s : string) : String.prefix "" s = true.
Proof. by destruct s. Qed.

Lemma prefix_String a (w : string) c (r : string) :
  String.prefix (String a w) (String c r) = Ascii.eqb c a && String.prefix w r.
Proof.
  cbn [String.prefix]. destruct (ascii_dec a c) as [->|Hn].
  - by rewrite Ascii.eqb_refl.
  - replace (Ascii.eqb c a) with false; [done|].
    symmetry. apply Ascii.eqb_neq. congruence.
Qed.

Lemma forallb_neither {A} (f g : A -> bool) l :
  forallb (fun w => negb (f w || g w)) l
  = negb (existsb f l) && forallb (fun w => negb (g w)) l.
Proof.
  induction l as [|x l IH]; [done|]. cbn [forallb existsb]. rewrite IH.
  destruct (f x), (g x), (existsb f l); reflexivity.
Qed.

(** A string is plain when no character to give up on starts at its head,
    and what follows is plain. *)
Lemma plain_String c r :
  plain (String c r) = negb (gives_up c r) && plain r.
Proof.
  unfold plain.
  change (forallb (fun w => negb (Js.includes w (String c r))) give_up_marks)
    with (forallb (fun w => negb (String.prefix w (String c r)
                                 || Js.includes w r)) give_up_marks).
  rewrite forallb_neither. f_equal. f_equal.
  unfold give_up_marks, gives_up. cbn [existsb].
  rewrite !prefix_String, !prefix_nil, !andb_true_r, orb_false_r.
  by rewrite !orb_assoc.
Qed.

Lemma slice_from_app (a b : string) :
  Js.slice_from (String.length a) (a +:+ b) = b.
Proof.
  induction a as [|c a IH]; [by rewrite append_nil_l|].
  rewrite append_String. exact IH.
Qed.

Lemma slice_to_app (a b : string) :
  Js.slice_to (String.length a) (a +:+ b) = a.
Proof.
  induction a as [|c a IH]; [rewrite append_nil_l; by destruct b|].
  rewrite append_String. cbn [String.length Js.slice_to]. by rewrite IH.
Qed.

Lemma slice_from_S_app (a : string) c (b : string) :
  Js.slice_from (S (String.length a)) (a +:+ String c b) = b.
Proof.
  induction a as [|d a IH]; [by rewrite append_nil_l|].
  rewrite append_String. exact IH.
Qed.

Lemma slice_from_S k : forall s : string,
  Js.slice_from (S k) s = Js.slice_from 1 (Js.slice_from k s).
Proof.
  induction k as [|k IH]; intros [|c s]; try reflexivity.
  change (Js.slice_from (S (S k)) (String c s)) with (Js.slice_from (S k) s).
  change (Js.slice_from (S k) (String c s)) with (Js.slice_from k s).
  apply IH.
Qed.

(** Once the search is found the loop only looks for a reason to give
    up. *)
Lemma fastparse_loop_found str rest : forall i p q s,
  plain rest = true ->
  fastparse_loop str i rest p q (Some s) = Some (p, q, Some s).
Proof.
  induction rest as [|c rest IH]; intros i p q s Hp; [done|].
  rewrite plain_String in Hp. apply andb_true_iff in Hp as [Hc Hp].
  apply negb_true_iff in Hc. cbn [fastparse_loop].
  destruct (Ascii.eqb c "?"); [by apply IH|]. rewrite Hc. by apply IH.
Qed.

(** The loop before any question mark: [pre] is what it has gone through. *)
Lemma fastparse_loop_split (pre rest : string) :
  plain rest = true ->
  fastparse_loop (pre +:+ rest) (String.length pre) rest (pre +:+ rest)
                 None None =
  match Js.indexOf_char "?" rest with
  | None => Some (pre +:+ rest, None, None)
  | Some k =>
      Some (pre +:+ Js.slice_to k rest,
            Some (Js.slice_from (S k) rest), Some (Js.slice_from k rest))
  end.
Proof.
  revert pre. induction rest as [|c rest IH]; intros pre Hp; [done|].
  rewrite plain_String in Hp. apply andb_true_iff in Hp as [Hc Hp].
  apply negb_true_iff in Hc.
  cbn [fastparse_loop Js.indexOf_char]. rewrite (Ascii.eqb_sym "?" c).
  destruct (Ascii.eqb c "?") eqn:Hq.
  - apply Ascii.eqb_eq in Hq as ->.
    rewrite fastparse_loop_found by done.
    rewrite slice_to_app, slice_from_S_app, slice_from_app.
    cbn [Js.slice_to Js.slice_from]. by rewrite append_nil_r.
  - rewrite Hc.
    replace (pre +:+ String c rest) with ((pre +:+ String c "") +:+ rest)
      by (by rewrite append_assoc).
    replace (S (String.length pre))
      with (String.length (pre +:+ String c ""))
      by (rewrite length_append; cbn; lia).
    rewrite IH by done.
    destruct (Js.indexOf_char "?" rest) as [k|]; [|done].
    cbn [fmap option_fmap option_map Js.slice_to Js.slice_from].
    by rewrite append_assoc.
Qed.

(** X23: [fastparse] on a url that starts with a slash and has no character to
    give up on: the pathname is what comes before the first question mark,
    the search what comes from it on, the query the search without that
    mark; without a question mark there is neither search nor query. *)
Theorem fastparse_splits rest :
  plain rest = true ->
  exists pathname search,
    fastparse parse (String "/" rest)
    = mkUrl (Some (String "/" rest)) (Some (String "/" rest))
            (Some pathname) (Js.slice_from 1 <$> search) search [] None /\
    pathname +:+ default "" search = String "/" rest /\
    String.prefix "/" pathname = true /\
    Js.indexOf_char "?" pathname = None /\
    (forall s, search = Some s -> String.prefix "?" s = true).
Proof.
  intros Hp. unfold fastparse.
  pose proof (fastparse_loop_split "/" rest Hp) as Hl.
  change ("/" +:+ rest) with (String "/" rest) in Hl.
  change (String.length "/") with 1%nat in Hl. rewrite Hl. clear Hl.
  destruct (Js.indexOf_char "?" rest) as [k|] eqn:Hk.
  - exists (String "/" (Js.slice_to k rest)), (Some (Js.slice_from k rest)).
    assert (Hat : exists r, Js.slice_from k rest = String "?" r /\
                            Js.indexOf_char "?" (Js.slice_to k rest) = None).
    { clear Hp. revert k Hk. induction rest as [|c rest IH]; intros k; [done|].
      cbn [Js.indexOf_char]. destruct (Ascii.eqb "?" c) eqn:Hc.
      - intros [= <-]. apply Ascii.eqb_eq in Hc as <-. by exists rest.
      - destruct (Js.indexOf_char "?" rest) as [k'|]; [|done].
        intros [= <-]. destruct (IH k' eq_refl) as (r & Hr & Hn).
        exists r. cbn [Js.slice_from Js.slice_to Js.indexOf_char].
        by rewrite Hc, Hn. }
    destruct Hat as (r & Hr & Hn). split_and!.
    + cbn [fmap option_fmap option_map]. do 2 f_equal.
      by rewrite slice_from_S.
    + cbn [default]. by rewrite append_String, slice_to_slice_from.
    + by destruct (Js.slice_to k rest).
    + cbn [Js.indexOf_char Ascii.eqb Bool.eqb]. by rewrite Hn.
    + intros s [= <-]. rewrite Hr. by destruct r.
  - exists (String "/" rest), None. split_and!; try done.
    + cbn [default]. by rewrite append_nil_r.
    + by destruct rest.
    + cbn [Js.indexOf_char Ascii.eqb Bool.eqb]. by rewrite Hk.
Qed.

(** X24: [parseUrl] memoizes: whatever is kept on the request, a second call
    returns what the first returned and leaves the request as the first
    left it; and so does [getOriginalUrl]. *)
Theorem parseUrl_memoizes req :
  parseUrl parse (parseUrl parse req).2 = parseUrl parse req /\
  getOriginalUrl parse (getOriginalUrl parse req).2
  = getOriginalUrl parse req.
Proof.
  assert (H1 : parseUrl parse (parseUrl parse req).2 = parseUrl parse req).
  { unfold parseUrl.
    destruct (url req) as [u|] eqn:Hu; [|cbn [snd]; by rewrite Hu].
    destruct (fresh u (_parsedUrl req)) eqn:Hf.
    - cbn [snd]. by rewrite Hu, Hf.
    - cbn [snd set_parsedUrl url _parsedUrl fresh set_raw _raw]. rewrite Hu.
      by rewrite bool_decide_eq_true_2. }
  split; [exact H1|].
  unfold getOriginalUrl. destruct (originalUrl req) as [u|] eqn:Hu.
  - destruct (fresh u (_parsedOriginalUrl req)) eqn:Hf.
    + cbn [snd]. by rewrite Hu, Hf.
    + cbn [snd set_parsedOriginalUrl originalUrl _parsedOriginalUrl fresh
           set_raw _raw].
      rewrite Hu. by rewrite bool_decide_eq_true_2.
  - assert (Ho : originalUrl (parseUrl parse req).2 = None).
    { unfold parseUrl. destruct (url req); [|done].
      by destruct (fresh _ _). }
    by rewrite Ho.
Qed.

(** X25: The memo is transparent: when what is kept on the request was made by
    this module, [parseUrl] returns the parsed form of the url of the
    request as it is now, and what it keeps is again of this module, the
    rest of the request being left as it was. *)
Theorem parseUrl_transparent req u :
  url req = Some u -> made_by_parseurl parse (_parsedUrl req) ->
  (parseUrl parse req).1 = Some (set_raw (fastparse parse u) u) /\
  _parsedUrl (parseUrl parse req).2 = Some (set_raw (fastparse parse u) u) /\
  made_by_parseurl parse (_parsedUrl (parseUrl parse req).2) /\
  message (parseUrl parse req).2 = message req /\
  url (parseUrl parse req).2 = url req /\
  originalUrl (parseUrl parse req).2 = originalUrl req /\
  _parsedOriginalUrl (parseUrl parse req).2 = _parsedOriginalUrl req.
Proof.
  intros Hu Hm. unfold parseUrl. rewrite Hu.
  destruct (fresh u (_parsedUrl req)) eqn:Hf.
  - unfold fresh in Hf. destruct (_parsedUrl req) as [p|] eqn:Hp; [|done].
    apply bool_decide_eq_true in Hf.
    cbn [fst snd]. rewrite Hp, (Hm p u eq_refl Hf). split_and!; try done.
    intros q v [= <-] Hv. cbn [set_raw _raw] in Hv. by injection Hv as <-.
  - cbn [fst snd set_parsedUrl _parsedUrl message url originalUrl
         _parsedOriginalUrl].
    split_and!; try done.
    intros q v [= <-] Hv. cbn [set_raw _raw] in Hv. by injection Hv as <-.
Qed.

End ParsedUrls.
(** ** Urls that [fastparse] hands over *)

Section HandedOver.

Import ParseUrl.

Context (parse : string -> IParsedUrl).

Lemma fastparse_loop_gives_up str rest : forall i p q s,
  plain rest = false -> fastparse_loop str i rest p q s = None.
Proof.
  induction rest as [|c rest IH]; intros i p q s Hp; [done|].
  rewrite plain_String in Hp. cbn [fastparse_loop].
  destruct (Ascii.eqb c "?") eqn:Hq.
  - apply Ascii.eqb_eq in Hq as ->.
    change (gives_up "?" rest) with false in Hp.
    destruct s; by apply IH.
  - destruct (gives_up c rest); [done|]. by apply IH.
Qed.

(** X26: [fastparse] leaves to [url.parse] every url that does not start with a
    slash, and every url that holds, after its first character, a tab, a
    line feed, a form feed, a carriage return, a space, a [#], a no-break
    space or a byte order mark, wherever it stands, before or after a
    question mark. *)
Theorem fastparse_hands_over str :
  (forall rest, str = String "/" rest -> plain rest = false) ->
  fastparse parse str = parse str.
Proof.
  intros Hstr. unfold fastparse.
  destruct str as [|c rest]; [done|].
  destruct (Ascii.eqb c "/") eqn:Hc.
  - apply Ascii.eqb_eq in Hc as ->.
    by rewrite fastparse_loop_gives_up by (by apply Hstr).
  - apply Ascii.eqb_neq in Hc.
    destruct c as [[] [] [] [] [] [] [] []]; try reflexivity.
    by destruct Hc.
Qed.

End HandedOver.
(** ** The middleware *)

Section Middleware.

Import Send ServeStatic.

Context (E : Externals) (P : Platform) (fs : string -> stat_result).

(** [send], whatever the branch: an error, a 304, or the body. *)
Lemma send_cases (Q : outcome -> Prop) st res file stat :
  (forall res' s err, Q (error E st res' s err)) ->
  (forall res', Q (notModified res')) ->
  (forall res' f o l, Q (send_body st res' f o l)) ->
  Q (send E st res file stat).
Proof.
  intros He Hn Hb. rewrite send_eq. unfold headersAlreadySent.
  destruct (headersSent res); [apply He|].
  destruct (isConditionalGET st && isPreconditionFailure _ _ _); [apply He|].
  destruct (isConditionalGET st && _); [apply Hn|].
  destruct (_acceptRanges st && _); [|apply Hb].
  destruct (isRangeFresh _ _ _); [|apply Hb].
  destruct (RangeParser.rangeParser _ _ _) as [| |type ranges];
    [apply Hb|apply He|].
  destruct ranges as [|range [|]]; apply Hb.
Qed.

Lemma onStatError_cases (Q : outcome -> Prop) st res err :
  (forall res' s err, Q (error E st res' s err)) ->
  Q (onStatError E st res err).
Proof.
  intros He. unfold onStatError. destruct (code err); [|apply He].
  destruct (_ || _); apply He.
Qed.

Lemma sendFile_next_cases (Q : outcome -> Prop) st res path exts : forall err,
  (forall res' s err, Q (error E st res' s err)) ->
  (forall res', Q (notModified res')) ->
  (forall res' f o l, Q (send_body st res' f o l)) ->
  Q (sendFile_next E fs st res path exts err).2.
Proof.
  induction exts as [|ext exts IH]; intros err He Hn Hb.
  { cbn [sendFile_next snd]. destruct err; [by apply onStatError_cases|].
    apply He. }
  cbn [sendFile_next]. destruct (fs (path +:+ "." +:+ ext)) as [c|stat].
  - specialize (IH (Some (stat_error c)) He Hn Hb).
    by destruct (sendFile_next E fs st res path exts _).
  - destruct (isDirectory stat).
    + specialize (IH None He Hn Hb).
      by destruct (sendFile_next E fs st res path exts _).
    + by apply send_cases.
Qed.

Lemma sendIndex_next_cases (Q : outcome -> Prop) st res path names :
  forall err,
  (forall res' s err, Q (error E st res' s err)) ->
  (forall res', Q (notModified res')) ->
  (forall res' f o l, Q (send_body st res' f o l)) ->
  Q (sendIndex_next E fs st res path names err).2.
Proof.
  induction names as [|n names IH]; intros err He Hn Hb.
  { cbn [sendIndex_next snd]. destruct err; [by apply onStatError_cases|].
    apply He. }
  cbn [sendIndex_next]. destruct (fs (Path.join path n)) as [c|stat].
  - specialize (IH (Some (stat_error c)) He Hn Hb).
    by destruct (sendIndex_next E fs st res path names _).
  - destruct (isDirectory stat).
    + specialize (IH None He Hn Hb).
      by destruct (sendIndex_next E fs st res path names _).
    + by apply send_cases.
Qed.

(** [pipe], whatever the branch. *)
Lemma pipe_cases (Q : outcome -> Prop) st res :
  (forall res' s err, Q (error E st res' s err)) ->
  (forall res', Q (notModified res')) ->
  (forall res' f o l, Q (send_body st res' f o l)) ->
  (forall dir, Q (Send.redirect E st res dir)) ->
  Q (pipe E fs st res).2.
Proof.
  intros He Hn Hb Hr. unfold pipe.
  destruct (decode (path st)) as [p|]; [|apply He].
  destruct (bool_decide _); [apply He|].
  match goal with
  | |- context [match ?x with Some _ => _ | None => ([], error _ _ _ 403 _) end] =>
      destruct x as [[parts file]|]
  end; [|apply He].
  match goal with
  | |- context [match ?x with Some _ => _ | None => _ end] =>
      destruct x as [status|]
  end; [apply He|].
  destruct (negb _ && _).
  { unfold sendIndex. by apply sendIndex_next_cases. }
  unfold sendFile. destruct (fs file) as [c|stat].
  - destruct (_ && _).
    + pose proof (sendFile_next_cases Q st res file (_extensions st)
                    (Some (stat_error c)) He Hn Hb).
      by destruct (sendFile_next E fs st res file _ _).
    + by apply onStatError_cases.
  - destruct (isDirectory stat); [apply Hr|by apply send_cases].
Qed.

(** With an [error] listener, [error] writes nothing: it hands over the
    error, which carries the status. *)
Lemma error_listened st res s err :
  on_error st = true ->
  (exists t, error E st res s err = Throws t) \/
  (exists e, error E st res s err = EmitError e /\ status e = Some s).
Proof.
  intros Hl. unfold error. rewrite Hl. unfold createHttpError.
  destruct err as [e|]; [right; by eexists|].
  destruct (getStatusCodeMessage E s); [left|right]; by eexists.
Qed.

(** What [pipe] does on a stream with listeners for [error] and
    [directory]: it pipes the file, ends the response without a body, or
    hands over an error with its status or a directory. *)
Lemma pipe_listened st res :
  on_error st = true -> on_directory st = true ->
  match (pipe E fs st res).2 with
  | Ended _ body => body = ""
  | EmitError e => is_Some (status e)
  | _ => True
  end.
Proof.
  intros Hl Hd. apply pipe_cases.
  - intros res' s err.
    destruct (error_listened st res' s err Hl) as [[t ->]|(e & -> & He)];
      [done|by eexists].
  - done.
  - intros res' f o l. unfold send_body. by destruct (String.eqb _ _).
  - intros dir. unfold Send.redirect. by rewrite Hd.
Qed.

Lemma error_404_listened forwardError st res :
  on_error st = true ->
  match error_404 E forwardError st res with
  | Next None => forwardError = false
  | Next (Some e) =>
      forwardError = true \/ exists s, status e = Some s /\ 500 <= s
  | Responded _ _ | Streamed _ _ _ _ => False
  | Thrown _ => True
  end.
Proof.
  intros Hl. unfold error_404.
  destruct (error_listened st res 404 None Hl) as [[t ->]|(e & -> & He)];
    [done|].
  unfold on_error_listener. rewrite He.
  destruct forwardError; [by left|]. cbn [orb negb]. reflexivity.
Qed.

(** The stream the handler pipes has its three listeners. *)
Lemma listeners_added (f : option headers_listener) st :
  on_error
    (on_error_add
       (match f with
        | Some f => on_headers_add f (on_directory_add st)
        | None => on_directory_add st
        end)) = true /\
  on_directory
    (on_error_add
       (match f with
        | Some f => on_headers_add f (on_directory_add st)
        | None => on_directory_add st
        end)) = true.
Proof. by destruct f. Qed.

(** X27: The middleware writes no error page: the one body it writes is that of
    the redirect to a directory, under the status 301 and with its
    [Location]; every other response it ends has no body. *)
Theorem handle_writes_no_error_page m req res evs r body :
  handle E P fs m req res = (evs, Responded r body) ->
  body <> "" ->
  statusCode r = 301 /\ is_Some (res_getHeader r "Location").
Proof.
  unfold handle.
  destruct (negb _ && negb _).
  { destruct (m_fallthrough m); [done|].
    destruct (headersSent res); [done|]. by intros [= <- <- <-]. }
  destruct (ParseUrl.parseUrl (parse P) req) as [[parsed|] req1]; [|done].
  destruct (ParseUrl.getOriginalUrl (parse P) req1) as [originalUrl req2].
  match goal with
  | |- context [match ?x with inl _ => _ | inr _ => _ end] =>
      destruct x as [t|path]
  end; [done|].
  destruct (constructor E _ _ _) as [t|stream]; [done|].
  destruct (_ && _); [done|].
  set (st := on_error_add _).
  destruct (listeners_added (m_setHeaders m) stream) as [Hl Hd].
  fold st in Hl, Hd.
  pose proof (pipe_listened st res Hl Hd) as Hp.
  destruct (pipe E fs st res) as [evs' o]. cbn [snd] in Hp.
  intros [= -> Ho] Hb. destruct o as [r' b| |e|r' dir|]; try done.
  - injection Ho as <- <-. done.
  - unfold on_error_listener in Ho. by destruct (_ || _).
  - destruct (m_redirect m).
    + unfold redirect_listener in Ho.
      destruct (bool_decide (path = None)); [done|].
      destruct (hasTrailingSlash st).
      { pose proof (error_404_listened
                      (negb (m_fallthrough m) || m_fallthrough m && file_seen evs)
                      st r' Hl) as H4.
        rewrite Ho in H4. done. }
      destruct (ParseUrl.getOriginalUrl (parse P) req2).1; [|done].
      destruct (headersSent r'); [done|].
      injection Ho as <- <-. split; [done|].
      rewrite res_getHeader_set_eq. by eexists.
    + unfold notFound in Ho.
      pose proof (error_404_listened
                    (negb (m_fallthrough m) || m_fallthrough m && file_seen evs)
                    st r' Hl) as H4.
      rewrite Ho in H4. done.
Qed.

(** X28: The errors the middleware hands to [next]: without an error, only when
    [fallthrough] is on; with one, only when [fallthrough] is off, or a
    file had been found, or the status of the error is 500 or more. *)
Theorem handle_forwards_errors m req res evs err :
  handle E P fs m req res = (evs, Next err) ->
  match err with
  | None => m_fallthrough m = true
  | Some e =>
      m_fallthrough m = false \/ file_seen evs = true \/
      exists s, status e = Some s /\ 500 <= s
  end.
Proof.
  unfold handle.
  destruct (negb _ && negb _).
  { destruct (m_fallthrough m) eqn:Hf.
    - by intros [= <- <-].
    - by destruct (headersSent res). }
  destruct (ParseUrl.parseUrl (parse P) req) as [[parsed|] req1]; [|done].
  destruct (ParseUrl.getOriginalUrl (parse P) req1) as [originalUrl req2].
  match goal with
  | |- context [match ?x with inl _ => _ | inr _ => _ end] =>
      destruct x as [t|path]
  end; [done|].
  destruct (constructor E _ _ _) as [t|stream]; [done|].
  destruct (_ && _); [done|].
  set (st := on_error_add _).
  destruct (listeners_added (m_setHeaders m) stream) as [Hl Hd].
  fold st in Hl, Hd.
  pose proof (pipe_listened st res Hl Hd) as Hp.
  destruct (pipe E fs st res) as [evs' o]. cbn [snd] in Hp.
  intros [= -> Ho].
  assert (Hfw : forall e,
    on_error_listener
      (negb (m_fallthrough m) || m_fallthrough m && file_seen evs) e
    = Next err -> is_Some (status e) ->
    match err with
    | None => m_fallthrough m = true
    | Some e =>
        m_fallthrough m = false \/ file_seen evs = true \/
        exists s, status e = Some s /\ 500 <= s
    end).
  { intros e. unfold on_error_listener. intros He [s Hs]. rewrite Hs in *.
    destruct (m_fallthrough m); cbn [negb orb andb] in He.
    - destruct (file_seen evs); cbn [orb] in He.
      + injection He as <-. by right; left.
      + destruct (s <? 500) eqn:Hlt; cbn [negb] in He.
        * by injection He as <-.
        * injection He as <-. right; right. exists s. split; [done|lia].
    - injection He as <-. by left. }
  assert (H404 : forall r',
    error_404 E (negb (m_fallthrough m) || m_fallthrough m && file_seen evs)
              st r' = Next err ->
    match err with
    | None => m_fallthrough m = true
    | Some e =>
        m_fallthrough m = false \/ file_seen evs = true \/
        exists s, status e = Some s /\ 500 <= s
    end).
  { intros r' H4.
    pose proof (error_404_listened
                  (negb (m_fallthrough m) || m_fallthrough m && file_seen evs)
                  st r' Hl) as Hx.
    rewrite H4 in Hx. destruct err as [e|].
    - destruct Hx as [Hx|Hx]; [|by right; right].
      destruct (m_fallthrough m); [|by left].
      cbn [negb orb andb] in Hx. by right; left.
    - by destruct (m_fallthrough m). }
  destruct o as [r' b| |e|r' dir|]; try done.
  - by apply (Hfw e).
  - destruct (m_redirect m); [|by apply (H404 r')].
    unfold redirect_listener in Ho.
    destruct (bool_decide (path = None)); [done|].
    destruct (hasTrailingSlash st); [by apply (H404 r')|].
    destruct (ParseUrl.getOriginalUrl (parse P) req2).1; [|done].
    by destruct (headersSent r').
Qed.

End Middleware.
(** ** The middleware and its root *)

Section MiddlewareRoot.

Import Send ServeStatic.

Context (E : Externals) (P : Platform) (fs : string -> stat_result).

Lemma resolve_normal c l :
  Forall proper_segment l ->
  Path.resolve c (String "/" (Path.join_with "/" l))
  = String "/" (Path.join_with "/" l).
Proof.
  intros Hl. unfold Path.resolve. cbn [Path.isAbsolute].
  replace (Ascii.eqb "/" Path.sep) with true by done.
  f_equal. unfold Path.normalizeString. rewrite split_String.
  replace (Ascii.eqb Path.sep "/") with true by done.
  destruct l as [|x l]; [reflexivity|].
  set (l' := x :: l) in *.
  rewrite split_join by (try done; by apply proper_slashfree).
  cbn [fold_left]. unfold Path.normalize_step at 2.
  simpl String.eqb at 1. cbn [orb].
  rewrite fold_step_proper by done.
  by rewrite app_nil_r, rev_involutive.
Qed.

(** A resolved path resolves to itself. *)
Lemma resolve_idempotent c c' p :
  Path.resolve c (Path.resolve c' p) = Path.resolve c' p.
Proof.
  destruct (resolve_segments c' p) as (segs & Hsegs & ->).
  by apply resolve_normal.
Qed.

Lemma resolve_nonempty c p : Path.resolve c p <> "".
Proof. done. Qed.

(** What the constructor makes of [extensions], [index] and [root]. *)
Lemma constructor_lists rq p o st :
  constructor E rq p o = inr st ->
  _extensions st = listed (opt_extensions o) [] /\
  _index st = listed (opt_index o) ["index.html"] /\
  _root st = match opt_root o with
             | Some r =>
                 if String.eqb r "" then None
                 else Some (Path.resolve (cwd E) r)
             | None => None
             end.
Proof.
  unfold constructor, listed.
  destruct (_ && _); [done|].
  destruct (opt_extensions o) as [ve|];
    [destruct ve as [[]|s|l]; cbn [normalizeList]; [done| | |]|];
    (destruct (opt_index o) as [vi|];
     [destruct vi as [[]|s'|l']; cbn [normalizeList]; [done| | |]|]);
    (destruct (opt_maxAge o) as [[str|n]|];
     [destruct (String.eqb str ""); [done|]| |]);
    by intros [= <-].
Qed.

(** X29: The middleware looks at nothing outside its root: whatever the request,
    the paths it hands to [fs.stat] and those it emits [file] for are made
    of the segments of the resolved root followed by more segments, none of
    them [..].  The one exception is the root itself with an extension put
    at its end. *)
Theorem handle_stays_below_root root options m req res :
  serveStatic E root options = inr m ->
  Forall (fun e => Js.indexOf_char "/" e = None)
         (listed (opt_extensions (for_send options)) []) ->
  Forall (fun n => ".." ∉ Js.split "/" n)
         (listed (opt_index (for_send options)) ["index.html"]) ->
  Forall (fun ev =>
            below (Path.resolve (cwd E) root) (event_path ev) \/
            exists ext,
              ext ∈ listed (opt_extensions (for_send options)) [] /\
              event_path ev = Path.resolve (cwd E) root +:+ "." +:+ ext)
         (handle E P fs m req res).1.
Proof.
  unfold serveStatic. destruct (String.eqb root ""); [done|].
  intros [= <-] Hexts Hidx. unfold handle.
  cbn [opts m_fallthrough m_redirect m_setHeaders].
  destruct (negb _ && negb _).
  { destruct (negb (bool_decide (fallthrough options = Some false)));
      [constructor|].
    destruct (headersSent res); constructor. }
  destruct (ParseUrl.parseUrl (parse P) req) as [[parsed|] req1];
    [|constructor].
  destruct (ParseUrl.getOriginalUrl (parse P) req1) as [originalUrl req2].
  match goal with
  | |- context [match ?x with inl _ => _ | inr _ => _ end] =>
      destruct x as [t|path]
  end; [constructor|].
  destruct (constructor E _ _ _) as [t|stream] eqn:Hc; [constructor|].
  apply constructor_lists in Hc as (Hce & Hci & Hcr).
  cbn [opt_extensions opt_index opt_root] in Hce, Hci, Hcr.
  assert (Hne : String.eqb (Path.resolve (cwd E) root) "" = false) by done.
  rewrite Hne, resolve_idempotent in Hcr.
  destruct (_ && _); [constructor|].
  set (st := on_error_add _).
  assert (Hst : _extensions st = _extensions stream /\
                _index st = _index stream /\ _root st = _root stream).
  { unfold st. by destruct (setHeaders options). }
  destruct Hst as (He & Hi & Hr).
  pose proof (pipe_stays_below_root E fs st res root
                (Path.resolve (cwd E) root)) as Hb.
  rewrite He, Hi, Hr, Hce, Hci, Hcr in Hb.
  specialize (Hb eq_refl eq_refl Hexts Hidx).
  by destruct (pipe E fs st res) as [evs o].
Qed.

End MiddlewareRoot.
(** ** The redirect at the mount point *)

Section Mount.

Import Send ServeStatic.

Context (E : Externals) (P : Platform) (fs : string -> stat_result).

Lemma constructor_path rq p o st :
  constructor E rq p o = inr st -> path st = p.
Proof.
  unfold constructor.
  destruct (_ && _); [done|].
  destruct (opt_extensions o) as [ve|];
    [destruct (normalizeList ve _) as [?|exts]; [done|]|];
    (destruct (opt_index o) as [vi|];
     [destruct (normalizeList vi _) as [?|idx]; [done|]|]);
    (destruct (opt_maxAge o) as [[str|n]|];
     [destruct (String.eqb str ""); [done|]| |]);
    by intros [= <-].
Qed.

(** The empty path under a root resolves to the root. *)
Lemma resolved_path_root st c r :
  _root st = Some (Path.resolve c r) ->
  resolved_path E st "" = Path.resolve c r.
Proof.
  intros Hr. unfold resolved_path. rewrite Hr.
  destruct (resolve_segments c r) as (segs & Hsegs & ->).
  unfold relative_to_root. cbn [String.eqb negb]. unfold Path.join.
  cbn [String.eqb].
  pose proof (normalize_normal segs false Hsegs (fun _ => eq_refl)) as Hn.
  rewrite append_nil_r in Hn. by rewrite !Hn.
Qed.

(** X30: A request for the mount point itself, written without a slash at its
    end: the url is [/] while the original url does not end in a slash.
    The path of the stream is made empty, the root, a directory, is found
    and not entered, and the reply is the redirect to the pathname of the
    original url with a slash at its end. *)
Theorem handle_redirects_at_mount root options m req res ou op stream stat :
  serveStatic E root options = inr m ->
  method (ParseUrl.message req) = "GET" ->
  ParseUrl.url req = Some "/" -> ParseUrl._parsedUrl req = None ->
  ParseUrl.originalUrl req = Some ou ->
  ParseUrl._parsedOriginalUrl req = None ->
  ParseUrl.pathname (ParseUrl.fastparse (parse P) ou) = Some op ->
  Path.ends_with "/" op = false ->
  constructor E (ParseUrl.message req) "" (opts m) = inr stream ->
  fs (Path.resolve (cwd E) root) = StatOk stat -> isDirectory stat = true ->
  m_redirect m = true ->
  headersSent res = false ->
  exists r doc,
    handle E P fs m req res
    = ([EvStat (Path.resolve (cwd E) root)], Responded r doc) /\
    statusCode r = 301 /\
    res_getHeader r "Location"
    = Some (encodeUrl E
              (format P
                 (ParseUrl.mkUrl None
                    (ParseUrl.href (ParseUrl.fastparse (parse P) ou))
                    (Some (collapseLeadingSlashes (op +:+ "/")))
                    (ParseUrl.query (ParseUrl.fastparse (parse P) ou))
                    (ParseUrl.search (ParseUrl.fastparse (parse P) ou))
                    (ParseUrl.others (ParseUrl.fastparse (parse P) ou))
                    (Some ou)))).
Proof.
  intros Hm Hget Hurl Hcache Hou Hocache Hop Hend Hc Hfs Hdir Hred Hsent.
  assert (Hroot : opt_root (opts m) = Some (Path.resolve (cwd E) root)).
  { unfold serveStatic in Hm. destruct (String.eqb root ""); [done|].
    by injection Hm as <-. }
  pose proof (constructor_path _ _ _ _ Hc) as Hpath.
  pose proof (constructor_lists E _ _ _ _ Hc) as (_ & _ & Hr).
  rewrite Hroot in Hr.
  replace (String.eqb (Path.resolve (cwd E) root) "") with false in Hr
    by done.
  rewrite resolve_idempotent in Hr.
  unfold handle. rewrite Hget. cbn [String.eqb Ascii.eqb Bool.eqb negb andb].
  unfold ParseUrl.parseUrl. rewrite Hurl, Hcache. cbn [ParseUrl.fresh].
  change (ParseUrl.fastparse (parse P) "/")
    with (ParseUrl.mkUrl (Some "/") (Some "/") (Some "/") None None [] None).
  cbn [ParseUrl.set_raw ParseUrl.pathname ParseUrl.path ParseUrl.href
       ParseUrl.query ParseUrl.search ParseUrl.others].
  unfold ParseUrl.getOriginalUrl at 1.
  cbn [ParseUrl.set_parsedUrl ParseUrl.originalUrl
       ParseUrl._parsedOriginalUrl].
  rewrite Hou, Hocache. cbn [ParseUrl.fresh].
  rewrite bool_decide_eq_true_2 by done.
  cbn [ParseUrl.set_raw ParseUrl.pathname]. rewrite Hop, Hend.
  cbn [negb or_null ParseUrl.set_parsedOriginalUrl ParseUrl.set_parsedUrl
       ParseUrl.message].
  rewrite Hc.
  rewrite bool_decide_eq_false_2 by done. cbn [andb].
  set (st := on_error_add _).
  assert (Hst : path st = "" /\ _root st = Some (Path.resolve (cwd E) root)
                /\ on_directory st = true).
  { unfold st. by destruct (m_setHeaders m). }
  destruct Hst as (Hp & Hrt & Hd).
  assert (Hpipe : pipe E fs st res
                  = ([EvStat (Path.resolve (cwd E) root)],
                     EmitDirectory res (Path.resolve (cwd E) root))).
  { rewrite (pipe_checked E fs st res "").
    - unfold path_parts. rewrite Hrt.
      unfold hasTrailingSlash. rewrite Hp.
      cbn [relative_to_root String.eqb negb Js.split containsDotFile existsb
           String.length Nat.ltb Nat.leb andb Path.ends_with].
      rewrite andb_false_r.
      rewrite (resolved_path_root st (cwd E) root Hrt).
      unfold sendFile. rewrite Hfs, Hdir. unfold Send.redirect.
      by rewrite Hd.
    - by rewrite Hp.
    - reflexivity.
    - by rewrite Hrt. }
  rewrite Hpipe, Hred. unfold redirect_listener.
  unfold hasTrailingSlash. rewrite Hp. cbn [Path.ends_with].
  unfold ParseUrl.getOriginalUrl.
  cbn [ParseUrl.originalUrl ParseUrl._parsedOriginalUrl ParseUrl.fresh
       ParseUrl.set_parsedOriginalUrl ParseUrl.set_parsedUrl
       ParseUrl.set_raw ParseUrl._raw fst].
  rewrite Hou. rewrite bool_decide_eq_true_2 by done.
  cbn [fst ParseUrl.pathname ParseUrl.href ParseUrl.query ParseUrl.search
       ParseUrl.others ParseUrl._raw ParseUrl.set_raw or_null].
  rewrite Hop, Hsent. cbn [or_null].
  eexists _, _. split; [reflexivity|]. split; [reflexivity|].
  apply res_getHeader_set_eq.
Qed.

End Mount.
(** ** The properties at work on the concrete platform *)

(** Tried on [bytes=5-6,0-1] on 10 bytes: two ranges, apart. *)
Lemma rangeParser_combine_apart_witness :
  Forall (within 10)
    [RangeParser.mkRange 5 6; RangeParser.mkRange 0 1] /\
  (forall i j a b, i <> j ->
     [RangeParser.mkRange 5 6; RangeParser.mkRange 0 1] !! i = Some a ->
     [RangeParser.mkRange 5 6; RangeParser.mkRange 0 1] !! j = Some b ->
     apart a b \/ apart b a).
Proof.
  apply (rangeParser_combine_apart 10 "bytes=5-6,0-1" "bytes"
           [RangeParser.mkRange 5 6; RangeParser.mkRange 0 1]).
  vm_compute. reflexivity.
Defined.

(** Tried on [bytes=-3] on 10 bytes: the last three. *)
Lemma rangeParser_suffix_within_witness :
  RangeParser.rangeParser 10 ("bytes=-" +:+ "3") true
  = RangeParser.Ranges "bytes" [RangeParser.mkRange (10 - 3) (10 - 1)].
Proof.
  apply (rangeParser_suffix_within 10 "3" 3 true);
    first [reflexivity | lia].
Defined.

(** Tried on a file under a dot directory, the option left out. *)
Lemma pipe_legacy_is_ignore_witness :
  Send.pipe Node.externals Node.fs
    (Node.new (Node.GET []) "/.hidden/file.txt" Node.under_srv) Node.res0
  = Send.pipe Node.externals Node.fs
      (with_dotfiles (Some "ignore")
         (Node.new (Node.GET []) "/.hidden/file.txt" Node.under_srv))
      Node.res0.
Proof.
  apply (pipe_legacy_is_ignore Node.externals Node.fs
           (Node.new (Node.GET []) "/.hidden/file.txt" Node.under_srv)
           Node.res0).
  reflexivity.
Defined.

(** Tried on [bytes=0-4,8-20] on 10 bytes. *)
Lemma rangeParser_ranges_within_witness :
  [RangeParser.mkRange 0 4; RangeParser.mkRange 8 9] <> [] /\
  Forall (within 10) [RangeParser.mkRange 0 4; RangeParser.mkRange 8 9] /\
  0 < 10.
Proof.
  apply (rangeParser_ranges_within 10 "bytes=0-4,8-20" false "bytes"
           [RangeParser.mkRange 0 4; RangeParser.mkRange 8 9]).
  vm_compute. reflexivity.
Defined.

(** Tried on [bytes=0-4,3-6] on 10 bytes: one range, the same bytes. *)
Lemma rangeParser_combine_same_bytes_witness :
  exists ranges0,
    RangeParser.rangeParser 10 "bytes=0-4,3-6" false
    = RangeParser.Ranges "bytes" ranges0 /\
    forall x, covered [RangeParser.mkRange 0 6] x <-> covered ranges0 x.
Proof.
  apply (rangeParser_combine_same_bytes 10 "bytes=0-4,3-6" "bytes"
           [RangeParser.mkRange 0 6]).
  vm_compute. reflexivity.
Defined.

(** Tried on [bytes=2-50] on 10 bytes: cut at 9. *)
Lemma rangeParser_single_range_witness :
  RangeParser.rangeParser 10 "bytes=2-50" true
  = RangeParser.Ranges "bytes" [RangeParser.mkRange 2 9].
Proof.
  exact (rangeParser_single_range 10 "2" "50" 2 true
           eq_refl eq_refl eq_refl eq_refl eq_refl).
Defined.



(** Tried on [bytes=0-0] on the empty file. *)
Lemma send_empty_window_416_witness :
  exists r body,
    Send.send Node.externals
      (Node.new (Node.GET [("range", "bytes=0-0")]) "/empty" Node.under_srv)
      Node.res0 "/srv/empty" (Send.mkStats 0 5000 false)
    = Send.Ended r body /\
    Send.statusCode r = 416 /\
    Send.res_getHeader r "Content-Range" = Some ("bytes */" +:+ Js.of_Z 0).
Proof.
  apply (send_empty_window_416 Node.externals
           (Node.new (Node.GET [("range", "bytes=0-0")]) "/empty"
              Node.under_srv)
           Node.res0 "/srv/empty" (Send.mkStats 0 5000 false)
           "Range Not Satisfiable");
    vm_compute; first [reflexivity | discriminate].
Defined.

(** Tried on a dot directory under [deny]. *)
Lemma pipe_rejects_without_stat_witness :
  Send.pipe Node.externals Node.fs
    (Node.new (Node.GET []) "/.hidden/file.txt"
       (Node.under_srv_dotfiles "deny")) Node.res0
  = ([], Send.error Node.externals
           (Node.new (Node.GET []) "/.hidden/file.txt"
              (Node.under_srv_dotfiles "deny")) Node.res0 403 None).
Proof.
  apply (pipe_rejects_without_stat Node.externals Node.fs
           (Node.new (Node.GET []) "/.hidden/file.txt"
              (Node.under_srv_dotfiles "deny")) Node.res0)
    with (p := "/.hidden/file.txt");
    vm_compute; reflexivity.
Defined.

(** Tried on the index of [/srv/sub/]. *)
Lemma pipe_stays_below_root_witness :
  Forall (fun ev => below "/srv" (event_path ev) \/
                    exists ext, ext ∈ [] /\
                      event_path ev = "/srv" +:+ "." +:+ ext)
         [Send.EvStat "/srv/sub/index.html"; Send.EvFile "/srv/sub/index.html"].
Proof.
  apply (pipe_stays_below_root Node.externals Node.fs
           (Node.new (Node.GET []) "/sub/" Node.under_srv) Node.res0
           "/srv" "/srv").
  - reflexivity.
  - reflexivity.
  - vm_compute. constructor.
  - apply (bool_decide_unpack _). vm_compute. reflexivity.
Defined.

(** Tried on [/srv/a] with the extensions [htm] and [txt]. *)
Lemma sendFile_first_extension_witness :
  Send.sendFile Node.externals Node.fs
    (Node.new (Node.GET []) "/a" (Node.under_srv_extensions ["htm"; "txt"]))
    Node.res0 "/srv/a"
  = (stats_of ("/srv/a" :: ((fun e => "/srv/a" +:+ "." +:+ e) <$> ["htm"]))
       ++ [Send.EvStat ("/srv/a" +:+ "." +:+ "txt");
           Send.EvFile ("/srv/a" +:+ "." +:+ "txt")],
     Send.send Node.externals
       (Node.new (Node.GET []) "/a" (Node.under_srv_extensions ["htm"; "txt"]))
       Node.res0 ("/srv/a" +:+ "." +:+ "txt") (Send.mkStats 6 1000 false)).
Proof.
  apply (sendFile_first_extension Node.externals Node.fs
           (Node.new (Node.GET []) "/a"
              (Node.under_srv_extensions ["htm"; "txt"]))
           Node.res0 "/srv/a" ["htm"] "txt" [] (Send.mkStats 6 1000 false));
    try reflexivity.
  constructor; [exact I|constructor].
Defined.

(** Tried on [/srv/sub/] with four index names: the first may not be read,
    the second is a directory, the third is the file sent, and the fourth
    is not looked at. *)
Lemma sendIndex_first_file_witness :
  Send.sendIndex Node.externals Node.fs_index
    (Node.new (Node.GET []) "/sub/"
       (Node.under_srv_index ["a.html"; "b.html"; "index.html"; "z.html"]))
    Node.res0 "/srv/sub/"
  = (stats_of (Path.join "/srv/sub/" <$> ["a.html"; "b.html"])
       ++ [Send.EvStat (Path.join "/srv/sub/" "index.html");
           Send.EvFile (Path.join "/srv/sub/" "index.html")],
     Send.send Node.externals
       (Node.new (Node.GET []) "/sub/"
          (Node.under_srv_index ["a.html"; "b.html"; "index.html"; "z.html"]))
       Node.res0
       (Path.join "/srv/sub/" "index.html") (Send.mkStats 5 3000 false)) /\
  Node.fs_index (Path.join "/srv/sub/" "a.html") = Send.StatError "EACCES" /\
  Node.fs_index (Path.join "/srv/sub/" "b.html")
  = Send.StatOk (Send.mkStats 4096 8000 true).
Proof.
  split; [|split; reflexivity].
  apply (sendIndex_first_file Node.externals Node.fs_index
           (Node.new (Node.GET []) "/sub/"
              (Node.under_srv_index
                 ["a.html"; "b.html"; "index.html"; "z.html"]))
           Node.res0 "/srv/sub/" ["a.html"; "b.html"] "index.html"
           ["z.html"] (Send.mkStats 5 3000 false)).
  - reflexivity.
  - constructor; [exact I|]. constructor; [reflexivity|constructor].
  - reflexivity.
  - reflexivity.
Defined.

(** Tried on [/srv/sub/] with two index names: the first may not be read,
    which alone is answered 500, and the second is a directory: the answer
    is 404. *)
Lemma sendIndex_last_decides_witness :
  Send.sendIndex Node.externals Node.fs_index
    (Node.new (Node.GET []) "/sub/"
       (Node.under_srv_index ["a.html"; "b.html"]))
    Node.res0 "/srv/sub/"
  = (stats_of (Path.join "/srv/sub/" <$> ["a.html"] ++ ["b.html"]),
     match Node.fs_index (Path.join "/srv/sub/" "b.html") with
     | Send.StatError c =>
         Send.onStatError Node.externals
           (Node.new (Node.GET []) "/sub/"
              (Node.under_srv_index ["a.html"; "b.html"]))
           Node.res0 (Send.stat_error c)
     | Send.StatOk _ =>
         Send.error Node.externals
           (Node.new (Node.GET []) "/sub/"
              (Node.under_srv_index ["a.html"; "b.html"]))
           Node.res0 404 None
     end) /\
  Node.fs_index (Path.join "/srv/sub/" "a.html") = Send.StatError "EACCES" /\
  (exists r body,
     Send.onStatError Node.externals
       (Node.new (Node.GET []) "/sub/"
          (Node.under_srv_index ["a.html"; "b.html"]))
       Node.res0 (Send.stat_error "EACCES") = Send.Ended r body /\
     Send.statusCode r = 500) /\
  (exists r body,
     (Send.sendIndex Node.externals Node.fs_index
        (Node.new (Node.GET []) "/sub/"
           (Node.under_srv_index ["a.html"; "b.html"]))
        Node.res0 "/srv/sub/").2 = Send.Ended r body /\
     Send.statusCode r = 404).
Proof.
  assert (H : Send.sendIndex Node.externals Node.fs_index
    (Node.new (Node.GET []) "/sub/"
       (Node.under_srv_index ["a.html"; "b.html"]))
    Node.res0 "/srv/sub/"
  = (stats_of (Path.join "/srv/sub/" <$> ["a.html"] ++ ["b.html"]),
     match Node.fs_index (Path.join "/srv/sub/" "b.html") with
     | Send.StatError c =>
         Send.onStatError Node.externals
           (Node.new (Node.GET []) "/sub/"
              (Node.under_srv_index ["a.html"; "b.html"]))
           Node.res0 (Send.stat_error c)
     | Send.StatOk _ =>
         Send.error Node.externals
           (Node.new (Node.GET []) "/sub/"
              (Node.under_srv_index ["a.html"; "b.html"]))
           Node.res0 404 None
     end)).
  { apply (sendIndex_last_decides Node.externals Node.fs_index
             (Node.new (Node.GET []) "/sub/"
                (Node.under_srv_index ["a.html"; "b.html"]))
             Node.res0 "/srv/sub/" ["a.html"] "b.html").
    - reflexivity.
    - constructor; [exact I|]. constructor; [reflexivity|constructor]. }
  split; [exact H|]. split; [reflexivity|]. split.
  - eexists _, _. split; [vm_compute; reflexivity|reflexivity].
  - rewrite H. eexists _, _. split; [vm_compute; reflexivity|reflexivity].
Defined.

(** Tried on [/a.txt] under [/srv]. *)
Lemma pipe_Piped_after_stat_witness :
  exists evs' stat,
    [Send.EvStat "/srv/a.txt"; Send.EvFile "/srv/a.txt"]
    = evs' ++ [Send.EvStat "/srv/a.txt"; Send.EvFile "/srv/a.txt"] /\
    Node.fs "/srv/a.txt" = Send.StatOk stat /\
    Send.isDirectory stat = false.
Proof.
  let o := eval vm_compute in
    (Send.pipe Node.externals Node.fs
       (Node.new (Node.GET []) "/a.txt" Node.under_srv) Node.res0) in
  match o with
  | (?evs, Send.Piped ?r ?f ?s ?e) =>
      apply (pipe_Piped_after_stat Node.externals Node.fs
               (Node.new (Node.GET []) "/a.txt" Node.under_srv) Node.res0
               evs r f s e)
  end.
  vm_compute. reflexivity.
Defined.

(** Tried on a 404 on a response that carried an ETag. *)
Lemma error_page_headers_witness :
  exists r body,
    Send.error Node.externals
      (Node.new (Node.GET []) "/nothing" Node.under_srv)
      (Send.res_setHeader Node.res0 "ETag" "abc") 404 None
    = Send.Ended r body /\
    forall k, is_Some (Send.headers r !! k) ->
      k ∈ error_page_names \/
      k ∈ (fun kv => Send.toLowerCase kv.1) <$> error_headers None.
Proof.
  eexists _, _. split; [vm_compute; reflexivity|].
  apply (error_page_headers Node.externals
           (Node.new (Node.GET []) "/nothing" Node.under_srv)
           (Send.res_setHeader Node.res0 "ETag" "abc") 404 None _
           (Send.createHtmlDocument "Error" "Not Found")).
  - apply names_lower_set, names_lower_empty.
  - vm_compute. reflexivity.
Defined.

(** Tried on a listener that sets Cache-Control. *)
Lemma prepared_keeps_listener_headers_witness :
  Send.res_getHeader
    (prepared Node.externals
       (Send.on_headers_add Node.no_store
          (Node.new (Node.GET []) "/a.txt" Node.under_srv))
       Node.res0 "/srv/a.txt" (Send.mkStats 6 1000 false))
    "Cache-Control"
  = Send.res_getHeader
      (after_listeners
         (Send.on_headers_add Node.no_store
            (Node.new (Node.GET []) "/a.txt" Node.under_srv))
         Node.res0 "/srv/a.txt" (Send.mkStats 6 1000 false))
      "Cache-Control".
Proof.
  apply (prepared_keeps_listener_headers Node.externals
           (Send.on_headers_add Node.no_store
              (Node.new (Node.GET []) "/a.txt" Node.under_srv))
           Node.res0 "/srv/a.txt" (Send.mkStats 6 1000 false)
           "Cache-Control").
  left. vm_compute. reflexivity.
Defined.

(** Tried on a [maxAge] beyond a year. *)
Lemma constructor_maxage_clamped_witness :
  0 <= Send._maxage
         (Node.new (Node.GET []) "/a.txt"
            (Node.under_srv_maxAge 99999999999999)) / 1000 <= 31536000 /\
  (Send.opt_maxAge (Node.under_srv_maxAge 99999999999999) = None ->
   Send._maxage
     (Node.new (Node.GET []) "/a.txt"
        (Node.under_srv_maxAge 99999999999999)) = 0).
Proof.
  apply (constructor_maxage_clamped Node.externals (Node.GET []) "/a.txt"
           (Node.under_srv_maxAge 99999999999999)).
  vm_compute. reflexivity.
Defined.

(** Asked for the empty path under the root [/srv], which does not exist,
    [pipe] tries [/srv.html] and serves it: the file lies beside the root,
    not below it. *)
Example root_with_extension_is_served :
  exists r,
    Send.pipe Node.externals Node.fs_beside
      (Node.new (Node.GET []) "" (Node.under_srv_extensions ["html"]))
      Node.res0
    = ([Send.EvStat "/srv"; Send.EvStat "/srv.html"; Send.EvFile "/srv.html"],
       Send.Piped r "/srv.html" 0 3) /\
    Send.statusCode r = 200.
Proof. eexists. split; [vm_compute; reflexivity|reflexivity]. Qed.

(** Tried on a url with a query. *)
Lemma fastparse_splits_witness :
  exists pathname search,
    ParseUrl.fastparse Node.parse (String "/" "a.txt?x=1&y=2")
    = ParseUrl.mkUrl (Some (String "/" "a.txt?x=1&y=2"))
        (Some (String "/" "a.txt?x=1&y=2")) (Some pathname)
        (Js.slice_from 1 <$> search) search [] None /\
    pathname +:+ default "" search = String "/" "a.txt?x=1&y=2" /\
    String.prefix "/" pathname = true /\
    Js.indexOf_char "?" pathname = None /\
    (forall s, search = Some s -> String.prefix "?" s = true).
Proof.
  apply (fastparse_splits Node.parse "a.txt?x=1&y=2"). reflexivity.
Defined.

(** Tried on a request for [/b.txt?y=2] that keeps the parsed form of
    [/a.txt?x=1], which is replaced, and on a request that keeps the parsed
    form of its own url, which is returned. *)
Lemma parseUrl_transparent_witness :
  ((ParseUrl.parseUrl Node.parse
      (Node.request_with_memo "/b.txt?y=2" "/a.txt?x=1")).1
   = Some (ParseUrl.set_raw (ParseUrl.fastparse Node.parse "/b.txt?y=2")
             "/b.txt?y=2") /\
   ParseUrl._parsedUrl
     (ParseUrl.parseUrl Node.parse
        (Node.request_with_memo "/b.txt?y=2" "/a.txt?x=1")).2
   = Some (ParseUrl.set_raw (ParseUrl.fastparse Node.parse "/b.txt?y=2")
             "/b.txt?y=2") /\
   ParseUrl._parsedUrl (Node.request_with_memo "/b.txt?y=2" "/a.txt?x=1")
   = Some (ParseUrl.set_raw (ParseUrl.fastparse Node.parse "/a.txt?x=1")
             "/a.txt?x=1") /\
   ParseUrl.pathname
     (ParseUrl.set_raw (ParseUrl.fastparse Node.parse "/b.txt?y=2")
        "/b.txt?y=2") = Some "/b.txt") /\
  ((ParseUrl.parseUrl Node.parse
      (Node.request_with_memo "/a.txt?x=1" "/a.txt?x=1")).1
   = Some (ParseUrl.set_raw (ParseUrl.fastparse Node.parse "/a.txt?x=1")
             "/a.txt?x=1") /\
   (ParseUrl.parseUrl Node.parse
      (Node.request_with_memo "/a.txt?x=1" "/a.txt?x=1")).2
   = Node.request_with_memo "/a.txt?x=1" "/a.txt?x=1").
Proof.
  assert (Hmade : forall url kept,
    made_by_parseurl Node.parse
      (ParseUrl._parsedUrl (Node.request_with_memo url kept))).
  { intros url kept parsed u [= <-] [= <-]. reflexivity. }
  split.
  - destruct (parseUrl_transparent Node.parse
                (Node.request_with_memo "/b.txt?y=2" "/a.txt?x=1")
                "/b.txt?y=2" eq_refl (Hmade _ _))
      as (H1 & H2 & _).
    split; [exact H1|]. split; [exact H2|]. split; reflexivity.
  - destruct (parseUrl_transparent Node.parse
                (Node.request_with_memo "/a.txt?x=1" "/a.txt?x=1")
                "/a.txt?x=1" eq_refl (Hmade _ _))
      as (H1 & _).
    split; [exact H1|]. reflexivity.
Defined.

(** Tried on the directory [/sub], redirected. *)
Lemma handle_writes_no_error_page_witness :
  exists r body,
    ServeStatic.handle Node.externals Node.platform Node.fs Node.middleware
      (Node.request "GET" "/sub") Node.res0
    = ([Send.EvStat "/srv/sub"], ServeStatic.Responded r body) /\
    Send.statusCode r = 301 /\
    is_Some (Send.res_getHeader r "Location").
Proof.
  let o := eval vm_compute in
    (ServeStatic.handle Node.externals Node.platform Node.fs Node.middleware
       (Node.request "GET" "/sub") Node.res0) in
  match o with
  | (?evs, ServeStatic.Responded ?r ?body) =>
      exists r, body; split; [vm_compute; reflexivity|];
      apply (handle_writes_no_error_page Node.externals Node.platform Node.fs
               Node.middleware (Node.request "GET" "/sub") Node.res0
               evs r body)
  end.
  - vm_compute. reflexivity.
  - vm_compute. discriminate.
Defined.

(** Tried on a file that is not there: [next()]. *)
Lemma handle_forwards_errors_witness :
  ServeStatic.m_fallthrough Node.middleware = true.
Proof.
  apply (handle_forwards_errors Node.externals Node.platform Node.fs
           Node.middleware (Node.request "GET" "/missing") Node.res0
           [Send.EvStat "/srv/missing"] None).
  vm_compute. reflexivity.
Defined.

(** Tried on the index of [/sub/]. *)
Lemma handle_stays_below_root_witness :
  Forall (fun ev =>
            below (Path.resolve (Send.cwd Node.externals) "/srv")
                  (event_path ev) \/
            exists ext,
              ext ∈ listed (Send.opt_extensions Send.no_options) [] /\
              event_path ev
              = Path.resolve (Send.cwd Node.externals) "/srv" +:+ "." +:+ ext)
         (ServeStatic.handle Node.externals Node.platform Node.fs
            Node.middleware (Node.request "GET" "/sub/") Node.res0).1.
Proof.
  apply (handle_stays_below_root Node.externals Node.platform Node.fs "/srv"
           (ServeStatic.mkServeOptions Send.no_options None None None)
           Node.middleware (Node.request "GET" "/sub/") Node.res0).
  - reflexivity.
  - constructor.
  - apply (bool_decide_unpack _). vm_compute. reflexivity.
Defined.

(** Tried on a url with a space, on one with a byte order mark, on one
    with a no-break space behind the question mark, and on the url [*]. *)
Lemma fastparse_hands_over_witness :
  ParseUrl.fastparse Node.parse "/a b" = Node.parse "/a b" /\
  ParseUrl.fastparse Node.parse
    (String "/" (String "a" (String "239" (String "187" (String "191" "b")))))
  = Node.parse
      (String "/" (String "a" (String "239" (String "187" (String "191" "b")))))
  /\
  ParseUrl.fastparse Node.parse
    (String "/" (String "?" (String "194" (String "160" ""))))
  = Node.parse (String "/" (String "?" (String "194" (String "160" "")))) /\
  ParseUrl.fastparse Node.parse "*" = Node.parse "*".
Proof.
  split_and!.
  - apply (fastparse_hands_over Node.parse "/a b").
    intros rest [= <-]. reflexivity.
  - apply (fastparse_hands_over Node.parse
             (String "/" (String "a" (String "239" (String "187"
                (String "191" "b")))))).
    intros rest [= <-]. reflexivity.
  - apply (fastparse_hands_over Node.parse
             (String "/" (String "?" (String "194" (String "160" ""))))).
    intros rest [= <-]. reflexivity.
  - apply (fastparse_hands_over Node.parse "*").
    intros rest. discriminate.
Defined.

(** Tried on [/app], mounted on [/srv]. *)
Lemma handle_redirects_at_mount_witness :
  exists r doc,
    ServeStatic.handle Node.externals Node.platform Node.fs_mount
      Node.middleware (Node.mounted "/app") Node.res0
    = ([Send.EvStat (Path.resolve (Send.cwd Node.externals) "/srv")],
       ServeStatic.Responded r doc) /\
    Send.statusCode r = 301 /\
    Send.res_getHeader r "Location"
    = Some (Send.encodeUrl Node.externals
              (ServeStatic.format Node.platform
                 (ParseUrl.mkUrl None
                    (ParseUrl.href (ParseUrl.fastparse Node.parse "/app"))
                    (Some (ServeStatic.collapseLeadingSlashes
                             ("/app" +:+ "/")))
                    (ParseUrl.query (ParseUrl.fastparse Node.parse "/app"))
                    (ParseUrl.search (ParseUrl.fastparse Node.parse "/app"))
                    (ParseUrl.others (ParseUrl.fastparse Node.parse "/app"))
                    (Some "/app")))).
Proof.
  let c := eval vm_compute in
    (Send.constructor Node.externals
       (ParseUrl.message (Node.mounted "/app")) ""
       (ServeStatic.opts Node.middleware)) in
  match c with
  | inr ?st =>
      apply (handle_redirects_at_mount Node.externals Node.platform
               Node.fs_mount "/srv"
               (ServeStatic.mkServeOptions Send.no_options None None None)
               Node.middleware (Node.mounted "/app") Node.res0
               "/app" "/app" st (Send.mkStats 4096 7000 true))
  end; vm_compute; reflexivity.
Defined.
